(** * Gradient-descent optimizers of [support.py]

    A shallow embedding of the optimizer classes of [src/01-main/support.py]
    ([GDTemplate], [PlainGD], [MomentumGD], [Adagrad], [RMSprop], [ADAM]) and
    the properties of their [update_change] and [reset] methods.

    The Python code is duck-typed: it runs on whatever numbers NumPy hands it.
    The embedding is therefore parametric in the scalar arithmetic ([Arith]),
    with two instances: [float64], IEEE-754 binary64 as NumPy computes it, and
    [exact], the real numbers.  The properties are stated for every
    arithmetic or for [float64]; [exact] only instantiates statements that
    hold for every arithmetic.  NumPy arrays are tensors with a shape and a
    row-major buffer, combined elementwise under NumPy's broadcasting rule.
    Python exceptions are values of [exn]; methods that assign to [self] are
    written in a small state-and-exception monad. *)

From Stdlib Require Import QArith.
Close Scope Q_scope.
From Stdlib Require Import List ZArith Lia Bool PrimFloat Floats Reals Lra.
Import ListNotations.

Set Implicit Arguments.

(** ** Exceptions and results *)

Inductive exn : Type :=
| NotImplementedError
| RuntimeError
| ValueError
| TypeError
| OverflowError
| ZeroDivisionError.

Inductive result (A : Type) : Type :=
| Ok (a : A)
| Raise (e : exn).

Arguments Ok {A} a.
Arguments Raise {A} e.

(** ** Scalar arithmetic

    The operators the optimizers apply to numbers, and the four float literals
    that occur in the source ([0.0], [1.], [1e-7], [1e-8]). *)

Class Arith (num : Type) : Type := {
  fadd : num -> num -> num;
  fsub : num -> num -> num;
  fmul : num -> num -> num;
  fdiv : num -> num -> num;
  fsqrt : num -> num;
  fsign : num -> num;
  lit_0 : num;
  lit_1 : num;
  lit_1e_7 : num;
  lit_1e_8 : num
}.

(** [numpy.sign] on a float: [1] above zero, [-1] below, [0] at either zero, and
    the argument itself (NaN) otherwise. *)
Definition float_sign (x : float) : float :=
  if PrimFloat.ltb 0%float x then 1%float
  else if PrimFloat.ltb x 0%float then (-1)%float
  else if PrimFloat.eqb x 0%float then 0%float
  else x.

#[export] Instance float64 : Arith float := {
  fadd := PrimFloat.add;
  fsub := PrimFloat.sub;
  fmul := PrimFloat.mul;
  fdiv := PrimFloat.div;
  fsqrt := PrimFloat.sqrt;
  fsign := float_sign;
  lit_0 := 0%float;
  lit_1 := 1%float;
  lit_1e_7 := 0x1.ad7f29abcaf48p-24%float;
  lit_1e_8 := 0x1.5798ee2308c3ap-27%float
}.

Definition real_sign (x : R) : R :=
  if Rlt_dec 0 x then 1%R
  else if Rlt_dec x 0 then (-1)%R
  else 0%R.

#[export] Instance exact : Arith R := {
  fadd := Rplus;
  fsub := Rminus;
  fmul := Rmult;
  fdiv := Rdiv;
  fsqrt := sqrt;
  fsign := real_sign;
  lit_0 := 0%R;
  lit_1 := 1%R;
  lit_1e_7 := (1 / 10000000)%R;
  lit_1e_8 := (1 / 100000000)%R
}.

(** A binary64 value is finite when it is neither NaN nor an infinity. *)
Definition is_finite (x : float) : bool :=
  negb (PrimFloat.is_nan x) && negb (PrimFloat.is_infinity x).

(** ** Tensors and NumPy broadcasting *)

Section Tensor.
Context {num : Type} {A : Arith num}.

Record tensor : Type := Tensor {
  shape : list nat;
  data : list num
}.

(** Number of elements of an array of shape [s]. *)
Definition size (s : list nat) : nat := fold_right Nat.mul 1 s.

Definition wf (t : tensor) : Prop := length (data t) = size (shape t).

(** A Python float, or a 0-d array. *)
Definition scalar (c : num) : tensor := Tensor [] [c].

(** Broadcasting of two shapes, innermost dimension first: dimensions are
    paired from the right; a pair is compatible when both are equal or one
    of them is [1]; missing leading dimensions are taken from the longer
    shape. *)
Fixpoint broadcast_rev (r1 r2 : list nat) : option (list nat) :=
  match r1, r2 with
  | [], r => Some r
  | r, [] => Some r
  | d1 :: r1', d2 :: r2' =>
      match broadcast_rev r1' r2' with
      | None => None
      | Some r =>
          if d1 =? d2 then Some (d1 :: r)
          else if d1 =? 1 then Some (d2 :: r)
          else if d2 =? 1 then Some (d1 :: r)
          else None
      end
  end.

Definition broadcast_shapes (s1 s2 : list nat) : option (list nat) :=
  option_map (@rev nat) (broadcast_rev (rev s1) (rev s2)).

(** Position in the buffer of an operand of (reversed) shape [rop] of the
    element that lands at flat position [i] of the (reversed) result shape
    [rres]: a dimension the operand lacks, or has with extent [1] against a
    larger one, is read at index [0]. *)
Fixpoint bidx (rres rop : list nat) (i : nat) : nat :=
  match rres, rop with
  | d :: rres', o :: rop' =>
      (if o =? d then i mod d else 0) + o * bidx rres' rop' (i / d)
  | _, _ => 0
  end.

(** [numpy.broadcast_to(t, s).ravel()] *)
Definition broadcast_to (s : list nat) (t : tensor) : list num :=
  map (fun i => nth (bidx (rev s) (rev (shape t)) i) (data t) lit_0)
      (seq 0 (size s)).

Fixpoint map2 (f : num -> num -> num) (l1 l2 : list num) : list num :=
  match l1, l2 with
  | x :: l1', y :: l2' => f x y :: map2 f l1' l2'
  | _, _ => []
  end.

(** An elementwise binary operator of NumPy: [ValueError] when the operands
    cannot be broadcast together. *)
Definition binop (f : num -> num -> num) (a b : tensor) : result tensor :=
  match broadcast_shapes (shape a) (shape b) with
  | Some s => Ok (Tensor s (map2 f (broadcast_to s a) (broadcast_to s b)))
  | None => Raise ValueError
  end.

(** An elementwise unary function of NumPy. *)
Definition unop (f : num -> num) (a : tensor) : tensor :=
  Tensor (shape a) (map f (data a)).

(** *** Python expressions

    An expression evaluates its operands left to right and stops at the
    first exception. *)

Definition expr : Type := result tensor.

Definition nd (t : tensor) : expr := Ok t.
Definition py (c : num) : expr := Ok (scalar c).

(** An argument that may be [None]: arithmetic on [None] is a [TypeError]. *)
Definition arg (o : option tensor) : expr :=
  match o with
  | Some t => Ok t
  | None => Raise TypeError
  end.

Definition lift2 (f : num -> num -> num) (x y : expr) : expr :=
  match x with
  | Raise e => Raise e
  | Ok a =>
      match y with
      | Raise e => Raise e
      | Ok b => binop f a b
      end
  end.

Definition lift1 (f : num -> num) (x : expr) : expr :=
  match x with
  | Raise e => Raise e
  | Ok a => Ok (unop f a)
  end.

Definition np_sqrt : expr -> expr := lift1 fsqrt.
Definition np_sign : expr -> expr := lift1 fsign.

End Tensor.

Arguments tensor num : clear implicits.
Arguments binop : simpl never.

Declare Scope py_scope.
Delimit Scope py_scope with py.
Infix "+^" := (lift2 fadd) (at level 50, left associativity) : py_scope.
Infix "-^" := (lift2 fsub) (at level 50, left associativity) : py_scope.
Infix "*^" := (lift2 fmul) (at level 40, left associativity) : py_scope.
Infix "/^" := (lift2 fdiv) (at level 40, left associativity) : py_scope.
Open Scope py_scope.

(** ** Methods that assign to [self]

    A method body is a function from the object before the call to the
    outcome and the object after it; an exception leaves the assignments made
    so far in place. *)

Definition method (S X : Type) : Type := S -> result X * S.

Definition ret {S X} (x : X) : method S X := fun s => (Ok x, s).

Definition bind {S X Y} (m : method S X) (k : X -> method S Y) : method S Y :=
  fun s =>
    match m s with
    | (Ok x, s') => k x s'
    | (Raise e, s') => (Raise e, s')
    end.

(** Evaluate an expression that reads [self]. *)
Definition eval {S X} (e : S -> result X) : method S X := fun s => (e s, s).

(** An assignment to attributes of [self]. *)
Definition assign {S} (f : S -> S) : method S unit := fun s => (Ok tt, f s).

Definition raise {S X} (e : exn) : method S X := fun s => (Raise e, s).

Notation "x <- m ;; k" := (bind m (fun x => k))
  (at level 61, m at next level, right associativity) : py_scope.
Notation "m ;;; k" := (bind m (fun _ => k))
  (at level 61, right associativity) : py_scope.

(** ** [class GDTemplate] *)

Module GDTemplate.
Section WithArith.
Context {num : Type} {A : Arith num}.

Record obj : Type := Make { eta : num }.

Definition init (learning_rate : num) : obj := Make learning_rate.

Definition update_change (gradient theta_m1 : tensor num)
  : method obj (tensor num) :=
  raise RuntimeError.

Definition reset (self : obj) : obj := self.

End WithArith.
Arguments obj num : clear implicits.
End GDTemplate.

(** ** [class PlainGD(GDTemplate)] *)

Module PlainGD.
Section WithArith.
Context {num : Type} {A : Arith num}.

Record obj : Type := Make {
  eta : num;
  lmbda : num;
  lp : Z
}.

Definition init (learning_rate lmbda : num) (lp : Z) : obj :=
  Make learning_rate lmbda lp.

(** [theta_m1] defaults to [None]. *)
Definition update_change (gradient : tensor num)
    (theta_m1 : option (tensor num)) : method obj (tensor num) :=
  eval (fun self =>
    if (lp self =? 0)%Z then
      py (eta self) *^ nd gradient
    else if (lp self =? 1)%Z then
      py (eta self) *^ nd gradient +^ py (lmbda self) *^ np_sign (arg theta_m1)
    else if (lp self =? 2)%Z then
      py (eta self) *^ nd gradient +^ py (lmbda self) *^ arg theta_m1
    else
      Raise NotImplementedError).

Definition reset (self : obj) : obj := self.

End WithArith.
Arguments obj num : clear implicits.
End PlainGD.

(** ** [class MomentumGD(GDTemplate)] *)

Module MomentumGD.
Section WithArith.
Context {num : Type} {A : Arith num}.

Record obj : Type := Make {
  eta : num;
  mom : num;
  lmbda : num;
  lp : Z
}.

Definition init (learning_rate momentum lmbda : num) (lp : Z) : obj :=
  Make learning_rate momentum lmbda lp.

Definition update_change (gradient theta_m1 : tensor num)
  : method obj (tensor num) :=
  eval (fun self =>
    if (lp self =? 0)%Z then
      py (eta self) *^ nd gradient +^ py (mom self) *^ nd theta_m1
    else if (lp self =? 1)%Z then
      py (eta self) *^ nd gradient +^ py (mom self) *^ nd theta_m1
        +^ py (lmbda self) *^ np_sign (nd theta_m1)
    else if (lp self =? 2)%Z then
      py (eta self) *^ nd gradient +^ py (mom self) *^ nd theta_m1
        +^ py (lmbda self) *^ nd theta_m1
    else
      Raise NotImplementedError).

Definition reset (self : obj) : obj := self.

End WithArith.
Arguments obj num : clear implicits.
End MomentumGD.

(** ** [class Adagrad(GDTemplate)] *)

Module Adagrad.
Section WithArith.
Context {num : Type} {A : Arith num}.

(** [adagrad_learn_rate] is [None] until the first call. *)
Record obj : Type := Make {
  eta : num;
  mom : num;
  adagrad_learn_rate : option (tensor num);
  lmbda : num;
  lp : Z
}.

Definition init (learning_rate momentum lmbda : num) (lp : Z) : obj :=
  Make learning_rate momentum None lmbda lp.

Definition set_adagrad_learn_rate (v : option (tensor num)) (self : obj)
  : obj :=
  Make (eta self) (mom self) v (lmbda self) (lp self).

Definition update_change (gradient theta_m1 : tensor num)
  : method obj (tensor num) :=
  let delta := lit_1e_7 in
  gradient2 <- eval (fun _ => nd gradient *^ nd gradient) ;;
  rate <- eval (fun self =>
            py (eta self) /^ (py delta +^ np_sqrt (nd gradient2))) ;;
  assign (set_adagrad_learn_rate (Some rate)) ;;;
  eval (fun self =>
    if (lp self =? 0)%Z then
      nd gradient *^ arg (adagrad_learn_rate self)
        +^ py (mom self) *^ nd theta_m1
    else if (lp self =? 1)%Z then
      nd gradient *^ arg (adagrad_learn_rate self)
        +^ py (mom self) *^ nd theta_m1
        +^ py (lmbda self) *^ np_sign (nd theta_m1)
    else if (lp self =? 2)%Z then
      nd gradient *^ arg (adagrad_learn_rate self)
        +^ py (mom self) *^ nd theta_m1
        +^ py (lmbda self) *^ nd theta_m1
    else
      Raise NotImplementedError).

Definition reset (self : obj) : obj := set_adagrad_learn_rate None self.

End WithArith.
Arguments obj num : clear implicits.
End Adagrad.

(** ** [class RMSprop(GDTemplate)] *)

Module RMSprop.
Section WithArith.
Context {num : Type} {A : Arith num}.

(** [rmsProp_update] starts as the float [0.0] and holds an array after the
    first call. *)
Record obj : Type := Make {
  eta : num;
  rmsProp_update : tensor num;
  decay : num;
  lmbda : num
}.

Definition init (learning_rate decay lmbda : num) : obj :=
  Make learning_rate (scalar lit_0) decay lmbda.

Definition set_rmsProp_update (v : tensor num) (self : obj) : obj :=
  Make (eta self) v (decay self) (lmbda self).

Definition update_change (gradient theta_m1 : tensor num)
  : method obj (tensor num) :=
  let delta := lit_1e_8 in
  v <- eval (fun self =>
         py (decay self) *^ nd (rmsProp_update self)
           +^ py (fsub lit_1 (decay self)) *^ nd gradient *^ nd gradient) ;;
  assign (set_rmsProp_update v) ;;;
  eval (fun self =>
    py (eta self) /^ np_sqrt (nd (rmsProp_update self) +^ py delta)
      *^ nd gradient
      +^ py (lmbda self) *^ nd theta_m1).

Definition reset (self : obj) : obj := set_rmsProp_update (scalar lit_0) self.

End WithArith.
Arguments obj num : clear implicits.
End RMSprop.

(** ** [class ADAM(GDTemplate)] *)

Module ADAM.
Section WithArith.
Context {num : Type} {A : Arith num}.

(** Python's [float ** int] (the C library's [pow]), which raises
    [OverflowError] or [ZeroDivisionError] instead of returning an
    infinity; taken as a parameter. *)
Variable pow : num -> Z -> result num.

Record obj : Type := Make {
  eta : num;
  decay1 : num;
  decay2 : num;
  lmbda : num;
  s : tensor num;
  r : tensor num;
  t : Z
}.

(** [decay_rates] is the two-element list [[decay1, decay2]]. *)
Definition init (learning_rate decay1 decay2 lmbda : num) : obj :=
  Make learning_rate decay1 decay2 lmbda (scalar lit_0) (scalar lit_0) 1.

Definition set_s (v : tensor num) (self : obj) : obj :=
  Make (eta self) (decay1 self) (decay2 self) (lmbda self) v (r self)
       (t self).

Definition set_r (v : tensor num) (self : obj) : obj :=
  Make (eta self) (decay1 self) (decay2 self) (lmbda self) (s self) v
       (t self).

Definition set_t (v : Z) (self : obj) : obj :=
  Make (eta self) (decay1 self) (decay2 self) (lmbda self) (s self)
       (r self) v.

(** The bias-correction divisor [1. - decay**t]. *)
Definition bias_divisor (decay : num) (t : Z) : expr :=
  match pow decay t with
  | Ok p => py (fsub lit_1 p)
  | Raise e => Raise e
  end.

Definition update_change (gradient theta_m1 : tensor num)
  : method obj (tensor num) :=
  let delta := lit_1e_8 in
  s' <- eval (fun self =>
          py (decay1 self) *^ nd (s self)
            +^ py (fsub lit_1 (decay1 self)) *^ nd gradient) ;;
  assign (set_s s') ;;;
  r' <- eval (fun self =>
          py (decay2 self) *^ nd (r self)
            +^ py (fsub lit_1 (decay2 self)) *^ nd gradient *^ nd gradient) ;;
  assign (set_r r') ;;;
  s_corr <- eval (fun self =>
              nd (s self) /^ bias_divisor (decay1 self) (t self)) ;;
  r_corr <- eval (fun self =>
              nd (r self) /^ bias_divisor (decay2 self) (t self)) ;;
  eval (fun self =>
    py (eta self) *^ (nd s_corr /^ (np_sqrt (nd r_corr) +^ py delta))
      +^ py (lmbda self) *^ nd theta_m1).

Definition reset (self : obj) : obj :=
  set_t (t self + 1) (set_r (scalar lit_0) (set_s (scalar lit_0) self)).

End WithArith.
Arguments obj num : clear implicits.
End ADAM.

(** ** Attribute assignment by the caller

    [lp] is an ordinary attribute: the caller of an optimizer may write
    [opt.lp = k] between two calls. *)

Definition PlainGD_set_lp {num} (k : Z) (self : PlainGD.obj num)
  : PlainGD.obj num :=
  PlainGD.Make (PlainGD.eta self) (PlainGD.lmbda self) k.

Definition MomentumGD_set_lp {num} (k : Z) (self : MomentumGD.obj num)
  : MomentumGD.obj num :=
  MomentumGD.Make (MomentumGD.eta self) (MomentumGD.mom self)
                  (MomentumGD.lmbda self) k.

Definition Adagrad_set_lp {num} (k : Z) (self : Adagrad.obj num)
  : Adagrad.obj num :=
  Adagrad.Make (Adagrad.eta self) (Adagrad.mom self)
               (Adagrad.adagrad_learn_rate self) (Adagrad.lmbda self) k.

(** ** Dynamic dispatch

    An optimizer held by a training loop is an instance of one of the five
    subclasses; a method call runs the method of the instance's class. *)

Module Optimizer.
Section WithArith.
Context {num : Type} {A : Arith num}.
Variable pow : num -> Z -> result num.

Inductive obj : Type :=
| OfPlainGD (o : PlainGD.obj num)
| OfMomentumGD (o : MomentumGD.obj num)
| OfAdagrad (o : Adagrad.obj num)
| OfRMSprop (o : RMSprop.obj num)
| OfADAM (o : ADAM.obj num).

Definition wrap {S X} (c : S -> obj) (out : result X * S) : result X * obj :=
  (fst out, c (snd out)).

Definition update_change (gradient theta_m1 : tensor num)
  : method obj (tensor num) :=
  fun self =>
    match self with
    | OfPlainGD o =>
        wrap OfPlainGD (PlainGD.update_change gradient (Some theta_m1) o)
    | OfMomentumGD o =>
        wrap OfMomentumGD (MomentumGD.update_change gradient theta_m1 o)
    | OfAdagrad o =>
        wrap OfAdagrad (Adagrad.update_change gradient theta_m1 o)
    | OfRMSprop o =>
        wrap OfRMSprop (RMSprop.update_change gradient theta_m1 o)
    | OfADAM o =>
        wrap OfADAM (ADAM.update_change pow gradient theta_m1 o)
    end.

Definition reset (self : obj) : obj :=
  match self with
  | OfPlainGD o => OfPlainGD (PlainGD.reset o)
  | OfMomentumGD o => OfMomentumGD (MomentumGD.reset o)
  | OfAdagrad o => OfAdagrad (Adagrad.reset o)
  | OfRMSprop o => OfRMSprop (RMSprop.reset o)
  | OfADAM o => OfADAM (ADAM.reset o)
  end.

(** The regularization order of the variants that have one. *)
Definition lp (self : obj) : option Z :=
  match self with
  | OfPlainGD o => Some (PlainGD.lp o)
  | OfMomentumGD o => Some (MomentumGD.lp o)
  | OfAdagrad o => Some (Adagrad.lp o)
  | OfRMSprop _ => None
  | OfADAM _ => None
  end.

Definition set_lp (k : Z) (self : obj) : obj :=
  match self with
  | OfPlainGD o => OfPlainGD (PlainGD_set_lp k o)
  | OfMomentumGD o => OfMomentumGD (MomentumGD_set_lp k o)
  | OfAdagrad o => OfAdagrad (Adagrad_set_lp k o)
  | OfRMSprop o => OfRMSprop o
  | OfADAM o => OfADAM o
  end.

(** The variants without attributes that [update_change] assigns. *)
Definition stateless (self : obj) : bool :=
  match self with
  | OfPlainGD _ | OfMomentumGD _ => true
  | _ => false
  end.

End WithArith.
Arguments obj num : clear implicits.
End Optimizer.

(** ** Call histories *)

Section Histories.
Context {num : Type} {A : Arith num}.

(** A call made on an optimizer by the training loop. *)
Inductive call : Type :=
| Update (gradient theta_m1 : tensor num)
| Reset.

Definition Adagrad_call (self : Adagrad.obj num) (c : call)
  : Adagrad.obj num :=
  match c with
  | Update g th => snd (Adagrad.update_change g th self)
  | Reset => Adagrad.reset self
  end.

(** The object after a history of calls, oldest first; a call that raises
    leaves the object as the exception found it. *)
Definition Adagrad_history (cs : list call) (self : Adagrad.obj num)
  : Adagrad.obj num :=
  fold_left Adagrad_call cs self.

Variable pow : num -> Z -> result num.

Definition ADAM_call (self : ADAM.obj num) (c : call) : ADAM.obj num :=
  match c with
  | Update g th => snd (ADAM.update_change pow g th self)
  | Reset => ADAM.reset self
  end.

Definition ADAM_history (cs : list call) (self : ADAM.obj num)
  : ADAM.obj num :=
  fold_left ADAM_call cs self.

End Histories.

Arguments call num : clear implicits.

(** ** The update rules as the specification words them

    Elementwise formulas on scalars, for comparison with the tensor code. *)

Module Spec.
Section WithArith.
Context {num : Type} {A : Arith num}.

(** The base update plus the penalty selected by [lp]: none for [0],
    [lambda * sign(previous_update)] for [1], [lambda * previous_update]
    for [2]. *)
Definition regularized (lp : Z) (lmbda base previous_update : num) : num :=
  if (lp =? 0)%Z then base
  else if (lp =? 1)%Z then fadd base (fmul lmbda (fsign previous_update))
  else fadd base (fmul lmbda previous_update).

(** PlainGD without penalty: [eta * gradient]. *)
Definition plain_gd (eta gradient : num) : num := fmul eta gradient.

(** Adagrad: [adaptive_rate = eta / (eps + sqrt(gradient * gradient))],
    [gradient * adaptive_rate + momentum * previous_update] plus the
    penalty, with [eps = 1e-7]. *)
Definition adagrad_divisor (gradient : num) : num :=
  fadd lit_1e_7 (fsqrt (fmul gradient gradient)).

Definition adagrad (eta mom lmbda : num) (lp : Z)
    (gradient previous_update : num) : num :=
  regularized lp lmbda
    (fadd (fmul gradient (fdiv eta (adagrad_divisor gradient)))
          (fmul mom previous_update))
    previous_update.

(** RMSProp: [v' = decay * v + (1 - decay) * gradient * gradient] and
    [eta / sqrt(v' + eps) * gradient + lambda * previous_update], with
    [eps = 1e-8]; [step] is the first summand of the output. *)
Definition rmsprop_v (decay v gradient : num) : num :=
  fadd (fmul decay v) (fmul (fmul (fsub lit_1 decay) gradient) gradient).

Definition rmsprop_step (eta v' gradient : num) : num :=
  fmul (fdiv eta (fsqrt (fadd v' lit_1e_8))) gradient.

Definition rmsprop_out (lmbda step previous_update : num) : num :=
  fadd step (fmul lmbda previous_update).

End WithArith.
End Spec.

(** All entries of a binary64 tensor are finite. *)
Definition all_finite (t : tensor float) : bool := forallb is_finite (data t).

(** ** Statements compared with the code *)

Section Statements.
Context {num : Type} {A : Arith num}.

(** With the same gradient and previous update, the output of PlainGD for
    [lp = 2] minus its output for [lp = 1] is
    [lambda * (previous_update - sign(previous_update))]. *)
Definition lp_difference_law (eta lmbda : num) (gradient p : tensor num)
  : Prop :=
  exists u1 u2,
    fst (PlainGD.update_change gradient (Some p) (PlainGD.init eta lmbda 1))
    = Ok u1
    /\ fst (PlainGD.update_change gradient (Some p)
              (PlainGD.init eta lmbda 2))
       = Ok u2
    /\ nd u2 -^ nd u1 = py lmbda *^ (nd p -^ np_sign (nd p)).

(** The attributes of an Adagrad instance that [__init__] takes from its
    caller. *)
Definition Adagrad_hyper (self : Adagrad.obj num) : num * num * num * Z :=
  (Adagrad.eta self, Adagrad.mom self, Adagrad.lmbda self, Adagrad.lp self).

(** The attributes of an ADAM instance that [update_change] reads but never
    assigns: the hyperparameters and the step counter. *)
Definition ADAM_frame (self : ADAM.obj num) : num * num * num * num * Z :=
  (ADAM.eta self, ADAM.decay1 self, ADAM.decay2 self, ADAM.lmbda self,
   ADAM.t self).

(** A run of [update_change] calls, with no [reset] in between. *)
Definition updates (us : list (tensor num * tensor num)) : list (call num) :=
  map (fun u => Update (fst u) (snd u)) us.

End Statements.

(** ** Calls in which [theta_m1] meets the gradient *)

Section Readiness.
Context {num : Type} {A : Arith num}.
Variable pow : num -> Z -> result num.

(** An accumulator fits a gradient when broadcasting the two gives the
    gradient's shape: the initial float does, and so does an array of the
    gradient's shape. *)
Definition fits (acc gradient : tensor num) : Prop :=
  broadcast_shapes (shape acc) (shape gradient) = Some (shape gradient).

(** The configurations in which [update_change] gets as far as combining
    [theta_m1] with a gradient-shaped term: a valid [lp] other than PlainGD's
    [0], accumulators that fit the gradient, and bias-correction powers that
    evaluate. *)
Definition reaches_previous_update (self : Optimizer.obj num)
    (gradient : tensor num) : Prop :=
  match self with
  | Optimizer.OfPlainGD o => (1 <= PlainGD.lp o <= 2)%Z
  | Optimizer.OfMomentumGD o => (0 <= MomentumGD.lp o <= 2)%Z
  | Optimizer.OfAdagrad o => (0 <= Adagrad.lp o <= 2)%Z
  | Optimizer.OfRMSprop o => fits (RMSprop.rmsProp_update o) gradient
  | Optimizer.OfADAM o =>
      fits (ADAM.s o) gradient /\ fits (ADAM.r o) gradient
      /\ (exists p1, pow (ADAM.decay1 o) (ADAM.t o) = Ok p1)
      /\ (exists p2, pow (ADAM.decay2 o) (ADAM.t o) = Ok p2)
  end.

(** What a call may leave behind when it raises: a stateless variant is
    as it was; for the others, the attributes that [reset] does not
    reinitialise are as they were. *)
Definition unchanged_up_to_reset (before after : Optimizer.obj num) : Prop :=
  if Optimizer.stateless before then after = before
  else Optimizer.reset after = Optimizer.reset before.

End Readiness.

(** The documented ranges of Adagrad's hyperparameters: [eta > 0],
    [momentum] in [[0,1)], [lmbda >= 0], [lp] in [{0,1,2}]. *)
Definition Adagrad_documented_ranges (self : Adagrad.obj float) : bool :=
  PrimFloat.ltb 0%float (Adagrad.eta self)
  && PrimFloat.leb 0%float (Adagrad.mom self)
  && PrimFloat.ltb (Adagrad.mom self) 1%float
  && PrimFloat.leb 0%float (Adagrad.lmbda self)
  && (0 <=? Adagrad.lp self)%Z && (Adagrad.lp self <=? 2)%Z.

(** Adagrad's [update_change] returns a tensor with finite entries. *)
Definition Adagrad_returns_finite (self : Adagrad.obj float)
    (gradient theta_m1 : tensor float) : Prop :=
  exists u,
    fst (Adagrad.update_change gradient theta_m1 self) = Ok u
    /\ all_finite u = true.

(** ** More of the update rules, element by element *)

Module Rules.
Section WithArith.
Context {num : Type} {A : Arith num}.

(** PlainGD: [eta * gradient] plus the penalty. *)
Definition plain_gd (eta lmbda : num) (lp : Z)
    (gradient previous_update : num) : num :=
  Spec.regularized lp lmbda (fmul eta gradient) previous_update.

(** MomentumGD: [eta * gradient + mom * previous_update] plus the penalty. *)
Definition momentum_gd (eta mom lmbda : num) (lp : Z)
    (gradient previous_update : num) : num :=
  Spec.regularized lp lmbda
    (fadd (fmul eta gradient) (fmul mom previous_update)) previous_update.

(** ADAM's moments: [s' = decay1*s + (1. - decay1)*gradient] and
    [r' = decay2*r + (1. - decay2)*gradient*gradient]. *)
Definition adam_s (decay1 s gradient : num) : num :=
  fadd (fmul decay1 s) (fmul (fsub lit_1 decay1) gradient).

Definition adam_r (decay2 r gradient : num) : num :=
  fadd (fmul decay2 r) (fmul (fmul (fsub lit_1 decay2) gradient) gradient).

(** ADAM's step from the moments, with [p1 = decay1**t] and
    [p2 = decay2**t]:
    [eta * (s'/(1. - p1) / (sqrt(r'/(1. - p2)) + 1e-8))]. *)
Definition adam_step (eta p1 p2 s' r' : num) : num :=
  fmul eta
    (fdiv (fdiv s' (fsub lit_1 p1))
          (fadd (fsqrt (fdiv r' (fsub lit_1 p2))) lit_1e_8)).

Definition adam_out (lmbda step previous_update : num) : num :=
  fadd step (fmul lmbda previous_update).

End WithArith.
End Rules.

(** ** Histories of the other stateful variants *)

Section MoreHistories.
Context {num : Type} {A : Arith num}.

Definition RMSprop_call (self : RMSprop.obj num) (c : call num)
  : RMSprop.obj num :=
  match c with
  | Update g th => snd (RMSprop.update_change g th self)
  | Reset => RMSprop.reset self
  end.

Definition RMSprop_history (cs : list (call num)) (self : RMSprop.obj num)
  : RMSprop.obj num :=
  fold_left RMSprop_call cs self.

(** The number of [reset] calls in a history. *)
Definition count_resets (cs : list (call num)) : Z :=
  Z.of_nat (length (filter (fun c => match c with
                                     | Reset => true
                                     | Update _ _ => false
                                     end) cs)).

(** Every [update_change] of the history is on a gradient and a previous
    update of shape [s]. *)
Definition calls_of_shape (s : list nat) (cs : list (call num)) : Prop :=
  Forall (fun c => match c with
                   | Update g th =>
                       wf g /\ wf th /\ shape g = s /\ shape th = s
                   | Reset => True
                   end) cs.

(** An accumulator as [__init__] or [reset] leaves it, or as a call on a
    gradient of shape [s] leaves it. *)
Definition accumulator_of_shape (s : list nat) (acc : tensor num) : Prop :=
  wf acc /\ (shape acc = [] \/ shape acc = s).

End MoreHistories.

(** ** Activation functions

    The functions at the head of [support.py].  Besides the operators of
    [Arith] they compare with zero and negate ([Ordered]) and call NumPy's
    elementary functions ([Elementary]).  The C library's binary64 versions
    of these are outside the kernel's floats: a statement on binary64 is
    made for every choice of them, and the instance on the real numbers
    only instantiates statements that hold for every arithmetic. *)

Class Ordered (num : Type) : Type := {
  gt0 : num -> bool;
  fneg : num -> num
}.

#[export] Instance float64_ordered : Ordered float := {
  gt0 := fun x => PrimFloat.ltb 0%float x;
  fneg := PrimFloat.opp
}.

#[export] Instance exact_ordered : Ordered R := {
  gt0 := fun x => if Rlt_dec 0 x then true else false;
  fneg := Ropp
}.

Class Elementary (num : Type) : Type := {
  fexp : num -> num;
  ftanh : num -> num;
  fsin : num -> num;
  fcos : num -> num;
  fpowz : num -> Z -> num;
  fabs : num -> num;
  lit_pi : num;
  lit_2 : num;
  lit_0_5 : num;
  lit_0_044715 : num
}.

#[export] Instance exact_elementary : Elementary R := {
  fexp := exp;
  ftanh := tanh;
  fsin := sin;
  fcos := cos;
  fpowz := powerRZ;
  fabs := Rabs;
  lit_pi := PI;
  lit_2 := 2%R;
  lit_0_5 := (1 / 2)%R;
  lit_0_044715 := (44715 / 1000000)%R
}.

Section Activations.
Context {num : Type} {A : Arith num} {O : Ordered num}.

(** [z > 0]: a boolean array of the shape of [z]. *)
Definition np_gt0 (z : expr) : result (tensor bool) :=
  match z with
  | Raise e => Raise e
  | Ok t => Ok (Tensor (shape t) (map gt0 (data t)))
  end.

(** [numpy.where(c, x, y)] on three arrays. *)
Definition where3 (c : tensor bool) (x y : tensor num) : expr :=
  match broadcast_shapes (shape c) (shape x) with
  | None => Raise ValueError
  | Some s1 =>
      match broadcast_shapes s1 (shape y) with
      | None => Raise ValueError
      | Some s =>
          Ok (Tensor s
                (map (fun i =>
                        if nth (bidx (rev s) (rev (shape c)) i) (data c) false
                        then nth (bidx (rev s) (rev (shape x)) i) (data x)
                                 lit_0
                        else nth (bidx (rev s) (rev (shape y)) i) (data y)
                                 lit_0)
                     (seq 0 (size s))))
      end
  end.

(** The arguments are evaluated before the call, left to right. *)
Definition np_where (c : result (tensor bool)) (x y : expr) : expr :=
  match c with
  | Raise e => Raise e
  | Ok c =>
      match x with
      | Raise e => Raise e
      | Ok x =>
          match y with
          | Raise e => Raise e
          | Ok y => where3 c x y
          end
      end
  end.

Definition np_negative : expr -> expr := lift1 fneg.

Definition identity (z : tensor num) : expr := nd z.

Definition ReLU (z : tensor num) : expr :=
  np_where (np_gt0 (nd z)) (nd z) (py lit_0).

Definition LeakyReLU (z : tensor num) (alpha : num) : expr :=
  np_where (np_gt0 (nd z)) (nd z) (py alpha *^ nd z).

Context {E : Elementary num}.

Definition np_exp : expr -> expr := lift1 fexp.
Definition np_tanh : expr -> expr := lift1 ftanh.

(** [z ** n] for a Python integer [n]. *)
Definition np_power (z : expr) (n : Z) : expr := lift1 (fun x => fpowz x n) z.

Definition sigmoid (z : tensor num) : expr :=
  py lit_1 /^ (py lit_1 +^ np_exp (np_negative (nd z))).

Definition tanh (z : tensor num) : expr := np_tanh (nd z).

Definition ELU (z : tensor num) (alpha : num) : expr :=
  np_where (np_gt0 (nd z)) (nd z) (py alpha *^ (np_exp (nd z) -^ py lit_1)).

Definition GELU (z : tensor num) : expr :=
  let a := lit_0_044715 in
  py lit_0_5 *^ nd z
    *^ (py lit_1
        +^ np_tanh (py (fsqrt (fdiv lit_2 lit_pi))
                    *^ (nd z +^ py a *^ np_power (nd z) 3))).

Definition SiLU (z : tensor num) : expr := nd z *^ sigmoid z.

End Activations.

(** ** The activation functions at one number *)

Module Pointwise.
Section WithArith.
Context {num : Type} {A : Arith num} {O : Ordered num} {E : Elementary num}.

Definition sigmoid (x : num) : num :=
  fdiv lit_1 (fadd lit_1 (fexp (fneg x))).

Definition SiLU (x : num) : num := fmul x (sigmoid x).

Definition ELU (alpha x : num) : num :=
  if gt0 x then x else fmul alpha (fsub (fexp x) lit_1).

Definition GELU (x : num) : num :=
  fmul (fmul lit_0_5 x)
       (fadd lit_1
             (ftanh (fmul (fsqrt (fdiv lit_2 lit_pi))
                          (fadd x (fmul lit_0_044715 (fpowz x 3)))))).

End WithArith.
End Pointwise.

(** ** PDE classes of [PDEq.py], as constructed with [sim_type='own']

    With [sim_type='own'] the methods compute with [autograd.numpy], that is
    with the operators above; the ['flow'] branches, which compute with
    TensorFlow, are not part of the embedding.  A domain is the pair
    [(x0, xN)] of its end points. *)

(** A Python subscript [l[i]] on a list: a negative index counts from the
    end, an index out of range is an [IndexError]. *)
Inductive subscripted (X : Type) : Type :=
| Item (x : X)
| IndexError.

Arguments Item {X} x.
Arguments IndexError {X}.

Definition subscript {X : Type} (l : list X) (i : Z) : subscripted X :=
  let n := Z.of_nat (length l) in
  let k := if (i <? 0)%Z then (i + n)%Z else i in
  if ((k <? 0) || (n <=? k))%Z then IndexError
  else match nth_error l (Z.to_nat k) with
       | Some x => Item x
       | None => IndexError
       end.

Section PDEExpressions.
Context {num : Type} {A : Arith num} {E : Elementary num}.

Definition np_sin : expr -> expr := lift1 fsin.
Definition np_cos : expr -> expr := lift1 fcos.

End PDEExpressions.

Module Diffusion1D.
Section WithArith.
Context {num : Type} {A : Arith num} {O : Ordered num} {E : Elementary num}.

(** [h1] and [B] exist once [trail_function] has run. *)
Record obj : Type := Make {
  amp : num;
  Df : num;
  h1 : option (tensor num);
  B : option (tensor num)
}.

Definition init (amp D : num) : obj := Make amp D None None.

Definition set_h1 (v : tensor num) (self : obj) : obj :=
  Make (amp self) (Df self) (Some v) (B self).

Definition set_B (v : tensor num) (self : obj) : obj :=
  Make (amp self) (Df self) (h1 self) (Some v).

Definition init_function (self : obj) (domain_array : tensor num)
    (domain : num * num) : expr :=
  let x := domain_array in
  let L := snd domain in
  py (amp self) *^ np_sin (py lit_pi *^ nd x /^ py L).

Definition analytical (self : obj) (domain_array : tensor num * tensor num)
    (domain : num * num) : expr :=
  let (x, t) := domain_array in
  let L := lit_1 in
  let Df := Df self in
  py (amp self)
    *^ np_exp (py (fmul (fneg (fpowz lit_pi 2)) Df) *^ nd t
               /^ py (fpowz L 2))
    *^ np_sin (py lit_pi *^ nd x /^ py L).

Definition boundary_function (self : obj)
    (domain_array : tensor num * tensor num) (domain : num * num) : expr :=
  let (x, t) := domain_array in
  analytical self (x, t) domain.

Definition trail_function (point : tensor num * tensor num)
    (domain : num * num) : method obj unit :=
  let (t, x) := point in
  let (x0, xN) := domain in
  h <- eval (fun self =>
         (py lit_1 -^ nd t)
           *^ (py (amp self) *^ np_sin (py lit_pi *^ nd x /^ py xN))) ;;
  assign (set_h1 h) ;;;
  b <- eval (fun _ =>
         nd x /^ py xN *^ (py lit_1 -^ nd x /^ py xN) *^ nd t) ;;
  assign (set_B b).

Definition residual_function (self : obj) (u : list (tensor num))
  : subscripted expr :=
  match subscript u 1 with
  | IndexError => IndexError
  | Item u1 =>
      match subscript u 4 with
      | IndexError => IndexError
      | Item u4 => Item (nd u1 -^ py (Df self) *^ nd u4)
      end
  end.

End WithArith.
Arguments obj num : clear implicits.
End Diffusion1D.

Module Wave1D.
Section WithArith.
Context {num : Type} {A : Arith num} {O : Ordered num} {E : Elementary num}.

Record obj : Type := Make {
  c : num;
  amp : num;
  m : num
}.

Definition init (amp c m : num) : obj := Make c amp m.

Definition analytical (self : obj) (domain_array : tensor num * tensor num)
    (domain : num * num) : expr :=
  let (x, t) := domain_array in
  let L := fadd (snd domain) (fabs (fst domain)) in
  py (amp self) *^ np_sin (py lit_pi *^ nd x /^ py L)
    *^ np_cos (py (fmul (c self) lit_pi) *^ nd t).

Definition init_function (self : obj) (domain_array : tensor num)
    (domain : num * num) : expr :=
  let x := domain_array in
  let t := scalar lit_0 in
  analytical self (x, t) domain.

Definition residual_function (self : obj) (u : list (tensor num))
  : subscripted expr :=
  match subscript u 3 with
  | IndexError => IndexError
  | Item u3 =>
      match subscript u 4 with
      | IndexError => IndexError
      | Item u4 => Item (nd u3 -^ py (fpowz (c self) 2) *^ nd u4)
      end
  end.

End WithArith.
Arguments obj num : clear implicits.
End Wave1D.

Module Diffusion2D.
Section WithArith.
Context {num : Type} {A : Arith num} {O : Ordered num} {E : Elementary num}.

Record obj : Type := Make {
  amp : num;
  Df : num
}.

Definition init (amp D : num) : obj := Make amp D.

(** [u[1] - Df*(u[5] + u[-1])] *)
Definition residual_function (self : obj) (u : list (tensor num))
  : subscripted expr :=
  match subscript u 1 with
  | IndexError => IndexError
  | Item u1 =>
      match subscript u 5 with
      | IndexError => IndexError
      | Item u5 =>
          match subscript u (-1) with
          | IndexError => IndexError
          | Item ulast =>
              Item (nd u1 -^ py (Df self) *^ (nd u5 +^ nd ulast))
          end
      end
  end.

End WithArith.
Arguments obj num : clear implicits.
End Diffusion2D.

Module Wave2D.
Section WithArith.
Context {num : Type} {A : Arith num} {O : Ordered num} {E : Elementary num}.

Record obj : Type := Make {
  c : num;
  amp : num;
  mx : num;
  my : num
}.

(** [m] is the two-element list [[mx, my]]. *)
Definition init (amp c mx my : num) : obj := Make c amp mx my.

(** [u[4] - c**2 * (u[5] + u[-1])] *)
Definition residual_function (self : obj) (u : list (tensor num))
  : subscripted expr :=
  match subscript u 4 with
  | IndexError => IndexError
  | Item u4 =>
      match subscript u 5 with
      | IndexError => IndexError
      | Item u5 =>
          match subscript u (-1) with
          | IndexError => IndexError
          | Item ulast =>
              Item (nd u4 -^ py (fpowz (c self) 2) *^ (nd u5 +^ nd ulast))
          end
      end
  end.

End WithArith.
Arguments obj num : clear implicits.
End Wave2D.

(** ** [plot1D]: which labels and line styles reach matplotlib

    The calls on the figure are recorded, not interpreted: they are taken to
    return.  What is modelled is the bookkeeping around them: the list
    [labels], which the function extends in place, and the subscripts into
    [labels], [line_styles] and [z_data]. *)

From Stdlib Require String.
Import String.StringSyntax.
Delimit Scope string_scope with string.

Section Plot1D.
Variable X : Type.

Let string : Type := String.string.

(** [z_data] is one array, or a Python list of arrays. *)
Inductive z_data : Type :=
| ZArray (z : X)
| ZList (zs : list X).

(** A call on the axes or the figure. *)
Inductive drawing : Type :=
| Plot (z : X) (label : string)
| Scatter (z : X) (label : string)
| Line (z : X) (label : string) (ls : option string)
| SetTitle (s : string)
| SetXLabel (s : string)
| SetYLabel (s : string)
| Legend
| Grid
| SaveFig (f_name : string).

Definition line_styles : list (option string) :=
  [None; Some "--"%string; Some "-."%string].

(** [for i in range(len(z_data)-2): labels.append('')], when
    [len(labels) < 3 + len(z_data)]. *)
Definition extend_labels (labels : list string) (n : nat) : list string :=
  if length labels <? 3 + n then labels ++ repeat ""%string (n - 2)
  else labels.

(** The loop [for i in range(1,len(z_data))], from [i] on, over
    [z_data[i:]]. *)
Fixpoint plot_lines (labels : list string) (i : Z) (zs : list X)
  : subscripted (list drawing) :=
  match zs with
  | [] => Item []
  | z :: zs' =>
      match subscript labels (4 + (i - 1)) with
      | IndexError => IndexError
      | Item lab =>
          match subscript line_styles (i - 1) with
          | IndexError => IndexError
          | Item ls =>
              match plot_lines labels (i + 1) zs' with
              | IndexError => IndexError
              | Item ds => Item (Line z lab ls :: ds)
              end
          end
      end
  end.

Definition plot_series (labels : list string) (z : z_data)
  : subscripted (list drawing) :=
  match z with
  | ZArray z =>
      match subscript labels 3 with
      | IndexError => IndexError
      | Item lab => Item [Plot z lab]
      end
  | ZList zs =>
      match subscript zs 0 with
      | IndexError => IndexError
      | Item z0 =>
          match subscript labels 3 with
          | IndexError => IndexError
          | Item lab =>
              match plot_lines labels 1 (tl zs) with
              | IndexError => IndexError
              | Item ds => Item (Scatter z0 lab :: ds)
              end
          end
      end
  end.

Definition set_axes_labels (labels : list string)
  : subscripted (list drawing) :=
  match subscript labels 0 with
  | IndexError => IndexError
  | Item title =>
      match subscript labels 1 with
      | IndexError => IndexError
      | Item xl =>
          match subscript labels 2 with
          | IndexError => IndexError
          | Item yl => Item [SetTitle title; SetXLabel xl; SetYLabel yl]
          end
      end
  end.

(** The calls made on the figure, or [IndexError], and the list [labels]
    after the call. *)
Definition plot1D (z : z_data) (labels : list string) (save : bool)
    (f_name : string) : subscripted (list drawing) * list string :=
  let labels' :=
    match z with
    | ZList zs => extend_labels labels (length zs)
    | ZArray _ => labels
    end in
  (match plot_series labels' z with
   | IndexError => IndexError
   | Item series =>
       match set_axes_labels labels' with
       | IndexError => IndexError
       | Item axes =>
           Item (series ++ axes ++ [Legend; Grid]
                 ++ if save then [SaveFig f_name] else [])
       end
   end,
   labels').

(** The lines drawn for [z_data[1:]] when every subscript is in range. *)
Definition lines_drawn (labels : list string) (zs : list X)
  : list drawing :=
  map (fun p => Line (snd p) (nth (4 + fst p) labels ""%string)
                     (nth (fst p) line_styles None))
      (combine (seq 0 (length zs)) zs).

End Plot1D.

Arguments ZArray {X} z.
Arguments ZList {X} zs.
Arguments Legend {X}.
Arguments Grid {X}.
Arguments SetTitle {X} s.
Arguments SetXLabel {X} s.
Arguments SetYLabel {X} s.
Arguments SaveFig {X} f_name.

(** ** The PDE functions at one point *)

Module At.
Section WithArith.
Context {num : Type} {A : Arith num} {O : Ordered num} {E : Elementary num}.

(** Diffusion1D: [amp * sin(pi*x/L)]. *)
Definition Diffusion1D_init (amp L x : num) : num :=
  fmul amp (fsin (fdiv (fmul lit_pi x) L)).

(** Diffusion1D:
    [amp * exp(-pi**2 * Df * t/(L**2)) * sin(pi*x/L)] with [L = 1.]. *)
Definition Diffusion1D_analytical (amp Df x t : num) : num :=
  fmul (fmul amp
             (fexp (fdiv (fmul (fmul (fneg (fpowz lit_pi 2)) Df) t)
                         (fpowz lit_1 2))))
       (fsin (fdiv (fmul lit_pi x) lit_1)).

(** Diffusion1D: [h1 = (1. - t) * (amp * sin(pi*x/xN))]. *)
Definition Diffusion1D_h1 (amp xN t x : num) : num :=
  fmul (fsub lit_1 t) (fmul amp (fsin (fdiv (fmul lit_pi x) xN))).

(** Diffusion1D: [B = x/xN*(1. - x/xN)*t]. *)
Definition Diffusion1D_B (xN t x : num) : num :=
  fmul (fmul (fdiv x xN) (fsub lit_1 (fdiv x xN))) t.

(** Wave1D: [amp * sin(pi*x/L)*cos(c*pi*t)]. *)
Definition Wave1D_analytical (amp c L x t : num) : num :=
  fmul (fmul amp (fsin (fdiv (fmul lit_pi x) L)))
       (fcos (fmul (fmul c lit_pi) t)).

End WithArith.
End At.

(** ** Binary64 numbers as the kernel specifies them

    The kernel reads a float, through [Prim2SF], as a zero, an infinity, NaN
    or a number [m * 2^e] with a sign.  The classes below are stated on that
    reading. *)

(** The sign of a number, which a NaN lacks. *)
Definition signed (s : bool) (y : spec_float) : Prop :=
  match y with
  | S754_zero s' | S754_infinity s' | S754_finite s' _ _ => s' = s
  | S754_nan => False
  end.

(** Neither an infinity nor NaN. *)
Definition bounded_value (y : spec_float) : Prop :=
  match y with
  | S754_zero _ | S754_finite _ _ _ => True
  | _ => False
  end.

(** A number other than zero, or an infinity, of sign [s]. *)
Definition nonzero_signed (s : bool) (y : spec_float) : Prop :=
  match y with
  | S754_infinity s' | S754_finite s' _ _ => s' = s
  | _ => False
  end.

(** The rational number a finite binary64 number stands for; the infinities
    and NaN stand for none. *)
Definition float_value (x : float) : option Q :=
  match Prim2SF x with
  | S754_zero _ => Some 0%Q
  | S754_finite s m e =>
      let q := (inject_Z (Zpos m) * 2 ^ e)%Q in
      Some (if s then (- q)%Q else q)
  | S754_infinity _ | S754_nan => None
  end.

(** A binary64 operation [op] commits no rounding error at [a] and [b]: the
    operands and the result are finite and the result stands for the
    rational [qop] of what the operands stand for. *)
Definition exact_at (op : float -> float -> float) (qop : Q -> Q -> Q)
    (a b : float) : bool :=
  match float_value a, float_value b, float_value (op a b) with
  | Some x, Some y, Some z => Qeq_bool z (qop x y)
  | _, _, _ => false
  end.

(** ** Statements on binary64 *)

(** At gradient entry [g] and previous update entry [p], the penalty enters
    PlainGD's outputs for [lp = 1] and [lp = 2] without rounding error: the
    products [lmbda * p] and [lmbda * sign(p)] and their sums with
    [eta * g] are exact. *)
Definition PlainGD_penalty_exact (eta lmbda g p : float) : bool :=
  let base := fmul eta g in
  exact_at fmul Qmult lmbda p
  && exact_at fmul Qmult lmbda (fsign p)
  && exact_at fadd Qplus base (fmul lmbda p)
  && exact_at fadd Qplus base (fmul lmbda (fsign p)).

(** The outputs [u1] (for [lp = 1]) and [u2] (for [lp = 2]) are finite and,
    as numbers, [u2 - u1 = lmbda * (p - sign(p))]. *)
Definition differ_by_penalty (lmbda u1 u2 p : float) : Prop :=
  match float_value u1, float_value u2,
        float_value lmbda, float_value p, float_value (fsign p) with
  | Some a1, Some a2, Some l, Some q, Some sg =>
      (a2 - a1 == l * (q - sg))%Q
  | _, _, _, _, _ => False
  end.

(** With the same gradient and previous update [p], PlainGD returns for
    [lp = 1] and for [lp = 2] arrays of the shape of [p] that differ by the
    penalty in every entry. *)
Definition lp_difference_without_rounding (eta lmbda : float)
    (gradient p : tensor float) : Prop :=
  exists u1 u2,
    fst (PlainGD.update_change gradient (Some p) (PlainGD.init eta lmbda 1))
    = Ok u1
    /\ fst (PlainGD.update_change gradient (Some p)
              (PlainGD.init eta lmbda 2))
       = Ok u2
    /\ shape u1 = shape p /\ wf u1
    /\ shape u2 = shape p /\ wf u2
    /\ forall i, i < size (shape p) ->
         differ_by_penalty lmbda (nth i (data u1) lit_0)
           (nth i (data u2) lit_0) (nth i (data p) lit_0).

(** The values an entry of Adagrad's update goes through once the divisor is
    there, in the order the code computes them: the adaptive rate
    [eta / divisor], [gradient * rate], [mom * theta_m1], their sum and, for
    [lp] in [{1,2}], the penalty and the sum with it. *)
Definition Adagrad_entry_values (self : Adagrad.obj float) (g p : float)
  : list float :=
  let rate := fdiv (Adagrad.eta self) (Spec.adagrad_divisor g) in
  let step := fmul g rate in
  let carried := fmul (Adagrad.mom self) p in
  let base := fadd step carried in
  [rate; step; carried; base]
  ++ (if (Adagrad.lp self =? 0)%Z then []
      else if (Adagrad.lp self =? 1)%Z then
        [fmul (Adagrad.lmbda self) (fsign p);
         fadd base (fmul (Adagrad.lmbda self) (fsign p))]
      else
        [fmul (Adagrad.lmbda self) p;
         fadd base (fmul (Adagrad.lmbda self) p)]).

(** None of these values overflows to an infinity, at any entry. *)
Definition Adagrad_no_overflow (self : Adagrad.obj float)
    (gradient theta_m1 : tensor float) : bool :=
  forallb (fun gp =>
             forallb (fun v => negb (PrimFloat.is_infinity v))
                     (Adagrad_entry_values self (fst gp) (snd gp)))
          (combine (data gradient) (data theta_m1)).

(** [eta], [mom] and [lmbda] are finite. *)
Definition Adagrad_finite_hyper (self : Adagrad.obj float) : bool :=
  is_finite (Adagrad.eta self) && is_finite (Adagrad.mom self)
  && is_finite (Adagrad.lmbda self).

(** The array of shape [s] with [f i] at flat position [i]; every
    well-formed array is one of these. *)
Definition tabulate {num : Type} (s : list nat) (f : nat -> num)
  : tensor num :=
  Tensor s (map f (seq 0 (size s))).

(** * Properties *)

(** ** The model on sample inputs (binary64) *)

(** Shapes [(2,1)] and [(3,)] broadcast to [(2,3)]. *)
Example broadcast_column_with_row :
  nd (Tensor [2; 1] [10; 20]%float) +^ nd (Tensor [3] [1; 2; 3]%float)
  = Ok (Tensor [2; 3] [11; 12; 13; 21; 22; 23]%float).
Proof. reflexivity. Qed.

(** Shapes [(2,3)] and [(2,)] do not. *)
Example broadcast_refused :
  nd (Tensor [2; 3] [1; 2; 3; 4; 5; 6]%float) +^ nd (Tensor [2] [1; 2]%float)
  = Raise ValueError.
Proof. reflexivity. Qed.

Example PlainGD_lp1 :
  PlainGD.update_change (Tensor [3] [2; 4; 8]%float)
    (Some (Tensor [3] [-3; 0; 5]%float))
    (PlainGD.init 0.5%float 0.25%float 1)
  = (Ok (Tensor [3] [0.75; 2; 4.25]%float),
     PlainGD.init 0.5%float 0.25%float 1).
Proof. reflexivity. Qed.

(** With [lp = 1] the default [theta_m1 = None] reaches [anp.sign]. *)
Example PlainGD_lp1_without_previous_update :
  fst (PlainGD.update_change (Tensor [1] [2%float]) None
         (PlainGD.init 0.5%float 0.25%float 1))
  = Raise TypeError.
Proof. reflexivity. Qed.

Example MomentumGD_lp2 :
  fst (MomentumGD.update_change (Tensor [2] [2; 4]%float)
         (Tensor [2] [8; -8]%float)
         (MomentumGD.init 0.5%float 0.5%float 0.25%float 2))
  = Ok (Tensor [2] [7; -4]%float).
Proof. reflexivity. Qed.

(** RMSprop has stored the new moving average by the time the previous
    update of shape [(3,)] meets the gradient of shape [(2,)]. *)
Example RMSprop_assigns_before_ValueError :
  let out := RMSprop.update_change (Tensor [2] [2; -4]%float)
               (Tensor [3] [1; 2; 3]%float)
               (RMSprop.init 0.5%float 0.75%float 0.25%float) in
  fst out = Raise ValueError
  /\ RMSprop.rmsProp_update (snd out) = Tensor [2] [1; 4]%float.
Proof. split; reflexivity. Qed.

(** The first step of a fresh ADAM instance, where [decay ** 1 = decay]:
    [s = 0.5 * 4 = 2], [r = 0.25 * 16 = 4], both divided back by the bias
    corrections [0.5] and [0.25]. *)
Example ADAM_first_step :
  let pow := fun (x : float) (n : Z) =>
               if (n =? 1)%Z then Ok x else Raise OverflowError in
  let out := ADAM.update_change pow (Tensor [1] [4%float])
               (Tensor [1] [0%float])
               (ADAM.init 0.5%float 0.5%float 0.75%float 0%float) in
  ADAM.s (snd out) = Tensor [1] [2%float]
  /\ ADAM.r (snd out) = Tensor [1] [4%float]
  /\ ADAM.t (snd out) = 1%Z
  /\ fst out
     = Ok (Tensor [1]
             [(0.5 * (4 / (4 + 0x1.5798ee2308c3ap-27)) + 0 * 0)%float]).
Proof. repeat split; reflexivity. Qed.

(** ** Broadcasting *)

Section TensorFacts.
Context {num : Type} {A : Arith num}.

Lemma size_app (s1 s2 : list nat) : size (s1 ++ s2) = size s1 * size s2.
Proof.
  induction s1 as [|d s1 IH]; simpl.
  - lia.
  - rewrite IH. lia.
Qed.

Lemma size_rev (s : list nat) : size (rev s) = size s.
Proof.
  induction s as [|d s IH]; simpl; [reflexivity|].
  rewrite size_app, IH. simpl. lia.
Qed.

Lemma broadcast_rev_nil_r (r : list nat) : broadcast_rev r [] = Some r.
Proof. destruct r; reflexivity. Qed.

Lemma broadcast_rev_refl (r : list nat) : broadcast_rev r r = Some r.
Proof.
  induction r as [|d r IH]; simpl; [reflexivity|].
  rewrite IH, Nat.eqb_refl. reflexivity.
Qed.

Lemma broadcast_shapes_nil_l (s : list nat) : broadcast_shapes [] s = Some s.
Proof. unfold broadcast_shapes. simpl. now rewrite rev_involutive. Qed.

Lemma broadcast_shapes_nil_r (s : list nat) : broadcast_shapes s [] = Some s.
Proof.
  unfold broadcast_shapes. simpl.
  rewrite broadcast_rev_nil_r. simpl. now rewrite rev_involutive.
Qed.

Lemma broadcast_shapes_refl (s : list nat) : broadcast_shapes s s = Some s.
Proof.
  unfold broadcast_shapes.
  rewrite broadcast_rev_refl. simpl. now rewrite rev_involutive.
Qed.

Lemma bidx_nil (r : list nat) (i : nat) : bidx r [] i = 0.
Proof. destruct r; reflexivity. Qed.

Lemma bidx_refl (r : list nat) : forall i, i < size r -> bidx r r i = i.
Proof.
  induction r as [|d r IH]; simpl; intros i Hi.
  - lia.
  - rewrite Nat.eqb_refl.
    assert (Hd : d <> 0) by (intros ->; simpl in Hi; lia).
    rewrite IH.
    + pose proof (Nat.div_mod_eq i d). lia.
    + apply Nat.Div0.div_lt_upper_bound. lia.
Qed.

Lemma map_seq_const (c : num) (n k : nat) :
  map (fun _ => c) (seq k n) = repeat c n.
Proof.
  revert k. induction n as [|n IH]; intros k; simpl; [reflexivity|].
  now rewrite IH.
Qed.

Lemma map_nth_seq (l : list num) (d : num) :
  map (fun i => nth i l d) (seq 0 (length l)) = l.
Proof.
  induction l as [|x l IH]; simpl; [reflexivity|].
  f_equal. rewrite <- seq_shift, map_map. exact IH.
Qed.

Lemma broadcast_to_scalar (s : list nat) (c : num) :
  broadcast_to s (Tensor [] [c]) = repeat c (size s).
Proof.
  unfold broadcast_to. simpl.
  rewrite <- (map_seq_const c (size s) 0).
  apply map_ext. intros i. now rewrite bidx_nil.
Qed.

Lemma broadcast_to_same (s : list nat) (l : list num) :
  length l = size s -> broadcast_to s (Tensor s l) = l.
Proof.
  intros Hl. unfold broadcast_to. simpl.
  transitivity (map (fun i => nth i l lit_0) (seq 0 (length l)));
    [|apply map_nth_seq].
  rewrite Hl. apply map_ext_in. intros i Hi. apply in_seq in Hi.
  rewrite bidx_refl; [reflexivity|]. rewrite size_rev. lia.
Qed.

Lemma map2_length (f : num -> num -> num) (l1 l2 : list num) :
  length (map2 f l1 l2) = Nat.min (length l1) (length l2).
Proof.
  revert l2. induction l1 as [|x l1 IH]; intros [|y l2]; simpl; auto.
Qed.

Lemma map2_repeat_l (f : num -> num -> num) (c : num) (l : list num) :
  map2 f (repeat c (length l)) l = map (f c) l.
Proof. induction l as [|x l IH]; simpl; [reflexivity|]. now rewrite IH. Qed.

Lemma map2_repeat_r (f : num -> num -> num) (c : num) (l : list num) :
  map2 f l (repeat c (length l)) = map (fun x => f x c) l.
Proof. induction l as [|x l IH]; simpl; [reflexivity|]. now rewrite IH. Qed.

(** A Python float times (plus, over) an array acts on every element. *)
Lemma binop_scalar_l (f : num -> num -> num) (c : num) (s : list nat)
    (l : list num) :
  length l = size s ->
  binop f (Tensor [] [c]) (Tensor s l) = Ok (Tensor s (map (f c) l)).
Proof.
  intros Hl. unfold binop. cbn [shape]. rewrite broadcast_shapes_nil_l.
  rewrite broadcast_to_scalar, broadcast_to_same by exact Hl.
  now rewrite <- Hl, map2_repeat_l.
Qed.

Lemma binop_scalar_r (f : num -> num -> num) (c : num) (s : list nat)
    (l : list num) :
  length l = size s ->
  binop f (Tensor s l) (Tensor [] [c])
  = Ok (Tensor s (map (fun x => f x c) l)).
Proof.
  intros Hl. unfold binop. cbn [shape]. rewrite broadcast_shapes_nil_r.
  rewrite broadcast_to_scalar, broadcast_to_same by exact Hl.
  now rewrite <- Hl, map2_repeat_r.
Qed.

(** Arrays of one shape are combined position by position. *)
Lemma binop_same (f : num -> num -> num) (s : list nat) (l1 l2 : list num) :
  length l1 = size s -> length l2 = size s ->
  binop f (Tensor s l1) (Tensor s l2) = Ok (Tensor s (map2 f l1 l2)).
Proof.
  intros H1 H2. unfold binop. cbn [shape]. rewrite broadcast_shapes_refl.
  now rewrite !broadcast_to_same by assumption.
Qed.

(** The shape of a result, whatever the buffers hold. *)
Lemma binop_shape (f : num -> num -> num) (a b : tensor num) :
  binop f a b
  = match broadcast_shapes (shape a) (shape b) with
    | Some s =>
        Ok (Tensor s (map2 f (broadcast_to s a) (broadcast_to s b)))
    | None => Raise ValueError
    end.
Proof. reflexivity. Qed.

End TensorFacts.

(** ** Evaluating method bodies *)

Ltac len :=
  repeat first [rewrite length_map | rewrite map2_length];
  first [assumption | lia].

Ltac py_unfold :=
  cbv [eval bind assign raise ret py nd arg scalar lift2 lift1 unop np_sqrt
       np_sign fst snd shape data].

Ltac py_binop :=
  repeat first
    [ rewrite binop_scalar_l by len
    | rewrite binop_scalar_r by len
    | rewrite binop_same by len ].

Ltac py_eval := repeat (py_unfold; py_binop).

(** Shapes only: which operands broadcast, whatever the buffers hold. *)
Ltac shapes :=
  repeat (rewrite binop_shape; cbn [shape];
          rewrite ?broadcast_shapes_refl, ?broadcast_shapes_nil_l,
                  ?broadcast_shapes_nil_r;
          try match goal with
              | H : broadcast_shapes _ _ = _ |- _ => rewrite H
              end).

(** ** PlainGD *)

Section PlainGDFacts.
Context {num : Type} {A : Arith num}.

Lemma PlainGD_lp0 (self : PlainGD.obj num) (g : tensor num)
    (th : option (tensor num)) :
  PlainGD.lp self = 0%Z ->
  PlainGD.update_change g th self
  = (py (PlainGD.eta self) *^ nd g, self).
Proof.
  intros Hlp. unfold PlainGD.update_change, eval. now rewrite Hlp.
Qed.

End PlainGDFacts.

(** C3: for every gradient tensor (finite or not), a PlainGD instance with
    [lp = 0] returns from [update_change] the tensor of the gradient's shape
    whose entries are exactly [eta * gradient], and stays as it was. *)
Theorem C3_PlainGD_lp0_is_eta_times_gradient
    {num : Type} {A : Arith num} (self : PlainGD.obj num) (g : tensor num)
    (th : option (tensor num)) :
  PlainGD.lp self = 0%Z ->
  wf g ->
  PlainGD.update_change g th self
  = (Ok (Tensor (shape g) (map (Spec.plain_gd (PlainGD.eta self)) (data g))),
     self).
Proof.
  intros Hlp Hwf. rewrite PlainGD_lp0 by exact Hlp.
  destruct g as [s l]. unfold wf in Hwf. cbn [shape data] in *.
  py_eval. reflexivity.
Qed.

Lemma C3_witness :
  let self := PlainGD.init 0.5%float 0.25%float 0 in
  let g := Tensor [2; 2] [1.5; -2; 0; 1024]%float in
  PlainGD.lp self = 0%Z /\ wf g /\
  PlainGD.update_change g None self
  = (Ok (Tensor [2; 2] [0.75; -1; 0; 512]%float), self).
Proof.
  split; [reflexivity|]. split; [reflexivity|].
  apply (@C3_PlainGD_lp0_is_eta_times_gradient float float64
           (PlainGD.init 0.5%float 0.25%float 0)
           (Tensor [2; 2] [1.5; -2; 0; 1024]%float) None);
    reflexivity.
Defined.

(** C9: with [lp = 0], PlainGD's [update_change] does not read
    [theta_m1]: any two values of it, [None] included, give the same outcome,
    and the call with [None] returns a tensor. *)
Theorem C9_PlainGD_lp0_ignores_previous_update
    {num : Type} {A : Arith num} (self : PlainGD.obj num) (g : tensor num)
    (th1 th2 : option (tensor num)) :
  PlainGD.lp self = 0%Z ->
  PlainGD.update_change g th1 self = PlainGD.update_change g th2 self
  /\ exists u, fst (PlainGD.update_change g None self) = Ok u.
Proof.
  intros Hlp. rewrite !PlainGD_lp0 by exact Hlp. split; [reflexivity|].
  cbn [fst]. py_unfold. rewrite binop_shape. cbn [shape].
  rewrite broadcast_shapes_nil_l. eauto.
Qed.

Lemma C9_witness :
  let self := PlainGD.init 0.5%float 0.25%float 0 in
  let g := Tensor [2] [1.5; -2]%float in
  PlainGD.lp self = 0%Z /\
  (PlainGD.update_change g None self
   = PlainGD.update_change g (Some (Tensor [3] [1; 2; 3]%float)) self
   /\ exists u, fst (PlainGD.update_change g None self) = Ok u).
Proof.
  split; [reflexivity|].
  apply (@C9_PlainGD_lp0_ignores_previous_update float float64
           (PlainGD.init 0.5%float 0.25%float 0)
           (Tensor [2] [1.5; -2]%float) None
           (Some (Tensor [3] [1; 2; 3]%float))).
  reflexivity.
Defined.

(** C8, as stated, on binary64: with [eta = 1], [lambda = 1], gradient
    [2^53] and previous update [2] (nonzero, not [1] or [-1]) the output for
    [lp = 1] is [2^53 + 1] rounded to [2^53], the output for [lp = 2] is
    [2^53 + 2], and their difference [2] is not [1 * (2 - 1)]. *)
Lemma C8_counterexample_binary64_rounding :
  let g := Tensor [1] [9007199254740992%float] in
  let p := Tensor [1] [2%float] in
  wf g /\ wf p /\ shape g = shape p
  /\ forallb (fun x => negb (PrimFloat.eqb x 0%float)
                       && negb (PrimFloat.eqb (PrimFloat.abs x) 1%float))
             (data p) = true
  /\ ~ lp_difference_law (A := float64) 1%float 1%float g p.
Proof.
  cbv zeta. do 4 (split; [reflexivity|]).
  intros (u1 & u2 & H1 & H2 & H3).
  vm_compute in H1. vm_compute in H2.
  injection H1 as <-. injection H2 as <-.
  apply (f_equal (fun e => match e with
                           | Ok (Tensor _ [x]) => PrimFloat.eqb x 1%float
                           | _ => false
                           end)) in H3.
  vm_compute in H3. discriminate H3.
Qed.

(** An operation that is exact at its operands: what the three numbers are. *)
Lemma exact_at_spec (op : float -> float -> float) (qop : Q -> Q -> Q)
    (a b : float) :
  exact_at op qop a b = true ->
  exists x y z,
    float_value a = Some x /\ float_value b = Some y
    /\ float_value (op a b) = Some z /\ (z == qop x y)%Q.
Proof.
  unfold exact_at.
  destruct (float_value a) as [x|]; [|discriminate].
  destruct (float_value b) as [y|]; [|discriminate].
  destruct (float_value (op a b)) as [z|]; [|discriminate].
  intros H. apply Qeq_bool_iff in H. exists x, y, z. auto.
Qed.

Lemma penalty_exact_entry (eta lmbda g p : float) :
  PlainGD_penalty_exact eta lmbda g p = true ->
  differ_by_penalty lmbda
    (fadd (fmul eta g) (fmul lmbda (fsign p)))
    (fadd (fmul eta g) (fmul lmbda p)) p.
Proof.
  unfold PlainGD_penalty_exact. cbv zeta. intros H.
  apply andb_prop in H. destruct H as [H H4].
  apply andb_prop in H. destruct H as [H H3].
  apply andb_prop in H. destruct H as [H1 H2].
  apply exact_at_spec in H1, H2, H3, H4.
  destruct H1 as (l & q & lq & El & Eq & Elq & H1).
  destruct H2 as (l' & sg & lsg & El' & Esg & Elsg & H2).
  destruct H3 as (a & lq' & u2 & Ea & Elq' & Eu2 & H3).
  destruct H4 as (a' & lsg' & u1 & Ea' & Elsg' & Eu1 & H4).
  unfold differ_by_penalty.
  rewrite Eu1, Eu2, El, Eq, Esg.
  assert (l' = l) by congruence. assert (lq' = lq) by congruence.
  assert (a' = a) by congruence. assert (lsg' = lsg) by congruence.
  subst. rewrite H3, H4, H1, H2. ring.
Qed.

Lemma penalty_exact_lists (eta lmbda : float) (lg lp : list float) :
  length lg = length lp ->
  forallb (fun gp => PlainGD_penalty_exact eta lmbda (fst gp) (snd gp))
          (combine lg lp) = true ->
  forall i, i < length lp ->
    differ_by_penalty lmbda
      (nth i (map2 fadd (map (fmul eta) lg)
                   (map (fmul lmbda) (map fsign lp))) lit_0)
      (nth i (map2 fadd (map (fmul eta) lg) (map (fmul lmbda) lp)) lit_0)
      (nth i lp lit_0).
Proof.
  revert lp. induction lg as [|g lg IH]; intros [|p lp] Hlen Hex i Hi;
    cbn [length] in *; try discriminate; try lia.
  cbn [combine forallb fst snd] in Hex.
  apply andb_prop in Hex. destruct Hex as [Hgp Hrest].
  destruct i as [|i]; cbn [map map2 nth].
  - apply penalty_exact_entry. exact Hgp.
  - apply IH; [lia | exact Hrest | lia].
Qed.

(** With [eta = 1], [lambda = 1], gradient [2^53] and previous update [2]
    the sum [2^53 + 1] is rounded: that input is outside the theorem
    below. *)
Example PlainGD_rounding_input_excluded :
  PlainGD_penalty_exact 1%float 1%float 9007199254740992%float 2%float
  = false.
Proof. vm_compute. reflexivity. Qed.

(** C8, amended, on binary64: for a gradient and a previous update [p] of one
    shape, at whose entries the penalty enters without rounding error (the
    products [lambda * p] and [lambda * sign(p)] and their sums with
    [eta * gradient] are exact), PlainGD's outputs for [lp = 1] and
    [lp = 2] are finite arrays of that shape and the second minus the first
    is, as a number, exactly [lambda * (p - sign(p))] in every entry. *)
Theorem C8_lp_difference_without_rounding
    (eta lmbda : float) (g p : tensor float) :
  wf g -> wf p -> shape g = shape p ->
  forallb (fun gp => PlainGD_penalty_exact eta lmbda (fst gp) (snd gp))
          (combine (data g) (data p)) = true ->
  lp_difference_without_rounding eta lmbda g p.
Proof.
  destruct g as [s lg], p as [s' lp]. unfold wf. cbn [shape data].
  intros Hg Hp <- Hex.
  unfold lp_difference_without_rounding, PlainGD.update_change, PlainGD.init.
  cbn [PlainGD.lp PlainGD.eta PlainGD.lmbda Z.eqb Pos.eqb eval fst].
  py_eval. do 2 eexists. split; [reflexivity|]. split; [reflexivity|].
  cbn [shape data]. unfold wf. cbn [shape data].
  split; [reflexivity|]. split; [len|].
  split; [reflexivity|]. split; [len|].
  intros i Hi. apply penalty_exact_lists; [congruence | exact Hex | lia].
Qed.

Lemma C8_witness :
  let g := Tensor [2] [2; -4]%float in
  let p := Tensor [2] [3; -0.5]%float in
  wf g /\ wf p /\ shape g = shape p
  /\ forallb (fun gp => PlainGD_penalty_exact 0.5%float 0.25%float
                          (fst gp) (snd gp))
             (combine (data g) (data p)) = true
  /\ lp_difference_without_rounding 0.5%float 0.25%float g p.
Proof.
  split; [reflexivity|]. split; [reflexivity|]. split; [reflexivity|].
  split; [vm_compute; reflexivity|].
  apply (@C8_lp_difference_without_rounding 0.5%float 0.25%float
           (Tensor [2] [2; -4]%float) (Tensor [2] [3; -0.5]%float));
    first [reflexivity | vm_compute; reflexivity].
Defined.

(** ** Adagrad *)

Section AdagradFacts.
Context {num : Type} {A : Arith num}.

(** The outcome of a call is a function of the arguments and of the
    attributes set at construction: [adagrad_learn_rate] is overwritten
    before it is read. *)
Lemma Adagrad_update_change_hyper (self1 self2 : Adagrad.obj num)
    (g th : tensor num) :
  Adagrad_hyper self1 = Adagrad_hyper self2 ->
  Adagrad.update_change g th self1 = Adagrad.update_change g th self2.
Proof.
  destruct self1 as [e1 m1 a1 l1 k1], self2 as [e2 m2 a2 l2 k2].
  unfold Adagrad_hyper. cbn [Adagrad.eta Adagrad.mom Adagrad.lmbda Adagrad.lp].
  intros [= -> -> -> ->].
  unfold Adagrad.update_change. py_unfold. shapes.
  cbn [Adagrad.eta]. py_unfold. shapes.
  reflexivity.
Qed.

Lemma Adagrad_update_change_keeps_hyper (self : Adagrad.obj num)
    (g th : tensor num) :
  Adagrad_hyper (snd (Adagrad.update_change g th self)) = Adagrad_hyper self.
Proof.
  destruct self as [e m a l k].
  unfold Adagrad.update_change. py_unfold. shapes.
  cbn [Adagrad.eta]. py_unfold. shapes.
  reflexivity.
Qed.

Lemma Adagrad_history_keeps_hyper (cs : list (call num))
    (self : Adagrad.obj num) :
  Adagrad_hyper (Adagrad_history cs self) = Adagrad_hyper self.
Proof.
  unfold Adagrad_history. revert self.
  induction cs as [|c cs IH]; intros self; cbn [fold_left]; [reflexivity|].
  rewrite IH. destruct c as [g th|]; cbn [Adagrad_call].
  - apply Adagrad_update_change_keeps_hyper.
  - reflexivity.
Qed.

Lemma adagrad_lists (eta mom lmbda : num) (k : Z) (lg lth : list num) :
  length lg = length lth ->
  (0 <= k <= 2)%Z ->
  (if (k =? 0)%Z then
     map2 fadd
       (map2 fmul lg
          (map (fdiv eta) (map (fadd lit_1e_7) (map fsqrt (map2 fmul lg lg)))))
       (map (fmul mom) lth)
   else if (k =? 1)%Z then
     map2 fadd
       (map2 fadd
          (map2 fmul lg
             (map (fdiv eta)
                (map (fadd lit_1e_7) (map fsqrt (map2 fmul lg lg)))))
          (map (fmul mom) lth))
       (map (fmul lmbda) (map fsign lth))
   else
     map2 fadd
       (map2 fadd
          (map2 fmul lg
             (map (fdiv eta)
                (map (fadd lit_1e_7) (map fsqrt (map2 fmul lg lg)))))
          (map (fmul mom) lth))
       (map (fmul lmbda) lth))
  = map2 (Spec.adagrad eta mom lmbda k) lg lth.
Proof.
  intros Hlen Hk. unfold Spec.adagrad, Spec.regularized, Spec.adagrad_divisor.
  assert (Hcases : k = 0%Z \/ k = 1%Z \/ k = 2%Z) by lia.
  clear Hk. revert lth Hlen.
  induction lg as [|g lg IH]; intros [|p lth] Hlen;
    cbn [length] in Hlen; try discriminate.
  - destruct Hcases as [-> | [-> | ->]]; reflexivity.
  - specialize (IH lth ltac:(lia)).
    destruct Hcases as [-> | [-> | ->]];
      cbn [Z.eqb Pos.eqb map map2] in *; now rewrite IH.
Qed.

Lemma map2_diag (f : num -> num -> num) (l : list num) :
  map2 f l l = map (fun x => f x x) l.
Proof. induction l as [|x l IH]; simpl; [reflexivity|]. now rewrite IH. Qed.

(** A call on a gradient and a previous update of one shape, with a valid
    [lp]: the result and the rate it stores, element by element. *)
Lemma Adagrad_update_change_same_shape (self : Adagrad.obj num)
    (g th : tensor num) :
  (0 <= Adagrad.lp self <= 2)%Z ->
  wf g -> wf th -> shape th = shape g ->
  Adagrad.update_change g th self
  = (Ok (Tensor (shape g)
           (map2 (Spec.adagrad (Adagrad.eta self) (Adagrad.mom self)
                    (Adagrad.lmbda self) (Adagrad.lp self))
                 (data g) (data th))),
     Adagrad.set_adagrad_learn_rate
       (Some (Tensor (shape g)
                (map (fun x => fdiv (Adagrad.eta self)
                                 (Spec.adagrad_divisor x))
                     (data g))))
       self).
Proof.
  intros Hlp Hg Hth Hshape.
  destruct self as [e m a l k], g as [s lg], th as [s' lth].
  unfold wf in *. cbn [shape data Adagrad.lp Adagrad.eta Adagrad.mom
                       Adagrad.lmbda] in *.
  subst s'.
  rewrite <- (adagrad_lists e m l lg lth) by (lia || congruence).
  unfold Spec.adagrad_divisor.
  rewrite <- (map_map (fun x => fadd lit_1e_7 (fsqrt (fmul x x))) (fdiv e)).
  rewrite <- (map_map (fun x => fsqrt (fmul x x)) (fadd lit_1e_7)).
  rewrite <- (map_map (fun x => fmul x x) fsqrt).
  rewrite <- map2_diag.
  unfold Adagrad.update_change. py_eval.
  cbn [Adagrad.eta Adagrad.lp Adagrad.mom Adagrad.lmbda
       Adagrad.adagrad_learn_rate Adagrad.set_adagrad_learn_rate].
  destruct (k =? 0)%Z eqn:E0;
    [|destruct (k =? 1)%Z eqn:E1; [|destruct (k =? 2)%Z eqn:E2]].
  - py_eval. reflexivity.
  - py_eval. reflexivity.
  - py_eval. reflexivity.
  - lia.
Qed.

End AdagradFacts.

(** C4: Adagrad carries no functional state across calls.  After any history
    of earlier [update_change] and [reset] calls, a call with a gradient and a
    previous update of one shape returns, element by element,
    [gradient * (eta / (1e-7 + sqrt(gradient * gradient)))
     + momentum * previous_update] plus the penalty selected by [lp]; and
    for all arguments the outcome is the one a call without that history
    has. *)
Theorem C4_Adagrad_result_ignores_history
    {num : Type} {A : Arith num} (self : Adagrad.obj num)
    (cs : list (call num)) (g th : tensor num) :
  (0 <= Adagrad.lp self <= 2)%Z ->
  wf g -> wf th -> shape th = shape g ->
  fst (Adagrad.update_change g th (Adagrad_history cs self))
  = Ok (Tensor (shape g)
          (map2 (Spec.adagrad (Adagrad.eta self) (Adagrad.mom self)
                   (Adagrad.lmbda self) (Adagrad.lp self))
                (data g) (data th)))
  /\ forall g' th' : tensor num,
       Adagrad.update_change g' th' (Adagrad_history cs self)
       = Adagrad.update_change g' th' self.
Proof.
  intros Hlp Hg Hth Hshape.
  assert (Hhist : forall g' th' : tensor num,
             Adagrad.update_change g' th' (Adagrad_history cs self)
             = Adagrad.update_change g' th' self).
  { intros g' th'. apply Adagrad_update_change_hyper,
      Adagrad_history_keeps_hyper. }
  split; [|exact Hhist].
  rewrite Hhist, Adagrad_update_change_same_shape by assumption.
  reflexivity.
Qed.

Lemma C4_witness :
  let self := Adagrad.init 0.5%float 0.25%float 0.125%float 1 in
  let cs := [Update (Tensor [3] [1; 2; 3]%float) (Tensor [3] [0; 0; 0]%float);
             Reset;
             Update (Tensor [1] [-8]%float) (Tensor [2] [4; 4]%float)] in
  let g := Tensor [2] [3; -4]%float in
  let th := Tensor [2] [0; -2]%float in
  (0 <= Adagrad.lp self <= 2)%Z /\ wf g /\ wf th /\ shape th = shape g /\
  (fst (Adagrad.update_change g th (Adagrad_history cs self))
   = Ok (Tensor (shape g)
           (map2 (Spec.adagrad (Adagrad.eta self) (Adagrad.mom self)
                    (Adagrad.lmbda self) (Adagrad.lp self))
                 (data g) (data th)))
   /\ forall g' th' : tensor float,
        Adagrad.update_change g' th' (Adagrad_history cs self)
        = Adagrad.update_change g' th' self).
Proof.
  split; [cbn; lia|]. split; [reflexivity|]. split; [reflexivity|].
  split; [reflexivity|].
  apply (@C4_Adagrad_result_ignores_history float float64
           (Adagrad.init 0.5%float 0.25%float 0.125%float 1)
           [Update (Tensor [3] [1; 2; 3]%float) (Tensor [3] [0; 0; 0]%float);
            Reset;
            Update (Tensor [1] [-8]%float) (Tensor [2] [4; 4]%float)]
           (Tensor [2] [3; -4]%float) (Tensor [2] [0; -2]%float));
    [cbn; lia | reflexivity | reflexivity | reflexivity].
Defined.

(** *** The divisor of the adaptive rate *)

Lemma float_zero_cases (x : float) :
  PrimFloat.eqb x 0%float = true -> x = 0%float \/ x = (-0)%float.
Proof.
  intros H. rewrite eqb_spec in H.
  rewrite <- (SF2Prim_Prim2SF x).
  destruct (Prim2SF x) as [[|]| [|] | | sg m e]; simpl in H;
    try discriminate.
  - right. reflexivity.
  - left. reflexivity.
  - vm_compute in H. destruct sg; simpl in H; discriminate.
Qed.

Lemma float_divisor_at_zero (x : float) :
  PrimFloat.eqb x 0%float = true ->
  fadd lit_1e_7 (fsqrt (fmul x x)) = lit_1e_7.
Proof. intros H. destruct (float_zero_cases H) as [-> | ->]; reflexivity. Qed.

(** *** Binary64 operations on numbers never invent a NaN *)

Section SpecFloatFacts.
Variables prec emax : Z.

Lemma iter_pos_invariant (X : Type) (P : X -> Prop) (f : X -> X) :
  (forall x, P x -> P (f x)) ->
  forall p x, P x -> P (SpecFloat.iter_pos f p x).
Proof.
  intros Hf. induction p as [p IH | p IH |]; intros x Hx;
    cbn [SpecFloat.iter_pos].
  - apply IH, IH, Hf, Hx.
  - apply IH, IH, Hx.
  - apply Hf, Hx.
Qed.

Lemma shr_1_nonneg (mrs : shr_record) :
  (0 <= shr_m mrs)%Z -> (0 <= shr_m (shr_1 mrs))%Z.
Proof.
  destruct mrs as [m r s]. cbn [shr_m]. intros H.
  destruct m as [|[p|p|]|p]; cbn; lia.
Qed.

Lemma shr_nonneg (mrs : shr_record) (e n : Z) :
  (0 <= shr_m mrs)%Z -> (0 <= shr_m (fst (shr mrs e n)))%Z.
Proof.
  intros H. destruct n as [|p|p]; cbn [shr fst]; try exact H.
  apply iter_pos_invariant; [apply shr_1_nonneg | exact H].
Qed.

Lemma shr_m_of_loc (m : Z) (l : location) :
  shr_m (shr_record_of_loc m l) = m.
Proof. destruct l as [|[| |]]; reflexivity. Qed.

Lemma shr_fexp_nonneg (m e : Z) (l : location) :
  (0 <= m)%Z -> (0 <= shr_m (fst (shr_fexp prec emax m e l)))%Z.
Proof.
  intros H. unfold shr_fexp. apply shr_nonneg. now rewrite shr_m_of_loc.
Qed.

Lemma round_nearest_even_nonneg (m : Z) (l : location) :
  (0 <= m)%Z -> (0 <= round_nearest_even m l)%Z.
Proof.
  intros H. destruct l as [|[| |]]; cbn [round_nearest_even];
    try destruct (Z.even m); lia.
Qed.

(** Rounding a non-negative magnitude gives a number of the sign asked for. *)
Lemma binary_round_aux_signed (sx : bool) (m e : Z) (l : location) :
  (0 <= m)%Z -> signed sx (binary_round_aux prec emax sx m e l).
Proof.
  intros H. unfold binary_round_aux.
  pose proof (shr_fexp_nonneg e l H) as H1.
  destruct (shr_fexp prec emax m e l) as [mrs' e'] eqn:E1. cbn [fst] in H1.
  pose proof (@shr_fexp_nonneg
                (round_nearest_even (shr_m mrs') (loc_of_shr_record mrs'))
                e' loc_Exact
                (round_nearest_even_nonneg _ H1)) as H2.
  destruct (shr_fexp prec emax _ e' loc_Exact) as [mrs'' e''] eqn:E2.
  cbn [fst] in H2.
  destruct (shr_m mrs'') as [|p|p]; [reflexivity | | lia].
  destruct (Z.leb e'' (emax - prec)); reflexivity.
Qed.

Lemma binary_round_signed (sx : bool) (m : positive) (e : Z) :
  signed sx (binary_round prec emax sx m e).
Proof.
  unfold binary_round.
  destruct (shl_align m e _) as [mz ez].
  apply binary_round_aux_signed. lia.
Qed.

Lemma binary_normalize_not_nan (m e : Z) (sz : bool) :
  binary_normalize prec emax m e sz <> S754_nan.
Proof.
  destruct m as [|p|p]; cbn [binary_normalize]; [discriminate| |].
  - pose proof (binary_round_signed false p e) as H.
    intros E. rewrite E in H. exact H.
  - pose proof (binary_round_signed true p e) as H.
    intros E. rewrite E in H. exact H.
Qed.

Lemma signed_not_nan (s : bool) (y : spec_float) :
  signed s y -> y <> S754_nan.
Proof. intros H E. rewrite E in H. exact H. Qed.

(** Products, sums and quotients of numbers that are neither infinite nor
    NaN. *)
Lemma SFmul_bounded (x y : spec_float) :
  bounded_value x -> bounded_value y -> SFmul prec emax x y <> S754_nan.
Proof.
  destruct x as [sx|sx| |sx mx ex], y as [sy|sy| |sy my ey];
    cbn [bounded_value SFmul]; try tauto; intros _ _; try discriminate.
  eapply signed_not_nan, binary_round_aux_signed. lia.
Qed.

Lemma SFadd_bounded (x y : spec_float) :
  bounded_value x -> bounded_value y -> SFadd prec emax x y <> S754_nan.
Proof.
  destruct x as [sx|sx| |sx mx ex], y as [sy|sy| |sy my ey];
    cbn [bounded_value SFadd]; try tauto; intros _ _; try discriminate.
  - destruct sx, sy; discriminate.
  - apply binary_normalize_not_nan.
Qed.

Lemma SFdiv_core_nonneg (m1 m2 : positive) (e1 e2 : Z) :
  (0 <= fst (fst (SFdiv_core_binary prec emax (Zpos m1) e1 (Zpos m2) e2)))%Z.
Proof.
  unfold SFdiv_core_binary.
  set (s := (e1 - e2 - _)%Z).
  set (m' := match s with Zpos _ => Z.shiftl (Zpos m1) s | Z0 => Zpos m1
                     | Zneg _ => 0%Z end).
  assert (Hm : (0 <= m')%Z).
  { subst m'. destruct s; try lia. apply Z.shiftl_nonneg. lia. }
  pose proof (Z.div_pos m' (Zpos m2) Hm ltac:(lia)) as Hq.
  unfold Z.div in Hq.
  destruct (Z.div_eucl m' (Zpos m2)) as [q r]. exact Hq.
Qed.

Lemma SFdiv_bounded (x y : spec_float) :
  x <> S754_nan -> (forall s, x <> S754_infinity s) ->
  y <> S754_nan -> (forall s, y <> S754_zero s) ->
  SFdiv prec emax x y <> S754_nan.
Proof.
  destruct x as [sx|sx| |sx mx ex], y as [sy|sy| |sy my ey];
    cbn [SFdiv]; intros Hx Hxi Hy Hyz; try discriminate;
    try (exfalso; apply Hx; reflexivity);
    try (exfalso; apply Hy; reflexivity);
    try (exfalso; apply (Hxi sx); reflexivity);
    try (exfalso; apply (Hyz sy); reflexivity).
  pose proof (SFdiv_core_nonneg mx my ex ey) as Hq.
  destruct (SFdiv_core_binary prec emax (Zpos mx) ex (Zpos my) ey)
    as [[mz ez] lz].
  cbn [fst] in Hq.
  eapply signed_not_nan, binary_round_aux_signed, Hq.
Qed.

Lemma SFmul_square_signed (x : spec_float) :
  x <> S754_nan -> signed false (SFmul prec emax x x).
Proof.
  destruct x as [sx|sx| |sx mx ex]; cbn [SFmul signed]; intros Hx.
  - apply xorb_nilpotent.
  - apply xorb_nilpotent.
  - now apply Hx.
  - rewrite xorb_nilpotent. apply binary_round_aux_signed. lia.
Qed.

Lemma SFsqrt_signed (x : spec_float) :
  signed false x -> signed false (SFsqrt prec emax x).
Proof.
  destruct x as [sx|sx| |sx mx ex]; cbn [signed SFsqrt]; intros Hx;
    subst; try reflexivity; try contradiction.
  unfold SFsqrt_core_binary.
  set (s := (ex - _)%Z).
  set (m' := match s with Zpos _ => Z.shiftl (Zpos mx) s | Z0 => Zpos mx
                     | Zneg _ => 0%Z end).
  assert (Hm : (0 <= m')%Z).
  { subst m'. destruct s; try lia. apply Z.shiftl_nonneg. lia. }
  pose proof (Z.sqrtrem_spec m' Hm) as Hq.
  destruct (Z.sqrtrem m') as [q r].
  apply binary_round_aux_signed. lia.
Qed.

(** *** Rounding a positive magnitude in the normal range *)

Abbreviation bits m := (Zpos (digits2_pos m)).

Lemma digits_xO (m : positive) : bits m~0 = (bits m + 1)%Z.
Proof. cbn [digits2_pos]. lia. Qed.

Lemma digits_iter_xO (m k : positive) :
  bits (Pos.iter xO m k) = (bits m + Zpos k)%Z.
Proof.
  induction k as [|k IH] using Pos.peano_ind.
  - cbn [Pos.iter]. apply digits_xO.
  - rewrite Pos.iter_succ, digits_xO, IH. lia.
Qed.

Lemma digits_le (a b : positive) :
  (a <= b)%positive -> (bits a <= bits b)%Z.
Proof.
  revert b. induction a as [a IH | a IH |]; intros [b|b|] H;
    cbn [digits2_pos]; try lia.
  - specialize (IH b). lia.
  - specialize (IH b). lia.
  - specialize (IH b). lia.
  - specialize (IH b). lia.
Qed.

Lemma iter_pos_nat (X : Type) (f : X -> X) (p : positive) (x : X) :
  SpecFloat.iter_pos f p x = Nat.iter (Pos.to_nat p) f x.
Proof.
  revert x. induction p as [p IH | p IH |]; intros x; cbn [SpecFloat.iter_pos].
  - rewrite !IH, Pos2Nat.inj_xI.
    replace (S (2 * Pos.to_nat p)) with (Pos.to_nat p + (Pos.to_nat p + 1))
      by lia.
    rewrite !Nat.iter_add. reflexivity.
  - rewrite !IH, Pos2Nat.inj_xO.
    replace (2 * Pos.to_nat p) with (Pos.to_nat p + Pos.to_nat p) by lia.
    rewrite Nat.iter_add. reflexivity.
  - reflexivity.
Qed.

(** Shifting out fewer bits than the magnitude has leaves a positive
    magnitude, with as many bits fewer. *)
Lemma shr_1_iter_positive (n : nat) (m : positive) (r s : bool) :
  (Z.of_nat n < bits m)%Z ->
  exists m', shr_m (Nat.iter n shr_1 (Build_shr_record (Zpos m) r s))
             = Zpos m'
             /\ bits m' = (bits m - Z.of_nat n)%Z.
Proof.
  induction n as [|n IH]; intros H.
  - exists m. split; [reflexivity | cbn; lia].
  - destruct IH as (m1 & E1 & D1); [lia|].
    rewrite Nat.iter_succ.
    destruct (Nat.iter n shr_1 _) as [m0 r0 s0]. cbn [shr_m] in E1.
    subst m0.
    destruct m1 as [p|p|]; cbn [digits2_pos] in D1.
    + exists p. split; [reflexivity | lia].
    + exists p. split; [reflexivity | lia].
    + lia.
Qed.

Lemma shr_positive (m : positive) (r s : bool) (e n : Z) :
  (n < bits m)%Z ->
  exists m',
    shr_m (fst (shr (Build_shr_record (Zpos m) r s) e n)) = Zpos m'
    /\ (bits m' + snd (shr (Build_shr_record (Zpos m) r s) e n)
        = bits m + e)%Z.
Proof.
  intros H. destruct n as [|p|p]; cbn [shr fst snd].
  - exists m. split; [reflexivity | lia].
  - rewrite iter_pos_nat.
    destruct (@shr_1_iter_positive (Pos.to_nat p) m r s) as (m' & E & D).
    { rewrite positive_nat_Z. exact H. }
    exists m'. split; [exact E|]. rewrite D, positive_nat_Z. lia.
  - exists m. split; [reflexivity | lia].
Qed.

Hypothesis prec_gt_0 : (0 < prec)%Z.

Lemma shr_fexp_positive (m : positive) (e : Z) (l : location) :
  (SpecFloat.emin prec emax <= bits m + e - prec)%Z ->
  exists m',
    shr_m (fst (shr_fexp prec emax (Zpos m) e l)) = Zpos m'
    /\ (bits m' + snd (shr_fexp prec emax (Zpos m) e l)
        = bits m + e)%Z.
Proof.
  intros H. unfold shr_fexp. cbn [Zdigits2].
  assert (Hn : (SpecFloat.fexp prec emax (bits m + e) - e < bits m)%Z)
    by (unfold SpecFloat.fexp; lia).
  destruct l as [|[| |]]; cbn [shr_record_of_loc];
    apply shr_positive; exact Hn.
Qed.

Lemma round_nearest_even_positive (m : positive) (l : location) :
  exists m', round_nearest_even (Zpos m) l = Zpos m'
             /\ (bits m <= bits m')%Z.
Proof.
  assert (Hs : exists m', (Zpos m + 1)%Z = Zpos m'
                          /\ (bits m <= bits m')%Z).
  { exists (m + 1)%positive. split; [reflexivity|]. apply digits_le. lia. }
  assert (Hi : exists m', Zpos m = Zpos m' /\ (bits m <= bits m')%Z).
  { exists m. split; [reflexivity | lia]. }
  destruct l as [|[| |]]; cbn [round_nearest_even]; try assumption.
  destruct (Z.even (Zpos m)); assumption.
Qed.

Lemma binary_round_aux_positive (sx : bool) (m : positive) (e : Z)
    (l : location) :
  (SpecFloat.emin prec emax <= bits m + e - prec)%Z ->
  nonzero_signed sx (binary_round_aux prec emax sx (Zpos m) e l).
Proof.
  intros H. unfold binary_round_aux.
  destruct (@shr_fexp_positive m e l H) as (m1 & E1 & D1).
  destruct (shr_fexp prec emax (Zpos m) e l) as [mrs' e'].
  cbn [fst snd] in E1, D1. rewrite E1.
  destruct (round_nearest_even_positive m1 (loc_of_shr_record mrs'))
    as (m2 & E2 & D2).
  rewrite E2.
  destruct (@shr_fexp_positive m2 e' loc_Exact ltac:(lia)) as (m3 & E3 & D3).
  destruct (shr_fexp prec emax (Zpos m2) e' loc_Exact) as [mrs'' e''].
  cbn [fst snd] in E3, D3. rewrite E3.
  destruct (Z.leb e'' (emax - prec)); reflexivity.
Qed.

Lemma shl_align_digits (m : positive) (e e' : Z) :
  (bits (fst (shl_align m e e')) + snd (shl_align m e e')
   = bits m + e)%Z.
Proof.
  unfold shl_align. destruct (e' - e)%Z as [|d|d] eqn:E; cbn [fst snd];
    try reflexivity.
  rewrite digits_iter_xO. lia.
Qed.

Lemma shl_align_snd (m : positive) (e e' : Z) :
  (e' <= e)%Z -> snd (shl_align m e e') = e'.
Proof.
  intros H. unfold shl_align.
  destruct (e' - e)%Z as [|d|d] eqn:E; cbn [snd]; lia.
Qed.

Lemma binary_round_positive (sx : bool) (m : positive) (e : Z) :
  (SpecFloat.emin prec emax <= bits m + e - prec)%Z ->
  nonzero_signed sx (binary_round prec emax sx m e).
Proof.
  intros H. unfold binary_round.
  pose proof (shl_align_digits m e (SpecFloat.fexp prec emax (bits m + e)))
    as D.
  destruct (shl_align m e _) as [mz ez]. cbn [fst snd] in D.
  apply binary_round_aux_positive. lia.
Qed.

(** A positive number of the normal range plus a number that is not below
    zero is above zero. *)
Lemma SFadd_above_zero (mx : positive) (ex : Z) (y : spec_float) :
  (SpecFloat.emin prec emax <= bits mx + ex - prec)%Z ->
  signed false y ->
  nonzero_signed false (SFadd prec emax (S754_finite false mx ex) y).
Proof.
  intros H Hy.
  destruct y as [sy|sy| |sy my ey]; cbn [signed] in Hy; subst;
    cbn [SFadd nonzero_signed]; try reflexivity; try contradiction.
  cbn [cond_Zopp].
  set (ez := Z.min ex ey).
  pose proof (shl_align_digits mx ex ez) as D.
  rewrite (shl_align_snd mx (e := ex) (e' := ez)) in D by (subst ez; lia).
  set (a := fst (shl_align mx ex ez)) in *.
  set (b := fst (shl_align my ey ez)).
  change (Zpos a + Zpos b)%Z with (Zpos (a + b)).
  cbn [binary_normalize].
  apply binary_round_positive.
  pose proof (@digits_le a (a + b)%positive ltac:(lia)). lia.
Qed.

End SpecFloatFacts.

(** *** On the kernel's floats *)

Lemma is_nan_spec (x : float) :
  PrimFloat.is_nan x = true <-> Prim2SF x = S754_nan.
Proof.
  unfold PrimFloat.is_nan. rewrite eqb_spec.
  destruct (Prim2SF x) as [s|s| |s m e]; unfold SFeqb; cbn [SFcompare].
  - split; discriminate.
  - destruct s; split; discriminate.
  - split; reflexivity.
  - destruct s; rewrite Z.compare_refl, Pos.compare_cont_refl;
      split; discriminate.
Qed.

Lemma is_infinity_spec (x : float) :
  PrimFloat.is_infinity x = true <-> exists s, Prim2SF x = S754_infinity s.
Proof.
  unfold PrimFloat.is_infinity. rewrite eqb_spec, abs_spec.
  change (Prim2SF infinity) with (S754_infinity false).
  destruct (Prim2SF x) as [s|s| |s m e]; unfold SFeqb;
    cbn [SFabs SFcompare]; split; intros H; try discriminate;
    try (destruct H; discriminate); eauto.
Qed.

Lemma is_finite_spec (x : float) :
  is_finite x = true <-> bounded_value (Prim2SF x).
Proof.
  unfold is_finite.
  pose proof (is_nan_spec x) as Hn. pose proof (is_infinity_spec x) as Hi.
  destruct (PrimFloat.is_nan x), (PrimFloat.is_infinity x);
    cbn [negb andb]; destruct (Prim2SF x) as [s|s| |s m e];
    cbn [bounded_value]; split; intros H; try discriminate;
    try reflexivity; try exact I; try contradiction.
  all: try (destruct Hn as [Hn _]; specialize (Hn eq_refl); discriminate).
  all: try (destruct Hi as [Hi _]; destruct (Hi eq_refl); discriminate).
  all: try (destruct Hn as [_ Hn]; specialize (Hn eq_refl); discriminate).
  all: try (destruct Hi as [_ Hi];
            specialize (Hi (ex_intro _ s eq_refl)); discriminate).
Qed.

Lemma not_nan_spec (x : float) :
  PrimFloat.is_nan x = false <-> Prim2SF x <> S754_nan.
Proof.
  pose proof (is_nan_spec x) as H.
  destruct (PrimFloat.is_nan x); split; intros H1; try reflexivity.
  - discriminate.
  - exfalso. apply H1, H. reflexivity.
  - intros E. apply H in E. discriminate.
Qed.

Lemma finite_of_not_nan_not_infinity (x : float) :
  PrimFloat.is_nan x = false -> PrimFloat.is_infinity x = false ->
  is_finite x = true.
Proof. unfold is_finite. now intros -> ->. Qed.

Lemma mul_not_nan (a b : float) :
  is_finite a = true -> is_finite b = true ->
  PrimFloat.is_nan (a * b) = false.
Proof.
  rewrite !is_finite_spec, not_nan_spec, mul_spec. apply SFmul_bounded.
Qed.

Lemma add_not_nan (a b : float) :
  is_finite a = true -> is_finite b = true ->
  PrimFloat.is_nan (a + b) = false.
Proof.
  rewrite !is_finite_spec, not_nan_spec, add_spec. apply SFadd_bounded.
Qed.

Lemma nonzero_signed_facts (s : bool) (y : spec_float) :
  nonzero_signed s y ->
  y <> S754_nan /\ forall s', y <> S754_zero s'.
Proof.
  destruct y; cbn [nonzero_signed]; intros H; try contradiction;
    split; try discriminate; intros; discriminate.
Qed.

Lemma div_not_nan (a b : float) :
  is_finite a = true -> nonzero_signed false (Prim2SF b) ->
  PrimFloat.is_nan (a / b) = false.
Proof.
  rewrite is_finite_spec, not_nan_spec, div_spec. intros Ha Hb.
  destruct (nonzero_signed_facts _ _ Hb) as [Hn Hz].
  apply SFdiv_bounded; try assumption.
  - intros E. rewrite E in Ha. exact Ha.
  - intros s E. rewrite E in Ha. exact Ha.
Qed.

Lemma float_sign_finite (p : float) :
  is_finite p = true -> is_finite (float_sign p) = true.
Proof.
  intros H. unfold float_sign.
  destruct (PrimFloat.ltb 0 p); [reflexivity|].
  destruct (PrimFloat.ltb p 0); [reflexivity|].
  destruct (PrimFloat.eqb p 0); [reflexivity | exact H].
Qed.

(** The divisor [1e-7 + sqrt(g * g)]. *)
Lemma adagrad_divisor_spec (g : float) :
  PrimFloat.is_nan g = false ->
  nonzero_signed false (Prim2SF (Spec.adagrad_divisor g)).
Proof.
  rewrite not_nan_spec. intros Hg. unfold Spec.adagrad_divisor.
  cbn [fadd fsqrt fmul float64].
  rewrite add_spec, sqrt_spec, mul_spec.
  change (Prim2SF lit_1e_7)
    with (S754_finite false 7555786372591432 (-76)).
  apply SFadd_above_zero; [reflexivity | discriminate |].
  apply SFsqrt_signed, SFmul_square_signed, Hg.
Qed.

Lemma adagrad_divisor_above_zero (g : float) :
  PrimFloat.is_nan g = false -> PrimFloat.ltb 0 (Spec.adagrad_divisor g) = true.
Proof.
  intros Hg. pose proof (adagrad_divisor_spec g Hg) as H.
  rewrite ltb_spec. change (Prim2SF 0) with (S754_zero false).
  destruct (Prim2SF (Spec.adagrad_divisor g)) as [s|s| |s m e];
    cbn [nonzero_signed] in H; try contradiction; subst; reflexivity.
Qed.

Lemma adagrad_divisor_never_zero (g : float) :
  PrimFloat.eqb (Spec.adagrad_divisor g) 0 = false.
Proof.
  destruct (PrimFloat.is_nan g) eqn:Hg.
  - rewrite eqb_spec. unfold Spec.adagrad_divisor.
    cbn [fadd fsqrt fmul float64].
    rewrite add_spec, sqrt_spec, mul_spec.
    apply is_nan_spec in Hg. rewrite Hg. reflexivity.
  - pose proof (adagrad_divisor_spec g Hg) as H.
    rewrite eqb_spec. change (Prim2SF 0) with (S754_zero false).
    destruct (Prim2SF (Spec.adagrad_divisor g)) as [s|s| |s m e];
      cbn [nonzero_signed] in H; try contradiction; subst; reflexivity.
Qed.

(** *** Adagrad's update, entry by entry, on binary64 *)

Lemma finite_not_nan (x : float) :
  is_finite x = true -> PrimFloat.is_nan x = false.
Proof.
  unfold is_finite. intros H. apply andb_prop in H.
  destruct H as [H _]. now apply negb_true_iff in H.
Qed.

Lemma mul_finite (a b : float) :
  is_finite a = true -> is_finite b = true ->
  PrimFloat.is_infinity (a * b) = false -> is_finite (a * b) = true.
Proof.
  intros Ha Hb Hi.
  apply finite_of_not_nan_not_infinity; [now apply mul_not_nan | exact Hi].
Qed.

Lemma add_finite (a b : float) :
  is_finite a = true -> is_finite b = true ->
  PrimFloat.is_infinity (a + b) = false -> is_finite (a + b) = true.
Proof.
  intros Ha Hb Hi.
  apply finite_of_not_nan_not_infinity; [now apply add_not_nan | exact Hi].
Qed.

Lemma adagrad_entry_finite (self : Adagrad.obj float) (g p : float) :
  (0 <= Adagrad.lp self <= 2)%Z ->
  Adagrad_finite_hyper self = true ->
  is_finite g = true -> is_finite p = true ->
  forallb (fun v => negb (PrimFloat.is_infinity v))
          (Adagrad_entry_values self g p) = true ->
  is_finite (Spec.adagrad (Adagrad.eta self) (Adagrad.mom self)
               (Adagrad.lmbda self) (Adagrad.lp self) g p) = true.
Proof.
  destruct self as [eta mom rate0 lmbda k].
  unfold Adagrad_finite_hyper, Adagrad_entry_values.
  cbn [Adagrad.eta Adagrad.mom Adagrad.lmbda Adagrad.lp].
  intros Hk Hh Hg Hp.
  apply andb_prop in Hh. destruct Hh as [Hh Hl].
  apply andb_prop in Hh. destruct Hh as [He Hm].
  cbn [app forallb]. rewrite !andb_true_iff, !negb_true_iff.
  intros (Hrate & Hstep & Hcar & Hbase & Hpen).
  cbn [fdiv fmul fadd fsign float64] in *.
  assert (Frate : is_finite (eta / Spec.adagrad_divisor g) = true).
  { apply finite_of_not_nan_not_infinity; [|exact Hrate].
    apply div_not_nan; [exact He|].
    apply adagrad_divisor_spec, finite_not_nan, Hg. }
  assert (Fstep : is_finite (g * (eta / Spec.adagrad_divisor g)) = true)
    by (apply mul_finite; assumption).
  assert (Fcar : is_finite (mom * p) = true)
    by (apply mul_finite; assumption).
  assert (Fbase : is_finite (g * (eta / Spec.adagrad_divisor g) + mom * p)
                  = true)
    by (apply add_finite; assumption).
  unfold Spec.adagrad, Spec.regularized.
  cbn [fdiv fmul fadd fsign float64].
  destruct (k =? 0)%Z eqn:E0; [exact Fbase|].
  destruct (k =? 1)%Z eqn:E1; cbn [forallb] in Hpen;
    rewrite !andb_true_iff, !negb_true_iff in Hpen;
    destruct Hpen as (Hpen & Hout & _).
  - apply add_finite; [exact Fbase | | exact Hout].
    apply mul_finite; [exact Hl | now apply float_sign_finite | exact Hpen].
  - apply add_finite; [exact Fbase | | exact Hout].
    apply mul_finite; assumption.
Qed.

Lemma adagrad_entries_finite (self : Adagrad.obj float)
    (lg lth : list float) :
  (0 <= Adagrad.lp self <= 2)%Z ->
  Adagrad_finite_hyper self = true ->
  length lg = length lth ->
  forallb is_finite lg = true -> forallb is_finite lth = true ->
  forallb (fun gp =>
             forallb (fun v => negb (PrimFloat.is_infinity v))
                     (Adagrad_entry_values self (fst gp) (snd gp)))
          (combine lg lth) = true ->
  forallb is_finite
    (map2 (Spec.adagrad (Adagrad.eta self) (Adagrad.mom self)
             (Adagrad.lmbda self) (Adagrad.lp self)) lg lth) = true.
Proof.
  intros Hk Hh. revert lth.
  induction lg as [|g lg IH]; intros [|p lth] Hlen Hg Hth Hno;
    cbn [length] in Hlen; try discriminate; [reflexivity|].
  cbn [forallb combine fst snd] in Hg, Hth, Hno.
  apply andb_prop in Hg, Hth, Hno.
  destruct Hg as [Hg Hlg], Hth as [Hp Hlth], Hno as [Hgp Hrest].
  cbn [map2 forallb]. apply andb_true_intro. split.
  - now apply adagrad_entry_finite.
  - apply IH; [lia | assumption..].
Qed.

Lemma adagrad_divisor_entry (x : float) :
  PrimFloat.eqb (Spec.adagrad_divisor x) 0 = false
  /\ (PrimFloat.is_nan x = false ->
      PrimFloat.ltb 0 (Spec.adagrad_divisor x) = true)
  /\ (PrimFloat.eqb x 0 = true -> Spec.adagrad_divisor x = lit_1e_7).
Proof.
  split; [apply adagrad_divisor_never_zero|].
  split; [apply adagrad_divisor_above_zero|].
  apply float_divisor_at_zero.
Qed.

(** C5, as stated, on binary64: with [eta = 1e305] (the binary64 value
    [0x1.23a516e82d9bap+1013]; positive, so within the documented range), no
    momentum and no penalty, a zero gradient gives the rate [1e305 / 1e-7],
    which overflows to infinity, and the update [0 * infinity] is NaN. *)
Lemma C5_counterexample_rate_overflow :
  let self := Adagrad.init 0x1.23a516e82d9bap+1013%float 0%float 0%float 0 in
  let g := Tensor [1] [0%float] in
  let th := Tensor [1] [0%float] in
  Adagrad_documented_ranges self = true
  /\ wf g /\ wf th /\ shape th = shape g
  /\ all_finite g = true /\ all_finite th = true
  /\ ~ Adagrad_returns_finite self g th.
Proof.
  repeat (split; [reflexivity|]).
  intros (u & Hu & Hfin).
  vm_compute in Hu. injection Hu as <-.
  vm_compute in Hfin. discriminate Hfin.
Qed.

(** With [eta = 1e305] and a zero gradient the rate [1e305 / 1e-7]
    overflows: that input is outside the last part of the theorem below. *)
Example Adagrad_overflow_input_excluded :
  Adagrad_no_overflow
    (Adagrad.init 0x1.23a516e82d9bap+1013%float 0%float 0%float 0)
    (Tensor [1] [0%float]) (Tensor [1] [0%float])
  = false.
Proof. vm_compute. reflexivity. Qed.

(** C5, amended, on binary64: [update_change] on a gradient and a previous
    update of one shape, with [lp] in [{0,1,2}], stores the rate
    [eta / (1e-7 + sqrt(gradient*gradient))] and returns the update computed
    with it, element by element.  The divisor is never zero; it is above
    zero at every entry of the gradient that is not NaN, and it is exactly
    [1e-7] where the gradient is zero.  When the hyperparameters, the
    gradient and the previous update are finite and none of the values
    computed after the divisor (the rate, the two products, their sum, the
    penalty and the sum with it) overflows to an infinity, every entry of
    the update is finite. *)
Theorem C5_Adagrad_divisor_positive
    (self : Adagrad.obj float) (g th : tensor float) :
  (0 <= Adagrad.lp self <= 2)%Z ->
  wf g -> wf th -> shape th = shape g ->
  let u := Tensor (shape g)
             (map2 (Spec.adagrad (Adagrad.eta self) (Adagrad.mom self)
                      (Adagrad.lmbda self) (Adagrad.lp self))
                   (data g) (data th)) in
  let rate := Tensor (shape g)
                (map (fun x => fdiv (Adagrad.eta self)
                                 (Spec.adagrad_divisor x))
                     (data g)) in
  Adagrad.update_change g th self
  = (Ok u, Adagrad.set_adagrad_learn_rate (Some rate) self)
  /\ Forall (fun x =>
               PrimFloat.eqb (Spec.adagrad_divisor x) 0 = false
               /\ (PrimFloat.is_nan x = false ->
                   PrimFloat.ltb 0 (Spec.adagrad_divisor x) = true)
               /\ (PrimFloat.eqb x 0 = true ->
                   Spec.adagrad_divisor x = lit_1e_7))
            (data g)
  /\ (Adagrad_finite_hyper self = true ->
      all_finite g = true -> all_finite th = true ->
      Adagrad_no_overflow self g th = true ->
      all_finite u = true).
Proof.
  intros Hlp Hg Hth Hshape u rate. split; [|split].
  - apply Adagrad_update_change_same_shape; assumption.
  - apply Forall_forall. intros x _. apply adagrad_divisor_entry.
  - unfold all_finite, Adagrad_no_overflow. subst u. cbn [data].
    intros Hh Hfg Hfth Hno.
    apply adagrad_entries_finite; try assumption.
    unfold wf in Hg, Hth. congruence.
Qed.

Lemma C5_witness :
  let self := Adagrad.init 0.5%float 0.25%float 0.125%float 2 in
  let g := Tensor [2] [3; 0]%float in
  let th := Tensor [2] [1; -2]%float in
  let u := Tensor (shape g)
             (map2 (Spec.adagrad (Adagrad.eta self) (Adagrad.mom self)
                      (Adagrad.lmbda self) (Adagrad.lp self))
                   (data g) (data th)) in
  let rate := Tensor (shape g)
                (map (fun x => fdiv (Adagrad.eta self)
                                 (Spec.adagrad_divisor x))
                     (data g)) in
  (0 <= Adagrad.lp self <= 2)%Z /\ wf g /\ wf th /\ shape th = shape g
  /\ Adagrad_finite_hyper self = true
  /\ all_finite g = true /\ all_finite th = true
  /\ Adagrad_no_overflow self g th = true
  /\ Adagrad.update_change g th self
     = (Ok u, Adagrad.set_adagrad_learn_rate (Some rate) self)
  /\ Forall (fun x =>
               PrimFloat.eqb (Spec.adagrad_divisor x) 0 = false
               /\ (PrimFloat.is_nan x = false ->
                   PrimFloat.ltb 0 (Spec.adagrad_divisor x) = true)
               /\ (PrimFloat.eqb x 0 = true ->
                   Spec.adagrad_divisor x = lit_1e_7))
            (data g)
  /\ all_finite u = true.
Proof.
  cbv zeta.
  split; [cbn; lia|]. do 7 (split; [reflexivity|]).
  destruct (@C5_Adagrad_divisor_positive
              (Adagrad.init 0.5%float 0.25%float 0.125%float 2)
              (Tensor [2] [3; 0]%float) (Tensor [2] [1; -2]%float))
    as (Hcall & Hdiv & Hfin);
    try reflexivity; [cbn; lia|].
  split; [exact Hcall|]. split; [exact Hdiv|].
  apply Hfin; reflexivity.
Defined.

(** ** RMSprop *)

Section RMSpropFacts.
Context {num : Type} {A : Arith num}.

Lemma rmsprop_v_lists_scalar (decay v0 : num) (lg : list num) :
  map (fadd (fmul decay v0))
      (map2 fmul (map (fmul (fsub lit_1 decay)) lg) lg)
  = map2 (Spec.rmsprop_v decay) (repeat v0 (length lg)) lg.
Proof.
  induction lg as [|g lg IH]; cbn [map map2 length repeat]; [reflexivity|].
  now rewrite IH.
Qed.

Lemma rmsprop_v_lists_same (decay : num) (lv lg : list num) :
  length lv = length lg ->
  map2 fadd (map (fmul decay) lv)
       (map2 fmul (map (fmul (fsub lit_1 decay)) lg) lg)
  = map2 (Spec.rmsprop_v decay) lv lg.
Proof.
  revert lg. induction lv as [|v lv IH]; intros [|g lg] Hlen;
    cbn [length] in Hlen; try discriminate; [reflexivity|].
  cbn [map map2]. rewrite IH by lia. reflexivity.
Qed.

Lemma rmsprop_out_lists (eta lmbda : num) (lv lg lth : list num) :
  length lv = length lg -> length lth = length lg ->
  map2 fadd
    (map2 fmul
       (map (fdiv eta) (map fsqrt (map (fun x => fadd x lit_1e_8) lv))) lg)
    (map (fmul lmbda) lth)
  = map2 (Spec.rmsprop_out lmbda) (map2 (Spec.rmsprop_step eta) lv lg) lth.
Proof.
  revert lg lth. induction lv as [|v lv IH]; intros [|g lg] [|p lth] Hv Hth;
    cbn [length] in Hv, Hth; try discriminate; try reflexivity.
  cbn [map map2]. rewrite IH by lia. reflexivity.
Qed.

Lemma length_rmsprop_v (decay : num) (lv lg : list num) :
  length lv = length lg ->
  length (map2 (Spec.rmsprop_v decay) lv lg) = length lg.
Proof. intros H. rewrite map2_length. lia. Qed.

(** The second half of [update_change], once [rmsProp_update] holds an array
    of the gradient's shape. *)
Lemma RMSprop_output (eta lmbda : num) (s : list nat) (lv lg lth : list num) :
  length lv = size s -> length lg = size s -> length lth = size s ->
  py eta /^ np_sqrt (nd (Tensor s lv) +^ py lit_1e_8) *^ nd (Tensor s lg)
    +^ py lmbda *^ nd (Tensor s lth)
  = Ok (Tensor s (map2 (Spec.rmsprop_out lmbda)
                       (map2 (Spec.rmsprop_step eta) lv lg) lth)).
Proof.
  intros Hv Hg Hth. py_eval.
  rewrite rmsprop_out_lists by congruence. reflexivity.
Qed.

End RMSpropFacts.

(** C6: RMSprop's [update_change], on a gradient and a previous update of one
    shape and a moving average [v] that is the initial float or an array of
    that shape, stores [v' = decay * v + (1 - decay) * gradient * gradient]
    and returns [eta / sqrt(v' + 1e-8) * gradient + lmbda * previous_update],
    element by element.  The class has no [lp] attribute: the penalty is
    [lmbda * previous_update] in every configuration. *)
Theorem C6_RMSprop_update
    {num : Type} {A : Arith num} (self : RMSprop.obj num)
    (g th : tensor num) :
  wf g -> wf th -> shape th = shape g ->
  wf (RMSprop.rmsProp_update self) ->
  shape (RMSprop.rmsProp_update self) = []
  \/ shape (RMSprop.rmsProp_update self) = shape g ->
  let v' := map2 (Spec.rmsprop_v (RMSprop.decay self))
                 (broadcast_to (shape g) (RMSprop.rmsProp_update self))
                 (data g) in
  RMSprop.update_change g th self
  = (Ok (Tensor (shape g)
           (map2 (Spec.rmsprop_out (RMSprop.lmbda self))
                 (map2 (Spec.rmsprop_step (RMSprop.eta self)) v' (data g))
                 (data th))),
     RMSprop.set_rmsProp_update (Tensor (shape g) v') self).
Proof.
  destruct self as [e [sv lv] d l], g as [s lg], th as [s' lth].
  unfold wf. cbn [shape data RMSprop.rmsProp_update RMSprop.decay
                  RMSprop.lmbda RMSprop.eta].
  intros Hg Hth -> Hv Hshape.
  unfold RMSprop.update_change, bind, eval, assign.
  cbn [RMSprop.rmsProp_update RMSprop.decay RMSprop.lmbda RMSprop.eta
       RMSprop.set_rmsProp_update].
  destruct Hshape as [-> | ->].
  - destruct lv as [|v0 [|? ?]]; cbn [length size fold_right] in Hv;
      try discriminate.
    rewrite broadcast_to_scalar.
    assert (Hv' : py d *^ nd (Tensor [] [v0])
                    +^ py (fsub lit_1 d) *^ nd (Tensor s lg) *^ nd (Tensor s lg)
                  = Ok (Tensor s (map2 (Spec.rmsprop_v d)
                                       (repeat v0 (size s)) lg))).
    { py_eval. cbn [map]. py_eval.
      now rewrite rmsprop_v_lists_scalar, Hg. }
    rewrite Hv'. rewrite RMSprop_output; [reflexivity| |assumption..].
    rewrite length_rmsprop_v; [assumption|].
    now rewrite repeat_length.
  - rewrite broadcast_to_same by exact Hv.
    assert (Hv' : py d *^ nd (Tensor s lv)
                    +^ py (fsub lit_1 d) *^ nd (Tensor s lg) *^ nd (Tensor s lg)
                  = Ok (Tensor s (map2 (Spec.rmsprop_v d) lv lg))).
    { py_eval. now rewrite rmsprop_v_lists_same by congruence. }
    rewrite Hv'. rewrite RMSprop_output; [reflexivity| |assumption..].
    rewrite length_rmsprop_v; congruence.
Qed.

Lemma C6_witness :
  let self := RMSprop.init 0.5%float 0.75%float 0.125%float in
  let g := Tensor [2] [3; -4]%float in
  let th := Tensor [2] [1; -2]%float in
  wf g /\ wf th /\ shape th = shape g
  /\ wf (RMSprop.rmsProp_update self)
  /\ (shape (RMSprop.rmsProp_update self) = []
      \/ shape (RMSprop.rmsProp_update self) = shape g)
  /\ let v' := map2 (Spec.rmsprop_v (RMSprop.decay self))
                    (broadcast_to (shape g) (RMSprop.rmsProp_update self))
                    (data g) in
     RMSprop.update_change g th self
     = (Ok (Tensor (shape g)
              (map2 (Spec.rmsprop_out (RMSprop.lmbda self))
                    (map2 (Spec.rmsprop_step (RMSprop.eta self)) v' (data g))
                    (data th))),
        RMSprop.set_rmsProp_update (Tensor (shape g) v') self).
Proof.
  do 4 (split; [reflexivity|]). split; [left; reflexivity|].
  apply (@C6_RMSprop_update float float64
           (RMSprop.init 0.5%float 0.75%float 0.125%float)
           (Tensor [2] [3; -4]%float) (Tensor [2] [1; -2]%float));
    first [reflexivity | left; reflexivity].
Defined.

(** ** ADAM *)

Section ADAMFacts.
Context {num : Type} {A : Arith num}.
Variable pow : num -> Z -> result num.

(** [update_change] assigns [s] and [r] only, also when it raises. *)
Lemma ADAM_update_change_frame (self : ADAM.obj num) (g th : tensor num) :
  ADAM_frame (snd (ADAM.update_change pow g th self)) = ADAM_frame self.
Proof.
  destruct self as [e d1 d2 l s0 r0 t0].
  unfold ADAM.update_change, bind, eval, assign.
  repeat match goal with
         | |- context [match ?x with Ok _ => _ | Raise _ => _ end] =>
             destruct x
         end;
    reflexivity.
Qed.

Lemma ADAM_updates_frame (us : list (tensor num * tensor num))
    (self : ADAM.obj num) :
  ADAM_frame (ADAM_history pow (updates us) self) = ADAM_frame self.
Proof.
  unfold ADAM_history, updates. revert self.
  induction us as [|u us IH]; intros self; cbn [map fold_left];
    [reflexivity|].
  rewrite IH. cbn [ADAM_call]. apply ADAM_update_change_frame.
Qed.

Lemma ADAM_frame_t (o1 o2 : ADAM.obj num) :
  ADAM_frame o1 = ADAM_frame o2 ->
  ADAM.t o1 = ADAM.t o2
  /\ ADAM.decay1 o1 = ADAM.decay1 o2 /\ ADAM.decay2 o1 = ADAM.decay2 o2.
Proof. unfold ADAM_frame. intros [= _ H1 H2 _ Ht]. auto. Qed.

End ADAMFacts.

(** C7: ADAM's [reset] sets [s] and [r] to the float [0.], adds [1] to the
    step counter [t] and leaves the hyperparameters alone; [t] does not go
    back to [1]: a fresh instance has [t = 2] after its first reset. *)
Theorem C7_ADAM_reset_increments_t
    {num : Type} {A : Arith num} (self : ADAM.obj num)
    (eta decay1 decay2 lmbda : num) :
  ADAM.reset self
  = ADAM.Make (ADAM.eta self) (ADAM.decay1 self) (ADAM.decay2 self)
              (ADAM.lmbda self) (scalar lit_0) (scalar lit_0)
              (ADAM.t self + 1)
  /\ ADAM.t (ADAM.reset self) <> ADAM.t self
  /\ ADAM.t (ADAM.init eta decay1 decay2 lmbda) = 1%Z
  /\ ADAM.t (ADAM.reset (ADAM.init eta decay1 decay2 lmbda)) = 2%Z.
Proof.
  destruct self as [e d1 d2 l s0 r0 t0].
  cbn. repeat split; try reflexivity. lia.
Qed.

(** C10: ADAM's [update_change] never assigns the step counter [t], whether
    it returns or raises.  Over any run of [update_change] calls without a
    [reset], [t] and the decay rates keep their values, so the
    bias-correction divisors [1. - decay1**t] and [1. - decay2**t] are the
    same on every call, and on a fresh instance [t] stays [1]; [reset] is
    the method that changes [t]. *)
Theorem C10_ADAM_update_keeps_t
    {num : Type} {A : Arith num} (pow : num -> Z -> result num)
    (self : ADAM.obj num) (g th : tensor num)
    (us : list (tensor num * tensor num))
    (eta decay1 decay2 lmbda : num) :
  ADAM.t (snd (ADAM.update_change pow g th self)) = ADAM.t self
  /\ ADAM.t (ADAM_history pow (updates us) self) = ADAM.t self
  /\ ADAM.bias_divisor pow
       (ADAM.decay1 (ADAM_history pow (updates us) self))
       (ADAM.t (ADAM_history pow (updates us) self))
     = ADAM.bias_divisor pow (ADAM.decay1 self) (ADAM.t self)
  /\ ADAM.bias_divisor pow
       (ADAM.decay2 (ADAM_history pow (updates us) self))
       (ADAM.t (ADAM_history pow (updates us) self))
     = ADAM.bias_divisor pow (ADAM.decay2 self) (ADAM.t self)
  /\ ADAM.t (ADAM_history pow (updates us)
               (ADAM.init eta decay1 decay2 lmbda)) = 1%Z
  /\ ADAM.t (ADAM.reset self) = (ADAM.t self + 1)%Z.
Proof.
  destruct (ADAM_frame_t (ADAM_update_change_frame pow self g th))
    as (Ht1 & _ & _).
  destruct (ADAM_frame_t (ADAM_updates_frame pow us self))
    as (Ht & Hd1 & Hd2).
  destruct (ADAM_frame_t
              (ADAM_updates_frame pow us (ADAM.init eta decay1 decay2 lmbda)))
    as (Hti & _ & _).
  rewrite Ht, Hd1, Hd2.
  repeat split; first [assumption | reflexivity].
Qed.

(** ** Regularization orders outside [{0,1,2}] and shapes that do not
    broadcast *)

Ltac lp_cases k :=
  destruct (k =? 0)%Z eqn:?E0; destruct (k =? 1)%Z eqn:?E1;
  destruct (k =? 2)%Z eqn:?E2; try lia.

Section Raising.
Context {num : Type} {A : Arith num}.
Variable pow : num -> Z -> result num.

Lemma PlainGD_invalid_lp (o : PlainGD.obj num) (g : tensor num)
    (th : option (tensor num)) :
  ~ (0 <= PlainGD.lp o <= 2)%Z ->
  PlainGD.update_change g th o = (Raise NotImplementedError, o).
Proof.
  destruct o as [e l k]. cbn [PlainGD.lp]. intros Hk.
  unfold PlainGD.update_change, eval. cbn [PlainGD.lp].
  lp_cases k. reflexivity.
Qed.

Lemma MomentumGD_invalid_lp (o : MomentumGD.obj num) (g th : tensor num) :
  ~ (0 <= MomentumGD.lp o <= 2)%Z ->
  MomentumGD.update_change g th o = (Raise NotImplementedError, o).
Proof.
  destruct o as [e m l k]. cbn [MomentumGD.lp]. intros Hk.
  unfold MomentumGD.update_change, eval. cbn [MomentumGD.lp].
  lp_cases k. reflexivity.
Qed.

(** Adagrad stores the rate before it looks at [lp]. *)
Lemma Adagrad_invalid_lp (o : Adagrad.obj num) (g th : tensor num) :
  ~ (0 <= Adagrad.lp o <= 2)%Z ->
  exists rate,
    Adagrad.update_change g th o
    = (Raise NotImplementedError,
       Adagrad.set_adagrad_learn_rate (Some rate) o).
Proof.
  destruct o as [e m a l k]. cbn [Adagrad.lp]. intros Hk.
  unfold Adagrad.update_change. py_unfold. shapes.
  cbn [Adagrad.eta]. py_unfold. shapes.
  cbn [Adagrad.lp Adagrad.set_adagrad_learn_rate].
  lp_cases k. eexists. reflexivity.
Qed.

Lemma PlainGD_mismatch (o : PlainGD.obj num) (g th : tensor num) :
  (1 <= PlainGD.lp o <= 2)%Z ->
  broadcast_shapes (shape g) (shape th) = None ->
  PlainGD.update_change g (Some th) o = (Raise ValueError, o).
Proof.
  destruct o as [e l k], g as [s lg], th as [s' lth].
  cbn [PlainGD.lp shape]. intros Hk Hnone.
  unfold PlainGD.update_change, eval.
  cbn [PlainGD.lp PlainGD.eta PlainGD.lmbda].
  lp_cases k; py_unfold; shapes; reflexivity.
Qed.

Lemma MomentumGD_mismatch (o : MomentumGD.obj num) (g th : tensor num) :
  (0 <= MomentumGD.lp o <= 2)%Z ->
  broadcast_shapes (shape g) (shape th) = None ->
  MomentumGD.update_change g th o = (Raise ValueError, o).
Proof.
  destruct o as [e m l k], g as [s lg], th as [s' lth].
  cbn [MomentumGD.lp shape]. intros Hk Hnone.
  unfold MomentumGD.update_change, eval.
  cbn [MomentumGD.lp MomentumGD.eta MomentumGD.lmbda MomentumGD.mom].
  lp_cases k; py_unfold; shapes; reflexivity.
Qed.

Lemma Adagrad_mismatch (o : Adagrad.obj num) (g th : tensor num) :
  (0 <= Adagrad.lp o <= 2)%Z ->
  broadcast_shapes (shape g) (shape th) = None ->
  exists rate,
    Adagrad.update_change g th o
    = (Raise ValueError, Adagrad.set_adagrad_learn_rate (Some rate) o).
Proof.
  destruct o as [e m a l k], g as [s lg], th as [s' lth].
  cbn [Adagrad.lp shape]. intros Hk Hnone.
  unfold Adagrad.update_change. py_unfold. shapes.
  cbn [Adagrad.eta]. py_unfold. shapes.
  cbn [Adagrad.eta Adagrad.lp Adagrad.mom Adagrad.lmbda
       Adagrad.adagrad_learn_rate Adagrad.set_adagrad_learn_rate].
  lp_cases k; py_unfold; shapes; eexists; reflexivity.
Qed.

Lemma RMSprop_mismatch (o : RMSprop.obj num) (g th : tensor num) :
  fits (RMSprop.rmsProp_update o) g ->
  broadcast_shapes (shape g) (shape th) = None ->
  exists v,
    RMSprop.update_change g th o
    = (Raise ValueError, RMSprop.set_rmsProp_update v o).
Proof.
  destruct o as [e [sv lv] d l], g as [s lg], th as [s' lth].
  unfold fits. cbn [RMSprop.rmsProp_update shape]. intros Hfit Hnone.
  unfold RMSprop.update_change. py_unfold.
  cbn [RMSprop.rmsProp_update RMSprop.decay RMSprop.eta RMSprop.lmbda].
  shapes.
  cbn [RMSprop.rmsProp_update RMSprop.decay RMSprop.eta RMSprop.lmbda
       RMSprop.set_rmsProp_update].
  py_unfold. shapes.
  eexists. reflexivity.
Qed.

Lemma ADAM_mismatch (o : ADAM.obj num) (g th : tensor num) :
  fits (ADAM.s o) g -> fits (ADAM.r o) g ->
  (exists p1, pow (ADAM.decay1 o) (ADAM.t o) = Ok p1) ->
  (exists p2, pow (ADAM.decay2 o) (ADAM.t o) = Ok p2) ->
  broadcast_shapes (shape g) (shape th) = None ->
  exists s1 r1,
    ADAM.update_change pow g th o
    = (Raise ValueError, ADAM.set_r r1 (ADAM.set_s s1 o)).
Proof.
  destruct o as [e d1 d2 l [ss ls] [sr lr] t0], g as [s lg], th as [s' lth].
  unfold fits. cbn [ADAM.s ADAM.r ADAM.t ADAM.decay1 ADAM.decay2 shape].
  intros Hs Hr [p1 Hp1] [p2 Hp2] Hnone.
  unfold ADAM.update_change, ADAM.bias_divisor. py_unfold.
  cbn [ADAM.s ADAM.r ADAM.t ADAM.decay1 ADAM.decay2 ADAM.eta ADAM.lmbda
       ADAM.set_s ADAM.set_r].
  shapes.
  cbn [ADAM.s ADAM.r ADAM.t ADAM.decay1 ADAM.decay2 ADAM.eta ADAM.lmbda
       ADAM.set_s ADAM.set_r].
  shapes.
  rewrite Hp1. py_unfold. shapes. rewrite Hp2. py_unfold. shapes.
  do 2 eexists. reflexivity.
Qed.

End Raising.

(** C1, as stated, on Adagrad: with [lp = 3] the call raises
    [NotImplementedError], but [adagrad_learn_rate], [None] on the fresh
    instance, has been assigned by then. *)
Lemma C1_counterexample_Adagrad_assigns_first :
  let self := Adagrad.init 0.5%float 0.25%float 0.125%float 3 in
  let g := Tensor [1] [2%float] in
  let th := Tensor [1] [1%float] in
  fst (Adagrad.update_change g th self) = Raise NotImplementedError
  /\ Adagrad.adagrad_learn_rate self = None
  /\ Adagrad.adagrad_learn_rate (snd (Adagrad.update_change g th self))
     <> None
  /\ snd (Adagrad.update_change g th self) <> self.
Proof.
  cbv zeta. split; [reflexivity|]. split; [reflexivity|]. split.
  - vm_compute. discriminate.
  - intros H.
    apply (f_equal (fun o => match Adagrad.adagrad_learn_rate o with
                             | None => true
                             | Some _ => false
                             end)) in H.
    vm_compute in H. discriminate H.
Qed.

(** C1, amended: for PlainGD, MomentumGD and Adagrad, [update_change] with
    [lp] outside [{0,1,2}] raises [NotImplementedError].  PlainGD and
    MomentumGD are unchanged by the call; of Adagrad only the attribute that
    [reset] clears can differ.  Once the caller has assigned any [lp'], a
    further call has the outcome it would have had without the failing
    call. *)
Theorem C1_invalid_lp_raises_recoverably
    {num : Type} {A : Arith num} (pow : num -> Z -> result num)
    (o : Optimizer.obj num) (k k' : Z) (g th g' th' : tensor num) :
  Optimizer.lp o = Some k ->
  ~ (0 <= k <= 2)%Z ->
  fst (Optimizer.update_change pow g th o) = Raise NotImplementedError
  /\ unchanged_up_to_reset o (snd (Optimizer.update_change pow g th o))
  /\ Optimizer.update_change pow g' th'
       (Optimizer.set_lp k' (snd (Optimizer.update_change pow g th o)))
     = Optimizer.update_change pow g' th' (Optimizer.set_lp k' o).
Proof.
  intros Hlp Hk.
  destruct o as [p | m | a | r | d]; cbn [Optimizer.lp] in Hlp;
    try discriminate; injection Hlp as <-;
    unfold unchanged_up_to_reset;
    cbn [Optimizer.update_change Optimizer.stateless].
  - rewrite PlainGD_invalid_lp by exact Hk.
    repeat split; reflexivity.
  - rewrite MomentumGD_invalid_lp by exact Hk.
    repeat split; reflexivity.
  - destruct (@Adagrad_invalid_lp _ _ a g th Hk) as [rate ->].
    unfold Optimizer.wrap.
    cbn [fst snd Optimizer.set_lp Optimizer.reset Optimizer.update_change].
    split; [reflexivity|]. split; [destruct a; reflexivity|].
    unfold Optimizer.wrap.
    rewrite (@Adagrad_update_change_hyper _ _
               (Adagrad_set_lp k'
                  (Adagrad.set_adagrad_learn_rate (Some rate) a))
               (Adagrad_set_lp k' a));
      [reflexivity | destruct a; reflexivity].
Qed.

Lemma C1_witness :
  let pow := fun (x : float) (_ : Z) => Ok x in
  let o := Optimizer.OfAdagrad
             (Adagrad.init 0.5%float 0.25%float 0.125%float 3) in
  let g := Tensor [2] [3; -4]%float in
  let th := Tensor [2] [1; -2]%float in
  Optimizer.lp o = Some 3%Z /\ ~ (0 <= 3 <= 2)%Z
  /\ fst (Optimizer.update_change pow g th o) = Raise NotImplementedError
  /\ unchanged_up_to_reset o (snd (Optimizer.update_change pow g th o))
  /\ Optimizer.update_change pow g th
       (Optimizer.set_lp 2 (snd (Optimizer.update_change pow g th o)))
     = Optimizer.update_change pow g th (Optimizer.set_lp 2 o).
Proof.
  split; [reflexivity|]. split; [lia|].
  apply (@C1_invalid_lp_raises_recoverably float float64
           (fun (x : float) (_ : Z) => Ok x)
           (Optimizer.OfAdagrad
              (Adagrad.init 0.5%float 0.25%float 0.125%float 3))
           3%Z 2%Z
           (Tensor [2] [3; -4]%float) (Tensor [2] [1; -2]%float)
           (Tensor [2] [3; -4]%float) (Tensor [2] [1; -2]%float));
    [reflexivity | lia].
Defined.

(** C2, as stated, on PlainGD with [lp = 0]: a gradient of shape [(2,)] and
    a previous update of shape [(3,)], which do not even broadcast, give
    [eta * gradient] and no error. *)
Lemma C2_counterexample_PlainGD_lp0_no_error :
  let self := PlainGD.init 0.5%float 0.25%float 0 in
  let g := Tensor [2] [1; 2]%float in
  let th := Tensor [3] [1; 2; 3]%float in
  shape g <> shape th
  /\ broadcast_shapes (shape g) (shape th) = None
  /\ PlainGD.update_change g (Some th) self
     = (Ok (Tensor [2] [0.5; 1]%float), self).
Proof.
  cbv zeta. split; [discriminate|]. split; reflexivity.
Qed.

(** C2, amended: no variant compares shapes itself.  When a call gets as far
    as combining the previous update with a gradient-shaped term (every
    configuration but PlainGD with [lp = 0]) and the two shapes cannot be
    broadcast together, [update_change] raises NumPy's [ValueError]; PlainGD
    and MomentumGD are then unchanged, and of the other variants only
    attributes that [reset] reinitialises can differ. *)
Theorem C2_unbroadcastable_shapes_raise
    {num : Type} {A : Arith num} (pow : num -> Z -> result num)
    (o : Optimizer.obj num) (g th : tensor num) :
  reaches_previous_update pow o g ->
  broadcast_shapes (shape g) (shape th) = None ->
  fst (Optimizer.update_change pow g th o) = Raise ValueError
  /\ unchanged_up_to_reset o (snd (Optimizer.update_change pow g th o)).
Proof.
  intros Hready Hnone.
  destruct o as [p | m | a | r | d]; cbn [reaches_previous_update] in Hready;
    unfold unchanged_up_to_reset;
    cbn [Optimizer.update_change Optimizer.stateless].
  - rewrite PlainGD_mismatch by assumption. split; reflexivity.
  - rewrite MomentumGD_mismatch by assumption. split; reflexivity.
  - destruct (@Adagrad_mismatch _ _ a g th Hready Hnone) as [rate ->].
    split; [reflexivity|]. destruct a; reflexivity.
  - destruct (@RMSprop_mismatch _ _ r g th Hready Hnone) as [v ->].
    split; [reflexivity|]. destruct r; reflexivity.
  - destruct Hready as (Hs & Hr & Hp1 & Hp2).
    destruct (@ADAM_mismatch _ _ pow d g th Hs Hr Hp1 Hp2 Hnone)
      as (s1 & r1 & ->).
    split; [reflexivity|]. destruct d; reflexivity.
Qed.

Lemma C2_witness :
  let pow := fun (x : float) (_ : Z) => Ok x in
  let o := Optimizer.OfRMSprop
             (RMSprop.init 0.5%float 0.75%float 0.125%float) in
  let g := Tensor [2] [3; -4]%float in
  let th := Tensor [3] [1; -2; 0]%float in
  reaches_previous_update pow o g
  /\ broadcast_shapes (shape g) (shape th) = None
  /\ fst (Optimizer.update_change pow g th o) = Raise ValueError
  /\ unchanged_up_to_reset o (snd (Optimizer.update_change pow g th o)).
Proof.
  split; [reflexivity|]. split; [reflexivity|].
  apply (@C2_unbroadcastable_shapes_raise float float64
           (fun (x : float) (_ : Z) => Ok x)
           (Optimizer.OfRMSprop
              (RMSprop.init 0.5%float 0.75%float 0.125%float))
           (Tensor [2] [3; -4]%float) (Tensor [3] [1; -2; 0]%float));
    reflexivity.
Defined.

(** * Further properties of the optimizers *)

(** ** Expressions on arrays of one shape *)

Section ExprFacts.
Context {num : Type} {A : Arith num}.

Lemma py_times_nd (c : num) (s : list nat) (l : list num) :
  length l = size s ->
  py c *^ nd (Tensor s l) = nd (Tensor s (map (fmul c) l)).
Proof. intros Hl. py_eval. reflexivity. Qed.

Lemma nd_op_nd (f : num -> num -> num) (s : list nat) (l1 l2 : list num) :
  length l1 = size s -> length l2 = size s ->
  lift2 f (nd (Tensor s l1)) (nd (Tensor s l2))
  = nd (Tensor s (map2 f l1 l2)).
Proof. intros H1 H2. py_eval. reflexivity. Qed.

Lemma broadcast_to_length (s : list nat) (t : tensor num) :
  length (broadcast_to s t) = size s.
Proof. unfold broadcast_to. now rewrite length_map, length_seq. Qed.

Lemma map2_map_l (f : num -> num -> num) (h : num -> num)
    (l1 l2 : list num) :
  map2 f (map h l1) l2 = map2 (fun x y => f (h x) y) l1 l2.
Proof.
  revert l2. induction l1 as [|x l1 IH]; intros [|y l2]; cbn [map map2];
    try reflexivity.
  now rewrite IH.
Qed.

Lemma map2_map_r (f : num -> num -> num) (h : num -> num)
    (l1 l2 : list num) :
  map2 f l1 (map h l2) = map2 (fun x y => f x (h y)) l1 l2.
Proof.
  revert l2. induction l1 as [|x l1 IH]; intros [|y l2]; cbn [map map2];
    try reflexivity.
  now rewrite IH.
Qed.

Lemma map_repeat (h : num -> num) (c : num) (n : nat) :
  map h (repeat c n) = repeat (h c) n.
Proof. induction n as [|n IH]; cbn [repeat map]; [reflexivity|]. now rewrite IH. Qed.

Lemma decayed_repeat (d a0 : num) (lx : list num) :
  map2 (fun a x => fadd (fmul d a) x) (repeat a0 (length lx)) lx
  = map (fadd (fmul d a0)) lx.
Proof.
  induction lx as [|x lx IH]; cbn [length repeat map map2]; [reflexivity|].
  now rewrite IH.
Qed.

(** [decay * acc + x] for an accumulator that is a float or an array of the
    shape of [x]: the accumulator is read as broadcast to that shape. *)
Lemma decayed_accumulator (d : num) (s : list nat) (acc : tensor num)
    (lx : list num) :
  accumulator_of_shape s acc -> length lx = size s ->
  py d *^ nd acc +^ nd (Tensor s lx)
  = nd (Tensor s (map2 (fun a x => fadd (fmul d a) x)
                       (broadcast_to s acc) lx)).
Proof.
  destruct acc as [sa la]. unfold accumulator_of_shape, wf.
  cbn [shape data]. intros [Hwf [-> | ->]] Hx.
  - destruct la as [|a0 [|? ?]]; cbn [length size fold_right] in Hwf;
      try discriminate.
    rewrite broadcast_to_scalar. py_eval. cbn [map]. py_eval.
    rewrite <- Hx, <- decayed_repeat. reflexivity.
  - rewrite broadcast_to_same by exact Hwf.
    rewrite py_times_nd, nd_op_nd by len.
    now rewrite map2_map_l.
Qed.

Lemma accumulator_scalar (s : list nat) (c : num) :
  accumulator_of_shape s (scalar c).
Proof. split; [reflexivity | left; reflexivity]. Qed.

Lemma accumulator_array (s : list nat) (l : list num) :
  length l = size s -> accumulator_of_shape s (Tensor s l).
Proof. intros Hl. split; [exact Hl | right; reflexivity]. Qed.

End ExprFacts.

(** ** PlainGD and MomentumGD, element by element *)

Section StatelessFacts.
Context {num : Type} {A : Arith num}.

Lemma plain_lists (eta lmbda : num) (k : Z) (lg lth : list num) :
  length lg = length lth ->
  (0 <= k <= 2)%Z ->
  (if (k =? 0)%Z then map (fmul eta) lg
   else if (k =? 1)%Z then
     map2 fadd (map (fmul eta) lg) (map (fmul lmbda) (map fsign lth))
   else map2 fadd (map (fmul eta) lg) (map (fmul lmbda) lth))
  = map2 (Rules.plain_gd eta lmbda k) lg lth.
Proof.
  intros Hlen Hk. unfold Rules.plain_gd, Spec.regularized.
  assert (Hcases : k = 0%Z \/ k = 1%Z \/ k = 2%Z) by lia.
  clear Hk. revert lth Hlen.
  induction lg as [|g lg IH]; intros [|p lth] Hlen;
    cbn [length] in Hlen; try discriminate.
  - destruct Hcases as [-> | [-> | ->]]; reflexivity.
  - specialize (IH lth ltac:(lia)).
    destruct Hcases as [-> | [-> | ->]];
      cbn [Z.eqb Pos.eqb map map2] in *; now rewrite IH.
Qed.

Lemma momentum_lists (eta mom lmbda : num) (k : Z) (lg lth : list num) :
  length lg = length lth ->
  (0 <= k <= 2)%Z ->
  (if (k =? 0)%Z then
     map2 fadd (map (fmul eta) lg) (map (fmul mom) lth)
   else if (k =? 1)%Z then
     map2 fadd (map2 fadd (map (fmul eta) lg) (map (fmul mom) lth))
          (map (fmul lmbda) (map fsign lth))
   else
     map2 fadd (map2 fadd (map (fmul eta) lg) (map (fmul mom) lth))
          (map (fmul lmbda) lth))
  = map2 (Rules.momentum_gd eta mom lmbda k) lg lth.
Proof.
  intros Hlen Hk. unfold Rules.momentum_gd, Spec.regularized.
  assert (Hcases : k = 0%Z \/ k = 1%Z \/ k = 2%Z) by lia.
  clear Hk. revert lth Hlen.
  induction lg as [|g lg IH]; intros [|p lth] Hlen;
    cbn [length] in Hlen; try discriminate.
  - destruct Hcases as [-> | [-> | ->]]; reflexivity.
  - specialize (IH lth ltac:(lia)).
    destruct Hcases as [-> | [-> | ->]];
      cbn [Z.eqb Pos.eqb map map2] in *; now rewrite IH.
Qed.

End StatelessFacts.

(** X1: PlainGD's [update_change] with any [lp] in [{0,1,2}], on a gradient
    and a previous update of one shape, returns element by element
    [eta * gradient], plus [lmbda * sign(previous_update)] for [lp = 1] or
    [lmbda * previous_update] for [lp = 2], and leaves the instance as it
    was. *)
Theorem X1_PlainGD_update_elementwise
    {num : Type} {A : Arith num} (self : PlainGD.obj num)
    (g th : tensor num) :
  (0 <= PlainGD.lp self <= 2)%Z ->
  wf g -> wf th -> shape th = shape g ->
  PlainGD.update_change g (Some th) self
  = (Ok (Tensor (shape g)
           (map2 (Rules.plain_gd (PlainGD.eta self) (PlainGD.lmbda self)
                    (PlainGD.lp self))
                 (data g) (data th))),
     self).
Proof.
  destruct self as [e l k], g as [s lg], th as [s' lth].
  unfold wf. cbn [shape data PlainGD.lp PlainGD.eta PlainGD.lmbda].
  intros Hk Hg Hth ->.
  rewrite <- (plain_lists e l lg lth) by (lia || congruence).
  unfold PlainGD.update_change, eval.
  cbn [PlainGD.lp PlainGD.eta PlainGD.lmbda].
  lp_cases k; py_eval; reflexivity.
Qed.

Lemma X1_witness :
  let self := PlainGD.init 0.5%float 0.25%float 1 in
  let g := Tensor [3] [2; 4; 8]%float in
  let th := Tensor [3] [-3; 0; 5]%float in
  (0 <= PlainGD.lp self <= 2)%Z /\ wf g /\ wf th /\ shape th = shape g
  /\ PlainGD.update_change g (Some th) self
     = (Ok (Tensor (shape g)
              (map2 (Rules.plain_gd (PlainGD.eta self) (PlainGD.lmbda self)
                       (PlainGD.lp self))
                    (data g) (data th))),
        self).
Proof.
  split; [cbn; lia|]. do 3 (split; [reflexivity|]).
  apply (@X1_PlainGD_update_elementwise float float64
           (PlainGD.init 0.5%float 0.25%float 1)
           (Tensor [3] [2; 4; 8]%float) (Tensor [3] [-3; 0; 5]%float));
    first [reflexivity | cbn; lia].
Defined.

(** X2: MomentumGD's [update_change] with [lp] in [{0,1,2}], on a gradient
    and a previous update of one shape, returns element by element
    [eta * gradient + mom * previous_update] plus the penalty selected by
    [lp], and leaves the instance as it was. *)
Theorem X2_MomentumGD_update_elementwise
    {num : Type} {A : Arith num} (self : MomentumGD.obj num)
    (g th : tensor num) :
  (0 <= MomentumGD.lp self <= 2)%Z ->
  wf g -> wf th -> shape th = shape g ->
  MomentumGD.update_change g th self
  = (Ok (Tensor (shape g)
           (map2 (Rules.momentum_gd (MomentumGD.eta self)
                    (MomentumGD.mom self) (MomentumGD.lmbda self)
                    (MomentumGD.lp self))
                 (data g) (data th))),
     self).
Proof.
  destruct self as [e m l k], g as [s lg], th as [s' lth].
  unfold wf.
  cbn [shape data MomentumGD.lp MomentumGD.eta MomentumGD.mom
       MomentumGD.lmbda].
  intros Hk Hg Hth ->.
  rewrite <- (momentum_lists e m l lg lth) by (lia || congruence).
  unfold MomentumGD.update_change, eval.
  cbn [MomentumGD.lp MomentumGD.eta MomentumGD.mom MomentumGD.lmbda].
  lp_cases k; py_eval; reflexivity.
Qed.

Lemma X2_witness :
  let self := MomentumGD.init 0.5%float 0.5%float 0.25%float 2 in
  let g := Tensor [2] [2; 4]%float in
  let th := Tensor [2] [8; -8]%float in
  (0 <= MomentumGD.lp self <= 2)%Z /\ wf g /\ wf th /\ shape th = shape g
  /\ MomentumGD.update_change g th self
     = (Ok (Tensor (shape g)
              (map2 (Rules.momentum_gd (MomentumGD.eta self)
                       (MomentumGD.mom self) (MomentumGD.lmbda self)
                       (MomentumGD.lp self))
                    (data g) (data th))),
        self).
Proof.
  split; [cbn; lia|]. do 3 (split; [reflexivity|]).
  apply (@X2_MomentumGD_update_elementwise float float64
           (MomentumGD.init 0.5%float 0.5%float 0.25%float 2)
           (Tensor [2] [2; 4]%float) (Tensor [2] [8; -8]%float));
    first [reflexivity | cbn; lia].
Defined.

(** ** RMSprop and ADAM on accumulators that fit *)

Section AccumulatorFacts.
Context {num : Type} {A : Arith num}.
Variable pow : num -> Z -> result num.

Lemma rmsprop_v_fused (d : num) (lv lg : list num) :
  length lv = length lg ->
  map2 (fun a x => fadd (fmul d a) x) lv
       (map2 fmul (map (fmul (fsub lit_1 d)) lg) lg)
  = map2 (Spec.rmsprop_v d) lv lg.
Proof.
  revert lg. induction lv as [|v lv IH]; intros [|g lg] Hlen;
    cbn [length] in Hlen; try discriminate; [reflexivity|].
  cbn [map map2]. rewrite IH by lia. reflexivity.
Qed.

Lemma adam_s_fused (d : num) (ls lg : list num) :
  length ls = length lg ->
  map2 (fun a x => fadd (fmul d a) x) ls (map (fmul (fsub lit_1 d)) lg)
  = map2 (Rules.adam_s d) ls lg.
Proof.
  revert lg. induction ls as [|v ls IH]; intros [|g lg] Hlen;
    cbn [length] in Hlen; try discriminate; [reflexivity|].
  cbn [map map2]. rewrite IH by lia. reflexivity.
Qed.

Lemma adam_out_lists (eta lmbda p1 p2 : num) (ls lr lth : list num) :
  length ls = length lr -> length lth = length lr ->
  map2 fadd
    (map (fmul eta)
       (map2 fdiv
          (map (fun x => fdiv x (fsub lit_1 p1)) ls)
          (map (fun x => fadd x lit_1e_8)
             (map fsqrt (map (fun x => fdiv x (fsub lit_1 p2)) lr)))))
    (map (fmul lmbda) lth)
  = map2 (Rules.adam_out lmbda) (map2 (Rules.adam_step eta p1 p2) ls lr) lth.
Proof.
  revert lr lth.
  induction ls as [|v ls IH]; intros [|r lr] [|p lth] Hs Hth;
    cbn [length] in Hs, Hth; try discriminate; try reflexivity.
  cbn [map map2]. rewrite IH by lia. reflexivity.
Qed.

Lemma RMSprop_update_change_formula (self : RMSprop.obj num) (s : list nat)
    (lg lth : list num) :
  accumulator_of_shape s (RMSprop.rmsProp_update self) ->
  length lg = size s -> length lth = size s ->
  RMSprop.update_change (Tensor s lg) (Tensor s lth) self
  = (Ok (Tensor s
           (map2 (Spec.rmsprop_out (RMSprop.lmbda self))
                 (map2 (Spec.rmsprop_step (RMSprop.eta self))
                       (map2 (Spec.rmsprop_v (RMSprop.decay self))
                             (broadcast_to s (RMSprop.rmsProp_update self))
                             lg)
                       lg)
                 lth)),
     RMSprop.set_rmsProp_update
       (Tensor s (map2 (Spec.rmsprop_v (RMSprop.decay self))
                       (broadcast_to s (RMSprop.rmsProp_update self)) lg))
       self).
Proof.
  destruct self as [e v d l].
  cbn [RMSprop.rmsProp_update RMSprop.decay RMSprop.lmbda RMSprop.eta].
  intros Hacc Hg Hth.
  assert (Hb : length (broadcast_to s v) = length lg)
    by (rewrite broadcast_to_length; congruence).
  unfold RMSprop.update_change, bind, eval, assign.
  cbn [RMSprop.rmsProp_update RMSprop.decay RMSprop.lmbda RMSprop.eta].
  rewrite py_times_nd, nd_op_nd by len.
  rewrite decayed_accumulator by (assumption || len).
  rewrite rmsprop_v_fused by exact Hb.
  unfold nd at 1.
  cbn [RMSprop.rmsProp_update RMSprop.decay RMSprop.lmbda RMSprop.eta
       RMSprop.set_rmsProp_update].
  rewrite RMSprop_output; [reflexivity| |assumption..].
  rewrite length_rmsprop_v; congruence.
Qed.

Lemma ADAM_update_change_formula (self : ADAM.obj num) (s : list nat)
    (lg lth : list num) (p1 p2 : num) :
  accumulator_of_shape s (ADAM.s self) ->
  accumulator_of_shape s (ADAM.r self) ->
  length lg = size s -> length lth = size s ->
  pow (ADAM.decay1 self) (ADAM.t self) = Ok p1 ->
  pow (ADAM.decay2 self) (ADAM.t self) = Ok p2 ->
  ADAM.update_change pow (Tensor s lg) (Tensor s lth) self
  = (Ok (Tensor s
           (map2 (Rules.adam_out (ADAM.lmbda self))
                 (map2 (Rules.adam_step (ADAM.eta self) p1 p2)
                       (map2 (Rules.adam_s (ADAM.decay1 self))
                             (broadcast_to s (ADAM.s self)) lg)
                       (map2 (Rules.adam_r (ADAM.decay2 self))
                             (broadcast_to s (ADAM.r self)) lg))
                 lth)),
     ADAM.set_r
       (Tensor s (map2 (Rules.adam_r (ADAM.decay2 self))
                       (broadcast_to s (ADAM.r self)) lg))
       (ADAM.set_s
          (Tensor s (map2 (Rules.adam_s (ADAM.decay1 self))
                          (broadcast_to s (ADAM.s self)) lg))
          self)).
Proof.
  destruct self as [e d1 d2 l s0 r0 t0].
  cbn [ADAM.s ADAM.r ADAM.t ADAM.decay1 ADAM.decay2 ADAM.eta ADAM.lmbda].
  intros Hs Hr Hg Hth Hp1 Hp2.
  assert (Hbs : length (broadcast_to s s0) = length lg)
    by (rewrite broadcast_to_length; congruence).
  assert (Hbr : length (broadcast_to s r0) = length lg)
    by (rewrite broadcast_to_length; congruence).
  unfold ADAM.update_change, ADAM.bias_divisor, bind, eval, assign.
  cbn [ADAM.s ADAM.r ADAM.t ADAM.decay1 ADAM.decay2 ADAM.eta ADAM.lmbda].
  rewrite py_times_nd by len.
  rewrite decayed_accumulator by (assumption || len).
  rewrite adam_s_fused by exact Hbs.
  unfold nd at 1.
  cbn [ADAM.s ADAM.r ADAM.t ADAM.decay1 ADAM.decay2 ADAM.eta ADAM.lmbda
       ADAM.set_s].
  rewrite py_times_nd, nd_op_nd by len.
  rewrite decayed_accumulator by (assumption || len).
  rewrite (rmsprop_v_fused d2 (broadcast_to s r0) lg Hbr).
  change (Spec.rmsprop_v d2) with (Rules.adam_r d2).
  unfold nd at 1.
  cbn [ADAM.s ADAM.r ADAM.t ADAM.decay1 ADAM.decay2 ADAM.eta ADAM.lmbda
       ADAM.set_s ADAM.set_r].
  rewrite Hp1, Hp2.
  set (ls := map2 (Rules.adam_s d1) (broadcast_to s s0) lg).
  set (lr := map2 (Rules.adam_r d2) (broadcast_to s r0) lg).
  assert (Hls : length ls = size s)
    by (unfold ls; rewrite map2_length; lia).
  assert (Hlr : length lr = size s)
    by (unfold lr; rewrite map2_length; lia).
  py_eval.
  rewrite adam_out_lists by congruence. reflexivity.
Qed.

(** A call on arrays of shape [s] leaves accumulators of shape [s]. *)
Lemma RMSprop_call_keeps_accumulator (s : list nat) (c : call num)
    (self : RMSprop.obj num) :
  calls_of_shape s [c] ->
  accumulator_of_shape s (RMSprop.rmsProp_update self) ->
  accumulator_of_shape s (RMSprop.rmsProp_update (RMSprop_call self c)).
Proof.
  intros Hc Hacc. apply Forall_inv in Hc.
  destruct c as [[sg lg] [sth lth]|]; cbn [RMSprop_call].
  - destruct Hc as (Hg & Hth & Hsg & Hsth). unfold wf in Hg, Hth.
    cbn [shape data] in *. subst sg sth.
    rewrite RMSprop_update_change_formula by assumption.
    cbn [snd]. destruct self. cbn [RMSprop.set_rmsProp_update
                                   RMSprop.rmsProp_update].
    apply accumulator_array.
    rewrite map2_length, broadcast_to_length. lia.
  - destruct self. apply accumulator_scalar.
Qed.

Lemma RMSprop_history_keeps_accumulator (s : list nat) (cs : list (call num))
    (self : RMSprop.obj num) :
  calls_of_shape s cs ->
  accumulator_of_shape s (RMSprop.rmsProp_update self) ->
  accumulator_of_shape s
    (RMSprop.rmsProp_update (RMSprop_history cs self)).
Proof.
  unfold RMSprop_history. revert self.
  induction cs as [|c cs IH]; intros self Hcs Hacc; cbn [fold_left];
    [exact Hacc|].
  apply IH.
  - exact (Forall_inv_tail Hcs).
  - apply RMSprop_call_keeps_accumulator; [|exact Hacc].
    constructor; [exact (Forall_inv Hcs) | constructor].
Qed.

(** The moments a call stores do not wait for the powers: they are assigned
    before [decay ** t] is evaluated, whether or not it raises. *)
Lemma ADAM_update_change_moments (self : ADAM.obj num) (s : list nat)
    (lg lth : list num) :
  accumulator_of_shape s (ADAM.s self) ->
  accumulator_of_shape s (ADAM.r self) ->
  length lg = size s -> length lth = size s ->
  snd (ADAM.update_change pow (Tensor s lg) (Tensor s lth) self)
  = ADAM.set_r
      (Tensor s (map2 (Rules.adam_r (ADAM.decay2 self))
                      (broadcast_to s (ADAM.r self)) lg))
      (ADAM.set_s
         (Tensor s (map2 (Rules.adam_s (ADAM.decay1 self))
                         (broadcast_to s (ADAM.s self)) lg))
         self).
Proof.
  destruct self as [e d1 d2 l s0 r0 t0].
  cbn [ADAM.s ADAM.r ADAM.t ADAM.decay1 ADAM.decay2 ADAM.eta ADAM.lmbda].
  intros Hs Hr Hg Hth.
  assert (Hbs : length (broadcast_to s s0) = length lg)
    by (rewrite broadcast_to_length; congruence).
  assert (Hbr : length (broadcast_to s r0) = length lg)
    by (rewrite broadcast_to_length; congruence).
  unfold ADAM.update_change, ADAM.bias_divisor, bind, eval, assign.
  cbn [ADAM.s ADAM.r ADAM.t ADAM.decay1 ADAM.decay2 ADAM.eta ADAM.lmbda].
  rewrite py_times_nd by len.
  rewrite decayed_accumulator by (assumption || len).
  rewrite adam_s_fused by exact Hbs.
  unfold nd at 1.
  cbn [ADAM.s ADAM.r ADAM.t ADAM.decay1 ADAM.decay2 ADAM.eta ADAM.lmbda
       ADAM.set_s].
  rewrite py_times_nd, nd_op_nd by len.
  rewrite decayed_accumulator by (assumption || len).
  rewrite (rmsprop_v_fused d2 (broadcast_to s r0) lg Hbr).
  change (Spec.rmsprop_v d2) with (Rules.adam_r d2).
  unfold nd at 1.
  cbn [ADAM.s ADAM.r ADAM.t ADAM.decay1 ADAM.decay2 ADAM.eta ADAM.lmbda
       ADAM.set_s ADAM.set_r].
  repeat match goal with
         | |- context [match ?x with Ok _ => _ | Raise _ => _ end] =>
             destruct x
         end;
    reflexivity.
Qed.

Lemma ADAM_call_keeps_accumulators (s : list nat) (c : call num)
    (self : ADAM.obj num) :
  calls_of_shape s [c] ->
  accumulator_of_shape s (ADAM.s self)
  /\ accumulator_of_shape s (ADAM.r self) ->
  accumulator_of_shape s (ADAM.s (ADAM_call pow self c))
  /\ accumulator_of_shape s (ADAM.r (ADAM_call pow self c)).
Proof.
  intros Hc [Hs Hr]. apply Forall_inv in Hc.
  destruct c as [[sg lg] [sth lth]|]; cbn [ADAM_call].
  - destruct Hc as (Hg & Hth & Hsg & Hsth). unfold wf in Hg, Hth.
    cbn [shape data] in *. subst sg sth.
    rewrite (ADAM_update_change_moments self lg lth Hs Hr Hg Hth).
    destruct self. cbn [ADAM.set_s ADAM.set_r ADAM.s ADAM.r].
    split; apply accumulator_array;
      rewrite map2_length, broadcast_to_length; lia.
  - destruct self. split; apply accumulator_scalar.
Qed.
Lemma ADAM_history_keeps_accumulators (s : list nat) (cs : list (call num))
    (self : ADAM.obj num) :
  calls_of_shape s cs ->
  accumulator_of_shape s (ADAM.s self)
  /\ accumulator_of_shape s (ADAM.r self) ->
  accumulator_of_shape s (ADAM.s (ADAM_history pow cs self))
  /\ accumulator_of_shape s (ADAM.r (ADAM_history pow cs self)).
Proof.
  unfold ADAM_history. revert self.
  induction cs as [|c cs IH]; intros self Hcs Hacc; cbn [fold_left];
    [exact Hacc|].
  apply IH.
  - exact (Forall_inv_tail Hcs).
  - apply ADAM_call_keeps_accumulators; [|exact Hacc].
    constructor; [exact (Forall_inv Hcs) | constructor].
Qed.

End AccumulatorFacts.

(** X3: ADAM's [update_change], on a gradient and a previous update of one
    shape, with moments that are the initial floats or arrays of that shape
    and bias-correction powers [p1 = decay1**t], [p2 = decay2**t] that
    evaluate, stores [s' = decay1*s + (1. - decay1)*gradient] and
    [r' = decay2*r + (1. - decay2)*gradient*gradient] and returns
    [eta * (s'/(1. - p1) / (sqrt(r'/(1. - p2)) + 1e-8))
     + lmbda * previous_update], element by element; [t] and the
    hyperparameters stay. *)
Theorem X3_ADAM_update_elementwise
    {num : Type} {A : Arith num} (pow : num -> Z -> result num)
    (self : ADAM.obj num) (g th : tensor num) (p1 p2 : num) :
  wf g -> wf th -> shape th = shape g ->
  accumulator_of_shape (shape g) (ADAM.s self) ->
  accumulator_of_shape (shape g) (ADAM.r self) ->
  pow (ADAM.decay1 self) (ADAM.t self) = Ok p1 ->
  pow (ADAM.decay2 self) (ADAM.t self) = Ok p2 ->
  let s' := map2 (Rules.adam_s (ADAM.decay1 self))
                 (broadcast_to (shape g) (ADAM.s self)) (data g) in
  let r' := map2 (Rules.adam_r (ADAM.decay2 self))
                 (broadcast_to (shape g) (ADAM.r self)) (data g) in
  ADAM.update_change pow g th self
  = (Ok (Tensor (shape g)
           (map2 (Rules.adam_out (ADAM.lmbda self))
                 (map2 (Rules.adam_step (ADAM.eta self) p1 p2) s' r')
                 (data th))),
     ADAM.Make (ADAM.eta self) (ADAM.decay1 self) (ADAM.decay2 self)
               (ADAM.lmbda self) (Tensor (shape g) s') (Tensor (shape g) r')
               (ADAM.t self)).
Proof.
  destruct g as [s lg], th as [s' lth]. unfold wf. cbn [shape data].
  intros Hg Hth -> Hs Hr Hp1 Hp2.
  rewrite (ADAM_update_change_formula pow self lg lth Hs Hr Hg Hth Hp1 Hp2).
  destruct self. reflexivity.
Qed.

Lemma X3_witness :
  let pow := fun (x : float) (n : Z) =>
               if (n =? 1)%Z then Ok x else Raise OverflowError in
  let self := ADAM.init 0.5%float 0.5%float 0.75%float 0.25%float in
  let g := Tensor [2] [4; -2]%float in
  let th := Tensor [2] [1; 8]%float in
  wf g /\ wf th /\ shape th = shape g
  /\ accumulator_of_shape (shape g) (ADAM.s self)
  /\ accumulator_of_shape (shape g) (ADAM.r self)
  /\ pow (ADAM.decay1 self) (ADAM.t self) = Ok 0.5%float
  /\ pow (ADAM.decay2 self) (ADAM.t self) = Ok 0.75%float
  /\ let s' := map2 (Rules.adam_s (ADAM.decay1 self))
                    (broadcast_to (shape g) (ADAM.s self)) (data g) in
     let r' := map2 (Rules.adam_r (ADAM.decay2 self))
                    (broadcast_to (shape g) (ADAM.r self)) (data g) in
     ADAM.update_change pow g th self
     = (Ok (Tensor (shape g)
              (map2 (Rules.adam_out (ADAM.lmbda self))
                    (map2 (Rules.adam_step (ADAM.eta self) 0.5%float
                             0.75%float) s' r')
                    (data th))),
        ADAM.Make (ADAM.eta self) (ADAM.decay1 self) (ADAM.decay2 self)
                  (ADAM.lmbda self) (Tensor (shape g) s')
                  (Tensor (shape g) r') (ADAM.t self)).
Proof.
  do 3 (split; [reflexivity|]).
  split; [apply accumulator_scalar|]. split; [apply accumulator_scalar|].
  do 2 (split; [reflexivity|]).
  apply (@X3_ADAM_update_elementwise float float64
           (fun (x : float) (n : Z) =>
              if (n =? 1)%Z then Ok x else Raise OverflowError)
           (ADAM.init 0.5%float 0.5%float 0.75%float 0.25%float)
           (Tensor [2] [4; -2]%float) (Tensor [2] [1; 8]%float)
           0.5%float 0.75%float);
    first [reflexivity | apply accumulator_scalar].
Defined.

(** X4: a fresh RMSprop instance never raises on arrays of one shape: after
    any history of [reset] calls and [update_change] calls on gradients and
    previous updates of shape [s], a further such call returns a tensor of
    shape [s]. *)
Theorem X4_RMSprop_run_returns
    {num : Type} {A : Arith num} (eta decay lmbda : num) (s : list nat)
    (cs : list (call num)) (g th : tensor num) :
  calls_of_shape s cs ->
  wf g -> wf th -> shape g = s -> shape th = s ->
  exists u,
    fst (RMSprop.update_change g th
           (RMSprop_history cs (RMSprop.init eta decay lmbda)))
    = Ok u
    /\ shape u = s /\ wf u.
Proof.
  intros Hcs Hg Hth Hsg Hsth.
  destruct g as [sg lg], th as [sth lth]. unfold wf in *.
  cbn [shape data] in *. subst sg sth.
  rewrite RMSprop_update_change_formula; try assumption.
  - eexists. split; [reflexivity|]. split; [reflexivity|].
    cbn [data shape]. rewrite !map2_length, broadcast_to_length. lia.
  - apply RMSprop_history_keeps_accumulator; [exact Hcs|].
    apply accumulator_scalar.
Qed.

Lemma X4_witness :
  let s := [2] in
  let cs := [Update (Tensor [2] [1; 2]%float) (Tensor [2] [0; 0]%float);
             Reset;
             Update (Tensor [2] [3; -1]%float) (Tensor [2] [1; 1]%float)] in
  let g := Tensor [2] [3; -4]%float in
  let th := Tensor [2] [1; -2]%float in
  calls_of_shape s cs /\ wf g /\ wf th /\ shape g = s /\ shape th = s
  /\ exists u,
       fst (RMSprop.update_change g th
              (RMSprop_history cs
                 (RMSprop.init 0.5%float 0.75%float 0.125%float)))
       = Ok u
       /\ shape u = s /\ wf u.
Proof.
  split; [repeat constructor|]. do 4 (split; [reflexivity|]).
  apply (@X4_RMSprop_run_returns float float64
           0.5%float 0.75%float 0.125%float [2]
           [Update (Tensor [2] [1; 2]%float) (Tensor [2] [0; 0]%float);
            Reset;
            Update (Tensor [2] [3; -1]%float) (Tensor [2] [1; 1]%float)]
           (Tensor [2] [3; -4]%float) (Tensor [2] [1; -2]%float));
    first [reflexivity | repeat constructor].
Defined.

(** ** [reset] after a history *)

Section ResetFacts.
Context {num : Type} {A : Arith num}.
Variable pow : num -> Z -> result num.

(** [update_change] assigns [rmsProp_update] only, also when it raises. *)
Lemma RMSprop_update_change_reset (self : RMSprop.obj num)
    (g th : tensor num) :
  RMSprop.reset (snd (RMSprop.update_change g th self)) = RMSprop.reset self.
Proof.
  destruct self as [e v d l].
  unfold RMSprop.update_change, bind, eval, assign.
  repeat match goal with
         | |- context [match ?x with Ok _ => _ | Raise _ => _ end] =>
             destruct x
         end;
    reflexivity.
Qed.

Lemma RMSprop_history_reset (cs : list (call num)) (self : RMSprop.obj num) :
  RMSprop.reset (RMSprop_history cs self) = RMSprop.reset self.
Proof.
  unfold RMSprop_history. revert self.
  induction cs as [|c cs IH]; intros self; cbn [fold_left]; [reflexivity|].
  rewrite IH. destruct c as [g th|]; cbn [RMSprop_call].
  - apply RMSprop_update_change_reset.
  - destruct self; reflexivity.
Qed.

Lemma ADAM_history_t (cs : list (call num)) (self : ADAM.obj num) :
  ADAM.t (ADAM_history pow cs self) = (ADAM.t self + count_resets cs)%Z
  /\ ADAM.reset (ADAM_history pow cs self)
     = ADAM.set_t (ADAM.t self + count_resets cs + 1) (ADAM.reset self).
Proof.
  unfold ADAM_history, count_resets. revert self.
  induction cs as [|c cs IH]; intros self; cbn [fold_left filter length].
  - rewrite Z.add_0_r. destruct self. split; reflexivity.
  - destruct (IH (ADAM_call pow self c)) as [IHt IHr].
    rewrite IHt, IHr. clear IH IHt IHr.
    destruct c as [g th|]; cbn [ADAM_call length].
    + pose proof (ADAM_update_change_frame pow self g th) as Hf.
      destruct (snd (ADAM.update_change pow g th self)) as [e' a' b' l' s' r' t'].
      destruct self as [e a b l s0 r0 t0].
      unfold ADAM_frame in Hf.
      cbn [ADAM.eta ADAM.decay1 ADAM.decay2 ADAM.lmbda ADAM.t] in Hf.
      injection Hf as -> -> -> -> ->.
      split; reflexivity.
    + destruct self as [e a b l s0 r0 t0].
      unfold ADAM.reset, ADAM.set_t, ADAM.set_r, ADAM.set_s.
      cbn [ADAM.t ADAM.eta ADAM.decay1 ADAM.decay2 ADAM.lmbda ADAM.s ADAM.r].
      rewrite Nat2Z.inj_succ.
      split; [lia | f_equal; lia].
Qed.

End ResetFacts.

(** The hyperparameters and the step counter after a history. *)
Lemma ADAM_history_decays {num : Type} {A : Arith num}
    (pow : num -> Z -> result num) (cs : list (call num))
    (self : ADAM.obj num) :
  ADAM.decay1 (ADAM_history pow cs self) = ADAM.decay1 self
  /\ ADAM.decay2 (ADAM_history pow cs self) = ADAM.decay2 self.
Proof.
  unfold ADAM_history. revert self.
  induction cs as [|c cs IH]; intros self; cbn [fold_left];
    [split; reflexivity|].
  destruct (IH (ADAM_call pow self c)) as [-> ->].
  destruct c as [g th|]; cbn [ADAM_call].
  - destruct (ADAM_frame_t (ADAM_update_change_frame pow self g th))
      as (_ & H1 & H2).
    split; assumption.
  - destruct self. split; reflexivity.
Qed.

(** X5: a fresh ADAM instance does not raise on arrays of one shape when the
    two powers [decay1 ** t] and [decay2 ** t] evaluate at the step counter
    the history has reached, [t = 1 + ] the number of resets: after any
    history of [reset] calls and [update_change] calls on gradients and
    previous updates of shape [s], whether those calls returned or raised, a
    further such call returns a tensor of shape [s]. *)
Theorem X5_ADAM_run_returns
    {num : Type} {A : Arith num} (pow : num -> Z -> result num)
    (eta decay1 decay2 lmbda : num) (s : list nat)
    (cs : list (call num)) (g th : tensor num) :
  (exists p1, pow decay1 (1 + count_resets cs)%Z = Ok p1) ->
  (exists p2, pow decay2 (1 + count_resets cs)%Z = Ok p2) ->
  calls_of_shape s cs ->
  wf g -> wf th -> shape g = s -> shape th = s ->
  exists u,
    fst (ADAM.update_change pow g th
           (ADAM_history pow cs (ADAM.init eta decay1 decay2 lmbda)))
    = Ok u
    /\ shape u = s /\ wf u.
Proof.
  intros [p1 Hp1] [p2 Hp2] Hcs Hg Hth Hsg Hsth.
  destruct g as [sg lg], th as [sth lth]. unfold wf in *.
  cbn [shape data] in *. subst sg sth.
  set (self := ADAM_history pow cs (ADAM.init eta decay1 decay2 lmbda)).
  destruct (@ADAM_history_keeps_accumulators _ _ pow s cs
              (ADAM.init eta decay1 decay2 lmbda) Hcs
              (conj (accumulator_scalar s lit_0) (accumulator_scalar s lit_0)))
    as [Hs Hr].
  destruct (ADAM_history_decays pow cs (ADAM.init eta decay1 decay2 lmbda))
    as [Hd1 Hd2].
  destruct (ADAM_history_t pow cs (ADAM.init eta decay1 decay2 lmbda))
    as [Ht _].
  fold self in Hs, Hr, Hd1, Hd2, Ht. cbn [ADAM.init ADAM.decay1 ADAM.decay2
                                          ADAM.t] in Hd1, Hd2, Ht.
  rewrite <- Hd1, <- Ht in Hp1. rewrite <- Hd2, <- Ht in Hp2.
  rewrite (ADAM_update_change_formula pow self lg lth Hs Hr Hg Hth Hp1 Hp2).
  eexists. split; [reflexivity|]. split; [reflexivity|].
  cbn [data shape]. rewrite !map2_length, !broadcast_to_length. lia.
Qed.

(** An instance on binary64: [decay ** 1] is [decay] and [decay ** 2] is
    [decay * decay], which is exact for the decay rates [0.5] and [0.75];
    the history has one reset, so the last call is made at [t = 2]. *)
Lemma X5_witness :
  let pow := fun (x : float) (n : Z) =>
               if (n =? 1)%Z then Ok x
               else if (n =? 2)%Z then Ok (x * x)%float
               else Raise OverflowError in
  let s := [2] in
  let cs := [Update (Tensor [2] [1; 2]%float) (Tensor [2] [0; 0]%float);
             Reset] in
  let g := Tensor [2] [3; -4]%float in
  let th := Tensor [2] [1; -2]%float in
  (exists p1, pow 0.5%float (1 + count_resets cs)%Z = Ok p1)
  /\ (exists p2, pow 0.75%float (1 + count_resets cs)%Z = Ok p2)
  /\ calls_of_shape s cs /\ wf g /\ wf th /\ shape g = s /\ shape th = s
  /\ exists u,
       fst (ADAM.update_change pow g th
              (ADAM_history pow cs
                 (ADAM.init 0.5%float 0.5%float 0.75%float 0.125%float)))
       = Ok u
       /\ shape u = s /\ wf u.
Proof.
  cbv zeta.
  split; [eexists; reflexivity|]. split; [eexists; reflexivity|].
  split; [repeat constructor|]. do 4 (split; [reflexivity|]).
  apply (@X5_ADAM_run_returns float float64
           (fun (x : float) (n : Z) =>
              if (n =? 1)%Z then Ok x
              else if (n =? 2)%Z then Ok (x * x)%float
              else Raise OverflowError)
           0.5%float 0.5%float 0.75%float 0.125%float [2]
           [Update (Tensor [2] [1; 2]%float) (Tensor [2] [0; 0]%float);
            Reset]
           (Tensor [2] [3; -4]%float) (Tensor [2] [1; -2]%float));
    first [reflexivity | eexists; reflexivity | solve [repeat constructor]].
Defined.

(** X6: RMSprop's [reset] undoes any history: after any calls, with any
    arguments, whether they returned or raised, [reset] gives back the
    instance as constructed, and the next [update_change] has the outcome it
    has on a fresh instance. *)
Theorem X6_RMSprop_reset_restores_fresh
    {num : Type} {A : Arith num} (eta decay lmbda : num)
    (cs : list (call num)) (g th : tensor num) :
  RMSprop.reset (RMSprop_history cs (RMSprop.init eta decay lmbda))
  = RMSprop.init eta decay lmbda
  /\ RMSprop.update_change g th
       (RMSprop.reset (RMSprop_history cs (RMSprop.init eta decay lmbda)))
     = RMSprop.update_change g th (RMSprop.init eta decay lmbda).
Proof.
  rewrite RMSprop_history_reset. split; reflexivity.
Qed.

(** X7: Adagrad's [reset] undoes any history: after any calls, with any
    arguments, whether they returned or raised, [reset] gives back the
    instance as constructed. *)
Theorem X7_Adagrad_reset_restores_fresh
    {num : Type} {A : Arith num} (eta mom lmbda : num) (lp : Z)
    (cs : list (call num)) :
  Adagrad.reset (Adagrad_history cs (Adagrad.init eta mom lmbda lp))
  = Adagrad.init eta mom lmbda lp.
Proof.
  pose proof (Adagrad_history_keeps_hyper cs
                (Adagrad.init eta mom lmbda lp)) as H.
  destruct (Adagrad_history cs (Adagrad.init eta mom lmbda lp))
    as [e m a l k].
  unfold Adagrad_hyper, Adagrad.init in H.
  cbn [Adagrad.eta Adagrad.mom Adagrad.lmbda Adagrad.lp] in H.
  injection H as -> -> -> ->. reflexivity.
Qed.

(** X8: ADAM's step counter counts the [reset] calls: after any history, with
    any arguments, whether the calls returned or raised, [t] is its old value
    plus the number of resets.  So [reset] never gives back a fresh instance:
    after a history with [n] resets it gives the instance as constructed but
    with [t = n + 2]. *)
Theorem X8_ADAM_t_counts_resets
    {num : Type} {A : Arith num} (pow : num -> Z -> result num)
    (self : ADAM.obj num) (eta decay1 decay2 lmbda : num)
    (cs : list (call num)) :
  ADAM.t (ADAM_history pow cs self) = (ADAM.t self + count_resets cs)%Z
  /\ ADAM.reset (ADAM_history pow cs (ADAM.init eta decay1 decay2 lmbda))
     = ADAM.set_t (count_resets cs + 2)
                  (ADAM.init eta decay1 decay2 lmbda)
  /\ ADAM.reset (ADAM_history pow cs (ADAM.init eta decay1 decay2 lmbda))
     <> ADAM.init eta decay1 decay2 lmbda.
Proof.
  destruct (ADAM_history_t pow cs self) as [Ht _].
  destruct (ADAM_history_t pow cs (ADAM.init eta decay1 decay2 lmbda))
    as [_ Hr].
  split; [exact Ht|].
  assert (Hn : (0 <= count_resets cs)%Z) by (unfold count_resets; lia).
  rewrite Hr. unfold ADAM.init, ADAM.reset, ADAM.set_t, ADAM.set_r, ADAM.set_s.
  cbn [ADAM.t ADAM.eta ADAM.decay1 ADAM.decay2 ADAM.lmbda ADAM.s ADAM.r].
  split; [f_equal; lia|].
  intros H. apply (f_equal ADAM.t) in H. cbn [ADAM.t] in H. lia.
Qed.

(** * Activation functions *)

Ltac act_unfold :=
  cbv [np_where np_gt0 np_negative np_exp np_tanh np_power
       eval bind assign raise ret py nd arg scalar lift2 lift1 unop np_sqrt
       np_sign fst snd shape data].

Ltac act_eval := repeat (act_unfold; py_binop).

Section WhereFacts.
Context {num : Type} {A : Arith num} {O : Ordered num}.

Lemma map_seq_nth2 (F : bool -> num -> num) (lc : list bool)
    (lx : list num) (dc : bool) (dx : num) :
  length lc = length lx ->
  map (fun i => F (nth i lc dc) (nth i lx dx)) (seq 0 (length lx))
  = map (fun p => F (fst p) (snd p)) (combine lc lx).
Proof.
  revert lx. induction lc as [|c lc IH]; intros [|x lx] Hlen;
    cbn [length] in Hlen; try discriminate; [reflexivity|].
  cbn [length seq map combine nth fst snd]. f_equal.
  rewrite <- seq_shift, map_map. apply IH. lia.
Qed.

Lemma map_seq_nth3 (F : bool -> num -> num -> num) (lc : list bool)
    (lx ly : list num) (dc : bool) (dx dy : num) :
  length lc = length lx -> length ly = length lx ->
  map (fun i => F (nth i lc dc) (nth i lx dx) (nth i ly dy))
      (seq 0 (length lx))
  = map (fun p => F (fst p) (fst (snd p)) (snd (snd p)))
        (combine lc (combine lx ly)).
Proof.
  revert lx ly. induction lc as [|c lc IH]; intros [|x lx] [|y ly] Hc Hy;
    cbn [length] in Hc, Hy; try discriminate; [reflexivity|].
  cbn [length seq map combine nth fst snd]. f_equal.
  rewrite <- seq_shift, map_map. apply IH; lia.
Qed.

(** [where] on a condition and an array of one shape and a Python float. *)
Lemma where3_scalar (s : list nat) (lc : list bool) (lx : list num)
    (c : num) :
  length lc = size s -> length lx = size s ->
  where3 (Tensor s lc) (Tensor s lx) (Tensor [] [c])
  = Ok (Tensor s (map (fun p : bool * num => if fst p then snd p else c)
                      (combine lc lx))).
Proof.
  intros Hc Hx. unfold where3. cbn [shape data].
  rewrite broadcast_shapes_refl, broadcast_shapes_nil_r.
  do 2 f_equal.
  rewrite <- (@map_seq_nth2 (fun b x => if b then x else c) lc lx
                false lit_0) by congruence.
  rewrite Hx. apply map_ext_in. intros i Hi. apply in_seq in Hi.
  rewrite !bidx_refl by (rewrite size_rev; lia).
  rewrite bidx_nil. reflexivity.
Qed.

(** [where] on three arrays of one shape. *)
Lemma where3_same (s : list nat) (lc : list bool) (lx ly : list num) :
  length lc = size s -> length lx = size s -> length ly = size s ->
  where3 (Tensor s lc) (Tensor s lx) (Tensor s ly)
  = Ok (Tensor s (map (fun p : bool * (num * num) =>
                         if fst p then fst (snd p) else snd (snd p))
                      (combine lc (combine lx ly)))).
Proof.
  intros Hc Hx Hy. unfold where3. cbn [shape data].
  rewrite !broadcast_shapes_refl.
  do 2 f_equal.
  rewrite <- (@map_seq_nth3 (fun b x y => if b then x else y) lc lx ly
                false lit_0 lit_0) by congruence.
  rewrite Hx. apply map_ext_in. intros i Hi. apply in_seq in Hi.
  rewrite !bidx_refl by (rewrite size_rev; lia).
  reflexivity.
Qed.

Lemma combine_gt0_scalar (c : num) (l : list num) :
  map (fun p : bool * num => if fst p then snd p else c)
      (combine (map gt0 l) l)
  = map (fun x => if gt0 x then x else c) l.
Proof.
  induction l as [|x l IH]; cbn [map combine fst snd]; [reflexivity|].
  now rewrite IH.
Qed.

Lemma combine_gt0_map (h : num -> num) (l : list num) :
  map (fun p : bool * (num * num) =>
         if fst p then fst (snd p) else snd (snd p))
      (combine (map gt0 l) (combine l (map h l)))
  = map (fun x => if gt0 x then x else h x) l.
Proof.
  induction l as [|x l IH]; cbn [map combine fst snd]; [reflexivity|].
  now rewrite IH.
Qed.

Lemma ReLU_eval (s : list nat) (l : list num) :
  length l = size s ->
  ReLU (Tensor s l)
  = Ok (Tensor s (map (fun x => if gt0 x then x else lit_0) l)).
Proof.
  intros Hl. unfold ReLU. act_unfold.
  rewrite where3_scalar by len. now rewrite combine_gt0_scalar.
Qed.

Lemma LeakyReLU_eval (s : list nat) (l : list num) (alpha : num) :
  length l = size s ->
  LeakyReLU (Tensor s l) alpha
  = Ok (Tensor s (map (fun x => if gt0 x then x else fmul alpha x) l)).
Proof.
  intros Hl. unfold LeakyReLU. act_eval.
  rewrite where3_same by len. now rewrite combine_gt0_map.
Qed.

Lemma relu_twice (x : num) :
  (if gt0 (if gt0 x then x else lit_0)
   then (if gt0 x then x else lit_0) else lit_0)
  = (if gt0 x then x else lit_0).
Proof.
  destruct (gt0 x) eqn:Hx.
  - now rewrite Hx.
  - destruct (gt0 lit_0); reflexivity.
Qed.

End WhereFacts.

(** X9: ReLU keeps the shape of its argument, replaces every entry that is
    not greater than zero by [0] and keeps the others, and applying it twice
    is the same as applying it once. *)
Theorem X9_ReLU_elementwise_idempotent
    {num : Type} {A : Arith num} {O : Ordered num} (z : tensor num) :
  wf z ->
  let u := Tensor (shape z)
                  (map (fun x => if gt0 x then x else lit_0) (data z)) in
  ReLU z = Ok u /\ ReLU u = Ok u.
Proof.
  destruct z as [s l]. unfold wf. cbn [shape data]. intros Hl.
  split; [apply ReLU_eval; exact Hl|].
  rewrite ReLU_eval by len.
  rewrite map_map. do 2 f_equal.
  apply map_ext. intros x. apply relu_twice.
Qed.

Lemma X9_witness :
  let z := Tensor [2; 2] [1.5; -2; 0; 1024]%float in
  wf z
  /\ let u := Tensor (shape z)
                     (map (fun x => if gt0 x then x else lit_0) (data z)) in
     ReLU z = Ok u /\ ReLU u = Ok u.
Proof.
  split; [reflexivity|].
  apply (@X9_ReLU_elementwise_idempotent float float64 float64_ordered
           (Tensor [2; 2] [1.5; -2; 0; 1024]%float)).
  reflexivity.
Defined.

(** X10: LeakyReLU keeps the shape of its argument and its entries greater
    than zero, and multiplies every other entry by [alpha]. *)
Theorem X10_LeakyReLU_elementwise
    {num : Type} {A : Arith num} {O : Ordered num} (z : tensor num)
    (alpha : num) :
  wf z ->
  LeakyReLU z alpha
  = Ok (Tensor (shape z)
          (map (fun x => if gt0 x then x else fmul alpha x) (data z))).
Proof.
  destruct z as [s l]. unfold wf. cbn [shape data]. intros Hl.
  apply LeakyReLU_eval. exact Hl.
Qed.

Lemma X10_witness :
  let z := Tensor [3] [4; -8; 0]%float in
  wf z
  /\ LeakyReLU z 0.25%float
     = Ok (Tensor (shape z)
             (map (fun x => if gt0 x then x else fmul 0.25%float x)
                  (data z))).
Proof.
  split; [reflexivity|].
  apply (@X10_LeakyReLU_elementwise float float64 float64_ordered
           (Tensor [3] [4; -8; 0]%float) 0.25%float).
  reflexivity.
Defined.

(** ** ReLU on binary64 *)

Lemma float_gt0_facts (x : float) :
  PrimFloat.ltb 0%float x = true ->
  PrimFloat.is_nan x = false /\ PrimFloat.ltb x 0%float = false.
Proof.
  unfold PrimFloat.is_nan. rewrite !ltb_spec, eqb_spec.
  change (Prim2SF 0%float) with (S754_zero false).
  destruct (Prim2SF x) as [s|s| |s m e]; cbn; intros H; try discriminate.
  - destruct s; try discriminate. split; reflexivity.
  - destruct s; try discriminate. cbn.
    rewrite Z.compare_refl, Pos.compare_cont_refl. split; reflexivity.
Qed.

Lemma float_relu_entry (x : float) :
  let y := if gt0 x then x else lit_0 in
  negb (PrimFloat.is_nan y) && negb (PrimFloat.ltb y 0%float) = true.
Proof.
  cbv zeta. cbn [gt0 float64_ordered lit_0 float64].
  destruct (PrimFloat.ltb 0%float x) eqn:Hx.
  - destruct (@float_gt0_facts x Hx) as [-> ->]. reflexivity.
  - reflexivity.
Qed.

(** X11: on binary64, ReLU never returns a NaN or a negative number, whatever
    its argument holds: a NaN entry, not being greater than zero, becomes
    [0.0] like the negative ones. *)
Theorem X11_ReLU_binary64_never_nan_or_negative (z : tensor float) :
  wf z ->
  exists u,
    ReLU z = Ok u
    /\ shape u = shape z
    /\ forallb (fun y => negb (PrimFloat.is_nan y)
                         && negb (PrimFloat.ltb y 0%float)) (data u)
       = true.
Proof.
  destruct z as [s l]. unfold wf. cbn [shape data]. intros Hl.
  rewrite ReLU_eval by exact Hl.
  eexists. split; [reflexivity|]. split; [reflexivity|].
  cbn [data]. clear Hl.
  induction l as [|x l IH]; [reflexivity|].
  cbn [map forallb]. rewrite IH, andb_true_r.
  apply float_relu_entry.
Qed.

Lemma X11_witness :
  let z := Tensor [4] [nan; neg_infinity; -0; 2.5]%float in
  wf z
  /\ exists u,
       ReLU z = Ok u
       /\ shape u = shape z
       /\ forallb (fun y => negb (PrimFloat.is_nan y)
                            && negb (PrimFloat.ltb y 0%float)) (data u)
          = true.
Proof.
  split; [reflexivity|].
  apply (@X11_ReLU_binary64_never_nan_or_negative
           (Tensor [4] [nan; neg_infinity; -0; 2.5]%float)).
  reflexivity.
Defined.

(** ** The smooth activations *)

Section SmoothFacts.
Context {num : Type} {A : Arith num} {O : Ordered num} {E : Elementary num}.

Lemma map2_map_diag (f : num -> num -> num) (h : num -> num)
    (l : list num) :
  map2 f l (map h l) = map (fun x => f x (h x)) l.
Proof. induction l as [|x l IH]; cbn [map map2]; [reflexivity|]. now rewrite IH. Qed.

Lemma sigmoid_eval (s : list nat) (l : list num) :
  length l = size s ->
  sigmoid (Tensor s l) = Ok (Tensor s (map Pointwise.sigmoid l)).
Proof.
  intros Hl. unfold sigmoid. act_eval. now rewrite !map_map.
Qed.

Lemma SiLU_eval (s : list nat) (l : list num) :
  length l = size s ->
  SiLU (Tensor s l) = Ok (Tensor s (map Pointwise.SiLU l)).
Proof.
  intros Hl. unfold SiLU. rewrite sigmoid_eval by exact Hl.
  act_eval. now rewrite map2_map_diag.
Qed.

Lemma ELU_eval (s : list nat) (l : list num) (alpha : num) :
  length l = size s ->
  ELU (Tensor s l) alpha = Ok (Tensor s (map (Pointwise.ELU alpha) l)).
Proof.
  intros Hl. unfold ELU. act_eval.
  rewrite where3_same by len.
  rewrite !map_map.
  now rewrite (combine_gt0_map
                 (fun x => fmul alpha (fsub (fexp x) lit_1)) l).
Qed.

Lemma GELU_eval (s : list nat) (l : list num) :
  length l = size s ->
  GELU (Tensor s l) = Ok (Tensor s (map Pointwise.GELU l)).
Proof.
  intros Hl. unfold GELU. act_eval. do 2 f_equal. clear Hl.
  induction l as [|x l IH]; cbn [map map2]; [reflexivity|].
  now rewrite IH.
Qed.

End SmoothFacts.

Lemma tabulate_wf {num : Type} (s : list nat) (f : nat -> num) :
  wf (tabulate s f).
Proof.
  unfold wf, tabulate. cbn [shape data]. now rewrite length_map, length_seq.
Qed.

Lemma wf_tabulate {num : Type} (t : tensor num) (d : num) :
  wf t -> t = tabulate (shape t) (fun i => nth i (data t) d).
Proof.
  destruct t as [s l]. unfold wf, tabulate. cbn [shape data]. intros H.
  f_equal. rewrite <- H. symmetry. apply map_nth_seq.
Qed.

Section SpecFloatMore.
Variables prec emax : Z.

Lemma SFdiv_signed (sx : bool) (mx : positive) (ex : Z) (sy : bool)
    (y : spec_float) :
  nonzero_signed sy y ->
  signed (xorb sx sy) (SFdiv prec emax (S754_finite sx mx ex) y).
Proof.
  destruct y as [s|s| |s my ey]; cbn [nonzero_signed SFdiv signed];
    intros H; try contradiction; subst; try reflexivity.
  pose proof (SFdiv_core_nonneg prec emax mx my ex ey) as Hq.
  destruct (SFdiv_core_binary prec emax (Zpos mx) ex (Zpos my) ey)
    as [[mz ez] lz].
  cbn [fst] in Hq. apply binary_round_aux_signed. exact Hq.
Qed.

End SpecFloatMore.

Lemma leb_0_spec (e : float) :
  PrimFloat.leb 0 e = true <->
  match Prim2SF e with
  | S754_zero _ => True
  | S754_finite s _ _ | S754_infinity s => s = false
  | S754_nan => False
  end.
Proof.
  rewrite leb_spec. change (Prim2SF 0) with (S754_zero false).
  destruct (Prim2SF e) as [s|[|]| |[|] m ex]; unfold SFleb;
    cbn [SFcompare]; split; intros H; try discriminate; try reflexivity;
    try exact I; try contradiction.
Qed.

Lemma signed_false_facts (y : float) :
  signed false (Prim2SF y) ->
  PrimFloat.is_nan y = false /\ PrimFloat.leb 0 y = true.
Proof.
  intros H. split.
  - apply not_nan_spec. eapply signed_not_nan, H.
  - apply leb_0_spec. destruct (Prim2SF y); cbn [signed] in H;
      try contradiction; auto.
Qed.

(** [1 / (1 + e)] for an [e] that is not below zero. *)
Lemma one_over_one_plus (e : float) :
  PrimFloat.leb 0 e = true ->
  signed false (Prim2SF (1 / (1 + e))%float).
Proof.
  rewrite leb_0_spec. intros He.
  rewrite div_spec, add_spec.
  change (Prim2SF 1) with (S754_finite false 4503599627370496 (-52)).
  change false with (xorb false false) at 1.
  apply SFdiv_signed.
  destruct (Prim2SF e) as [s|s| |s m ex] eqn:E; try contradiction.
  - reflexivity.
  - subst. reflexivity.
  - subst. apply SFadd_above_zero; [reflexivity | discriminate | reflexivity].
Qed.

(** X12: on binary64, whatever the library's [exp] returns, [sigmoid] on an
    array of any shape returns the array of that shape with
    [1 / (1 + exp(-z))] in every entry; and wherever [exp(-z)] is not below
    zero (as an exponential never is), the entry is neither NaN nor below
    zero: the sum [1 + exp(-z)] is above zero and the division is defined,
    also when [exp(-z)] overflows to an infinity. *)
Theorem X12_sigmoid_binary64_not_negative
    (E : Elementary float) (s : list nat) (f : nat -> float) :
  sigmoid (tabulate s f)
  = Ok (tabulate s (fun i => Pointwise.sigmoid (f i)))
  /\ forall x : float,
       PrimFloat.leb 0 (fexp (fneg x)) = true ->
       PrimFloat.is_nan (Pointwise.sigmoid x) = false
       /\ PrimFloat.leb 0 (Pointwise.sigmoid x) = true.
Proof.
  split.
  - unfold tabulate. rewrite sigmoid_eval
      by (now rewrite length_map, length_seq).
    now rewrite map_map.
  - intros x Hx. apply signed_false_facts.
    unfold Pointwise.sigmoid.
    cbn [fdiv fadd lit_1 float64 fneg float64_ordered].
    apply one_over_one_plus. exact Hx.
Qed.

(** X13: [SiLU(z)] is [z] times what [sigmoid] returns on [z], entry by
    entry: [sigmoid] returns an array of the shape of [z], and [SiLU] the
    products of the entries of [z] with its entries. *)
Theorem X13_SiLU_is_z_times_sigmoid
    {num : Type} {A : Arith num} {O : Ordered num} {E : Elementary num}
    (z : tensor num) :
  wf z ->
  exists sg,
    sigmoid z = Ok sg
    /\ shape sg = shape z /\ wf sg
    /\ SiLU z = Ok (Tensor (shape z) (map2 fmul (data z) (data sg))).
Proof.
  destruct z as [s l]. unfold wf. cbn [shape data]. intros Hl.
  rewrite sigmoid_eval, SiLU_eval by exact Hl.
  eexists. split; [reflexivity|]. cbn [shape data].
  split; [reflexivity|]. split; [now rewrite length_map|].
  now rewrite map2_map_diag.
Qed.

Lemma X13_witness :
  let z := Tensor [2] [0; -3]%R in
  wf z
  /\ exists sg,
       sigmoid z = Ok sg
       /\ shape sg = shape z /\ wf sg
       /\ SiLU z = Ok (Tensor (shape z) (map2 fmul (data z) (data sg))).
Proof.
  split; [reflexivity|].
  apply (@X13_SiLU_is_z_times_sigmoid R exact exact_ordered exact_elementary
           (Tensor [2] [0; -3]%R)).
  reflexivity.
Defined.

(** X14: GELU keeps the shape of its argument and returns
    [0.5*z*(1 + tanh(sqrt(2/pi)*(z + 0.044715*z**3)))] in every entry, the
    Python floats of the formula being broadcast against the array. *)
Theorem X14_GELU_elementwise
    {num : Type} {A : Arith num} {O : Ordered num} {E : Elementary num}
    (z : tensor num) :
  wf z ->
  GELU z = Ok (Tensor (shape z) (map Pointwise.GELU (data z))).
Proof.
  destruct z as [s l]. unfold wf. cbn [shape data]. intros Hl.
  apply GELU_eval. exact Hl.
Qed.

Lemma X14_witness :
  let z := Tensor [2] [0; -3]%R in
  wf z /\ GELU z = Ok (Tensor (shape z) (map Pointwise.GELU (data z))).
Proof.
  split; [reflexivity|].
  apply (@X14_GELU_elementwise R exact exact_ordered exact_elementary
           (Tensor [2] [0; -3]%R)).
  reflexivity.
Defined.

Lemma map_id_where {num : Type} (c : num -> bool) (h : num -> num)
    (l : list num) :
  forallb c l = true -> map (fun x => if c x then x else h x) l = l.
Proof.
  induction l as [|x l IH]; cbn [forallb map]; [reflexivity|].
  intros H. apply andb_prop in H. destruct H as [Hx Hl].
  now rewrite Hx, IH.
Qed.

(** X15: ELU keeps the shape of its argument, keeps its entries greater
    than zero and returns [alpha*(exp(z) - 1)] in the others; so on an array
    whose entries are all greater than zero ELU, LeakyReLU and ReLU return
    the array itself, whatever [alpha] and [exp] are. *)
Theorem X15_ELU_elementwise_identity_above_zero
    {num : Type} {A : Arith num} {O : Ordered num} {E : Elementary num}
    (z : tensor num) (alpha : num) :
  wf z ->
  ELU z alpha = Ok (Tensor (shape z) (map (Pointwise.ELU alpha) (data z)))
  /\ (forallb gt0 (data z) = true ->
      ELU z alpha = Ok z /\ LeakyReLU z alpha = Ok z /\ ReLU z = Ok z).
Proof.
  destruct z as [s l]. unfold wf. cbn [shape data]. intros Hl.
  split; [apply ELU_eval; exact Hl|].
  intros Hpos.
  rewrite ELU_eval, LeakyReLU_eval, ReLU_eval by exact Hl.
  unfold Pointwise.ELU.
  rewrite (map_id_where gt0 (fun x => fmul alpha (fsub (fexp x) lit_1)) l Hpos).
  rewrite (map_id_where gt0 (fun x => fmul alpha x) l Hpos).
  rewrite (map_id_where gt0 (fun _ => lit_0) l Hpos).
  repeat split.
Qed.

Lemma X15_witness :
  let z := Tensor [2] [2; 3]%R in
  wf z
  /\ forallb gt0 (data z) = true
  /\ ELU z 1%R = Ok (Tensor (shape z) (map (Pointwise.ELU 1%R) (data z)))
  /\ ELU z 1%R = Ok z /\ LeakyReLU z 1%R = Ok z /\ ReLU z = Ok z.
Proof.
  split; [reflexivity|].
  assert (Hpos : forallb gt0 (data (Tensor [2] [2; 3]%R)) = true).
  { cbn. repeat (destruct (Rlt_dec _ _); [|lra]). reflexivity. }
  split; [exact Hpos|].
  destruct (@X15_ELU_elementwise_identity_above_zero
              R exact exact_ordered exact_elementary
              (Tensor [2] [2; 3]%R) 1%R eq_refl) as [H1 H2].
  split; [exact H1|]. apply H2. exact Hpos.
Defined.

(** * The PDE classes *)

Lemma binop_scalars {num : Type} {A : Arith num} (f : num -> num -> num)
    (a b : num) :
  binop f (Tensor [] [a]) (Tensor [] [b]) = Ok (Tensor [] [f a b]).
Proof. reflexivity. Qed.

Ltac pde_unfold :=
  cbv [np_sin np_cos np_where np_gt0 np_negative np_exp np_tanh np_power
       eval bind assign raise ret py nd arg scalar lift2 lift1 unop np_sqrt
       np_sign fst snd shape data].

Ltac pde_eval :=
  repeat (pde_unfold; rewrite ?binop_scalars; cbn [map]; py_binop).

Section PDEFacts.
Context {num : Type} {A : Arith num} {O : Ordered num} {E : Elementary num}.

Lemma h1_lists (amp xN : num) (lt lx : list num) :
  length lt = length lx ->
  map2 fmul (map (fsub lit_1) lt)
       (map (fmul amp)
            (map fsin (map (fun x => fdiv x xN) (map (fmul lit_pi) lx))))
  = map2 (At.Diffusion1D_h1 amp xN) lt lx.
Proof.
  revert lx. induction lt as [|t lt IH]; intros [|x lx] Hlen;
    cbn [length] in Hlen; try discriminate; [reflexivity|].
  cbn [map map2]. rewrite IH by lia. reflexivity.
Qed.

Lemma B_lists (xN : num) (lt lx : list num) :
  length lt = length lx ->
  map2 fmul
       (map2 fmul (map (fun x => fdiv x xN) lx)
             (map (fsub lit_1) (map (fun x => fdiv x xN) lx)))
       lt
  = map2 (At.Diffusion1D_B xN) lt lx.
Proof.
  revert lx. induction lt as [|t lt IH]; intros [|x lx] Hlen;
    cbn [length] in Hlen; try discriminate; [reflexivity|].
  cbn [map map2]. rewrite IH by lia. reflexivity.
Qed.

Lemma analytical_lists (amp Df : num) (lx lt : list num) :
  length lx = length lt ->
  map2 fmul
       (map (fmul amp)
            (map fexp
                 (map (fun x => fdiv x (fpowz lit_1 2))
                      (map (fmul (fmul (fneg (fpowz lit_pi 2)) Df)) lt))))
       (map fsin (map (fun x => fdiv x lit_1) (map (fmul lit_pi) lx)))
  = map2 (At.Diffusion1D_analytical amp Df) lx lt.
Proof.
  revert lt. induction lx as [|x lx IH]; intros [|t lt] Hlen;
    cbn [length] in Hlen; try discriminate; [reflexivity|].
  cbn [map map2]. rewrite IH by lia. reflexivity.
Qed.

Lemma Diffusion1D_trail_function_eval (self : Diffusion1D.obj num)
    (s : list nat) (lt lx : list num) (x0 xN : num) :
  length lt = size s -> length lx = size s ->
  Diffusion1D.trail_function (Tensor s lt, Tensor s lx) (x0, xN) self
  = (Ok tt,
     Diffusion1D.Make (Diffusion1D.amp self) (Diffusion1D.Df self)
       (Some (Tensor s (map2 (At.Diffusion1D_h1 (Diffusion1D.amp self) xN)
                             lt lx)))
       (Some (Tensor s (map2 (At.Diffusion1D_B xN) lt lx)))).
Proof.
  intros Ht Hx. unfold Diffusion1D.trail_function. pde_eval.
  rewrite h1_lists, B_lists by congruence.
  destruct self. reflexivity.
Qed.

Lemma Diffusion1D_init_function_eval (self : Diffusion1D.obj num)
    (s : list nat) (lx : list num) (x0 xN : num) :
  length lx = size s ->
  Diffusion1D.init_function self (Tensor s lx) (x0, xN)
  = Ok (Tensor s (map (At.Diffusion1D_init (Diffusion1D.amp self) xN) lx)).
Proof.
  intros Hx. unfold Diffusion1D.init_function. pde_eval.
  now rewrite !map_map.
Qed.

Lemma Diffusion1D_analytical_eval (self : Diffusion1D.obj num)
    (s : list nat) (lx lt : list num) (domain : num * num) :
  length lx = size s -> length lt = size s ->
  Diffusion1D.analytical self (Tensor s lx, Tensor s lt) domain
  = Ok (Tensor s (map2 (At.Diffusion1D_analytical (Diffusion1D.amp self)
                          (Diffusion1D.Df self)) lx lt)).
Proof.
  intros Hx Ht. unfold Diffusion1D.analytical. pde_eval.
  now rewrite analytical_lists by congruence.
Qed.

(** The call with the Python number [0] for [t]. *)
Lemma Diffusion1D_analytical_eval_t (self : Diffusion1D.obj num)
    (s : list nat) (lx : list num) (t0 : num) (domain : num * num) :
  length lx = size s ->
  Diffusion1D.analytical self (Tensor s lx, scalar t0) domain
  = Ok (Tensor s (map (fun x => At.Diffusion1D_analytical
                                  (Diffusion1D.amp self)
                                  (Diffusion1D.Df self) x t0) lx)).
Proof.
  intros Hx. unfold Diffusion1D.analytical. pde_eval.
  now rewrite !map_map.
Qed.

End PDEFacts.

(** ** The trial function at the initial time, on binary64 *)

Lemma shr_1_iter_xO (n : nat) (m : positive) :
  Nat.iter n shr_1 (Build_shr_record (Zpos (Nat.iter n xO m)) false false)
  = Build_shr_record (Zpos m) false false.
Proof.
  induction n as [|n IH]; [reflexivity|].
  rewrite Nat.iter_succ_r, Nat.iter_succ. cbn [shr_1 orb]. exact IH.
Qed.

Lemma iter_xO_mul (k m : positive) :
  (Pos.iter xO 1%positive k * m)%positive = Pos.iter xO m k.
Proof.
  induction k as [|k IH] using Pos.peano_ind.
  - reflexivity.
  - rewrite !Pos.iter_succ. cbn [Pos.mul]. now rewrite IH.
Qed.

Lemma pos_iter_nat (X : Type) (f : X -> X) (x : X) (p : positive) :
  Pos.iter f x p = Nat.iter (Pos.to_nat p) f x.
Proof. apply Pos2Nat.inj_iter. Qed.

(** A magnitude with [k] zero bits below a canonical mantissa rounds to that
    mantissa. *)
Lemma binary_round_aux_shifted (s : bool) (m k : positive) (e : Z) :
  SpecFloat.bounded prec emax m e = true ->
  binary_round_aux prec emax s (Zpos (Pos.iter xO m k)) (e - Zpos k)
    loc_Exact
  = S754_finite s m e.
Proof.
  unfold SpecFloat.bounded, canonical_mantissa. intros H.
  apply andb_prop in H. destruct H as [Hc Hb]. apply Z.eqb_eq in Hc.
  unfold binary_round_aux, shr_fexp. cbn [Zdigits2 shr_record_of_loc].
  rewrite digits_iter_xO.
  replace (Zpos (digits2_pos m) + Zpos k + (e - Zpos k))%Z
    with (Zpos (digits2_pos m) + e)%Z by lia.
  rewrite Hc.
  replace (e - (e - Zpos k))%Z with (Zpos k) by lia.
  cbn [shr]. rewrite iter_pos_nat, pos_iter_nat, shr_1_iter_xO.
  cbn [shr_m loc_of_shr_record round_nearest_even Zdigits2
       shr_record_of_loc].
  replace (e - Zpos k + Zpos k)%Z with e by lia.
  rewrite Hc, Z.sub_diag. cbn [shr shr_m]. now rewrite Hb.
Qed.

Lemma SFmul_one_l (y : spec_float) :
  valid_binary y = true ->
  SFmul prec emax (Prim2SF 1) y = y.
Proof.
  change (Prim2SF 1)
    with (S754_finite false (Pos.iter xO 1%positive 52%positive) (-52)%Z).
  destruct y as [s|s| |s m e]; cbn [SFmul xorb]; intros H;
    try reflexivity.
  change (SpecFloat.bounded prec emax m e = true) in H.
  rewrite iter_xO_mul.
  replace (-52 + e)%Z with (e - 52)%Z by lia.
  apply binary_round_aux_shifted. exact H.
Qed.

Lemma mul_1_l (y : float) : (1 * y)%float = y.
Proof.
  apply Prim2SF_inj. rewrite mul_spec.
  apply SFmul_one_l, Prim2SF_valid.
Qed.

Lemma mul_0_r (y : float) :
  if is_finite y then PrimFloat.eqb (y * 0) 0 = true
  else PrimFloat.is_nan (y * 0) = true.
Proof.
  destruct (is_finite y) eqn:Hy.
  - apply is_finite_spec in Hy. rewrite eqb_spec, mul_spec.
    change (Prim2SF 0) with (S754_zero false).
    destruct (Prim2SF y); cbn [bounded_value] in Hy; try contradiction;
      reflexivity.
  - rewrite is_nan_spec, mul_spec.
    change (Prim2SF 0) with (S754_zero false).
    destruct (Prim2SF y) as [s|s| |s m e] eqn:E; try reflexivity.
    + assert (is_finite y = true) by (apply is_finite_spec; now rewrite E).
      congruence.
    + assert (is_finite y = true) by (apply is_finite_spec; now rewrite E).
      congruence.
Qed.

Lemma h1_at_t0 (E : Elementary float) (amp xN x : float) :
  At.Diffusion1D_h1 amp xN 0%float x = At.Diffusion1D_init amp xN x.
Proof.
  unfold At.Diffusion1D_h1, At.Diffusion1D_init.
  cbn [fsub fmul lit_1 float64].
  change (1 - 0)%float with 1%float. apply mul_1_l.
Qed.

(** X17: on binary64, whatever the library's [sin] returns, Diffusion1D's
    [trail_function] at time [t = 0.] stores as [h1] exactly what
    [init_function] returns on the same positions and domain: [1. - 0.] is
    [1.] and [1. * y] is [y] for every binary64 [y].  The [B] it stores is
    [x/xN*(1. - x/xN) * 0.] in every entry, which is a zero where
    [x/xN*(1. - x/xN)] is finite and NaN where it is not.  [amp] and [Df]
    stay. *)
Theorem X17_Diffusion1D_trial_function_at_t0
    (E : Elementary float) (self : Diffusion1D.obj float)
    (s : list nat) (f : nat -> float) (x0 xN : float) :
  let x := tabulate s f in
  let t := tabulate s (fun _ => 0%float) in
  let u := tabulate s (fun i => At.Diffusion1D_init (Diffusion1D.amp self)
                                  xN (f i)) in
  let b := tabulate s (fun i => At.Diffusion1D_B xN 0%float (f i)) in
  Diffusion1D.init_function self x (x0, xN) = Ok u
  /\ Diffusion1D.trail_function (t, x) (x0, xN) self
     = (Ok tt,
        Diffusion1D.Make (Diffusion1D.amp self) (Diffusion1D.Df self)
          (Some u) (Some b))
  /\ forall y : float,
       let q := (y / xN * (1 - y / xN))%float in
       At.Diffusion1D_B xN 0%float y = (q * 0)%float
       /\ if is_finite q then PrimFloat.eqb (q * 0) 0 = true
          else PrimFloat.is_nan (q * 0) = true.
Proof.
  cbv zeta. unfold tabulate. split; [|split].
  - rewrite Diffusion1D_init_function_eval
      by (now rewrite length_map, length_seq).
    now rewrite map_map.
  - rewrite Diffusion1D_trail_function_eval
      by (now rewrite length_map, length_seq).
    do 3 f_equal.
    + f_equal. induction (seq 0 (size s)) as [|i l IH];
        cbn [map map2]; [reflexivity|].
      now rewrite IH, h1_at_t0.
    + f_equal. induction (seq 0 (size s)) as [|i l IH];
        cbn [map map2]; [reflexivity|].
      now rewrite IH.
  - intros y. split; [reflexivity | apply mul_0_r].
Qed.

(** ** Subscripts in the two-dimensional residuals *)



(** * [plot1D] *)

Section PlotFacts.
Variable X : Type.

Lemma subscript_in_range {Y : Type} (l : list Y) (i : nat) (d : Y) :
  i < length l -> subscript l (Z.of_nat i) = Item (nth i l d).
Proof.
  intros Hi. unfold subscript.
  destruct (Z.ltb_spec (Z.of_nat i) 0) as [Hneg|_]; [lia|].
  destruct (Z.ltb_spec (Z.of_nat i) 0) as [Hneg|_]; [lia|].
  destruct (Z.leb_spec (Z.of_nat (length l)) (Z.of_nat i)) as [Hout|_];
    [lia|].
  cbn [orb]. rewrite Nat2Z.id.
  destruct (nth_error l i) as [y|] eqn:Hy.
  - now rewrite (nth_error_nth _ _ d Hy).
  - apply nth_error_None in Hy. lia.
Qed.

Lemma subscript_out_of_range {Y : Type} (l : list Y) (i : nat) :
  length l <= i -> subscript l (Z.of_nat i) = IndexError.
Proof.
  intros Hi. unfold subscript.
  destruct (Z.ltb_spec (Z.of_nat i) 0) as [Hneg|_]; [lia|].
  destruct (Z.ltb_spec (Z.of_nat i) 0) as [Hneg|_]; [lia|].
  destruct (Z.leb_spec (Z.of_nat (length l)) (Z.of_nat i)) as [_|Hin];
    [reflexivity | lia].
Qed.

Lemma plot_lines_step (labels : list String.string) (k : nat) (z : X)
    (zs : list X) :
  plot_lines labels (Z.of_nat k + 1) (z :: zs)
  = match subscript labels (Z.of_nat (4 + k)) with
    | IndexError => IndexError
    | Item lab =>
        match subscript (line_styles) (Z.of_nat k) with
        | IndexError => IndexError
        | Item ls =>
            match plot_lines labels (Z.of_nat (S k) + 1) zs with
            | IndexError => IndexError
            | Item ds => Item (Line z lab ls :: ds)
            end
        end
    end.
Proof.
  cbn [plot_lines].
  replace (4 + (Z.of_nat k + 1 - 1))%Z with (Z.of_nat (4 + k)) by lia.
  replace (Z.of_nat k + 1 - 1)%Z with (Z.of_nat k) by lia.
  replace (Z.of_nat k + 1 + 1)%Z with (Z.of_nat (S k) + 1)%Z by lia.
  reflexivity.
Qed.

(** There are three line styles: the fourth line cannot be drawn. *)
Lemma plot_lines_overflow (labels : list String.string) (zs : list X) :
  forall k : nat,
    1 <= length zs -> 3 < k + length zs ->
    plot_lines labels (Z.of_nat k + 1) zs = IndexError.
Proof.
  induction zs as [|z zs IH]; intros k Hne Hk; cbn [length] in *; [lia|].
  rewrite plot_lines_step.
  destruct (subscript labels (Z.of_nat (4 + k))) as [lab|]; [|reflexivity].
  destruct (Nat.lt_ge_cases k 3) as [Hlt|Hge].
  - rewrite (@subscript_in_range _ line_styles k None) by exact Hlt.
    rewrite IH by lia. reflexivity.
  - rewrite subscript_out_of_range by exact Hge. reflexivity.
Qed.

Lemma plot_lines_in_range (labels : list String.string) (zs : list X) :
  forall k : nat,
    k + length zs <= 3 -> 4 + k + length zs <= length labels ->
    plot_lines labels (Z.of_nat k + 1) zs
    = Item (map (fun p => Line (snd p) (nth (4 + fst p) labels ""%string)
                               (nth (fst p) line_styles None))
                (combine (seq k (length zs)) zs)).
Proof.
  induction zs as [|z zs IH]; intros k Hk Hl; cbn [length] in *;
    [reflexivity|].
  rewrite plot_lines_step.
  rewrite (@subscript_in_range _ labels (4 + k) ""%string) by lia.
  rewrite (@subscript_in_range _ line_styles k None) by (cbn; lia).
  rewrite IH by lia. reflexivity.
Qed.

Lemma extend_labels_length (labels : list String.string) (n : nat) :
  5 <= length labels -> 3 + n <= length (extend_labels labels n).
Proof.
  intros Hl. unfold extend_labels.
  destruct (Nat.ltb_spec (length labels) (3 + n)) as [Hlt|Hge].
  - rewrite length_app, repeat_length. lia.
  - exact Hge.
Qed.

Lemma set_axes_labels_in_range (labels : list String.string) :
  3 <= length labels ->
  set_axes_labels X labels
  = Item [SetTitle (nth 0 labels ""%string);
          SetXLabel (nth 1 labels ""%string);
          SetYLabel (nth 2 labels ""%string)].
Proof.
  intros Hl. unfold set_axes_labels.
  change (subscript labels 0) with (subscript labels (Z.of_nat 0)).
  change (subscript labels 1) with (subscript labels (Z.of_nat 1)).
  change (subscript labels 2) with (subscript labels (Z.of_nat 2)).
  rewrite (@subscript_in_range _ labels 0 ""%string) by lia.
  rewrite (@subscript_in_range _ labels 1 ""%string) by lia.
  rewrite (@subscript_in_range _ labels 2 ""%string) by lia.
  reflexivity.
Qed.

End PlotFacts.

(** X22: [plot1D] cannot complete on a Python list [z_data] that is empty or
    holds five or more arrays, whatever [labels] is: [z_data[0]] fails on the
    empty list, and with five or more arrays the loop reaches
    [line_styles[3]], past the three styles, unless [labels] runs out
    first; either way the outcome is an [IndexError]. *)
Theorem X22_plot1D_list_size_IndexError
    {X : Type} (zs : list X) (labels : list String.string) (save : bool)
    (f_name : String.string) :
  length zs = 0 \/ 5 <= length zs ->
  fst (plot1D (ZList zs) labels save f_name) = IndexError.
Proof.
  intros Hn. unfold plot1D. cbn [fst plot_series].
  set (labels' := extend_labels labels (length zs)).
  destruct zs as [|z0 rest]; [reflexivity|].
  cbn [length] in Hn. destruct Hn as [Hn|Hn]; [discriminate|].
  change (subscript (z0 :: rest) 0) with (Item z0). cbn [tl].
  destruct (subscript labels' 3) as [lab|]; [|reflexivity].
  change (plot_lines labels' 1 rest)
    with (plot_lines labels' (Z.of_nat 0 + 1) rest).
  rewrite (@plot_lines_overflow _ labels' rest 0) by lia.
  reflexivity.
Qed.

Lemma X22_witness :
  let zs := [1; 2; 3; 4; 5] in
  let labels := [""; ""; ""; ""; ""; ""]%string in
  (length zs = 0 \/ 5 <= length zs)
  /\ fst (plot1D (ZList zs) labels false "generic name.png"%string)
     = IndexError.
Proof.
  split; [right; cbn; lia|].
  apply (@X22_plot1D_list_size_IndexError nat [1; 2; 3; 4; 5]
           [""; ""; ""; ""; ""; ""]%string false "generic name.png"%string).
  right; cbn; lia.
Defined.

(** X23: on a Python list [z_data] of one to four arrays and a list [labels]
    of at least five entries (the default has six), every subscript of
    [plot1D] is in range: the first array is scattered with [labels[3]], the
    others are drawn with [labels[4]], [labels[5]], ... and the line styles
    [None], ['--'], ['-.'] in turn, and the title and axis labels are
    [labels[0]], [labels[1]], [labels[2]].  The caller's list [labels] is
    extended in place by [len(z_data) - 2] empty strings when it has fewer
    than [3 + len(z_data)] entries.  A single array needs [labels[3]]
    only. *)
Theorem X23_plot1D_subscripts_in_range
    {X : Type} (z0 : X) (rest : list X) (labels : list String.string)
    (save : bool) (f_name : String.string) :
  length rest <= 3 ->
  5 <= length labels ->
  let n := S (length rest) in
  let labels' :=
    if length labels <? 3 + n then labels ++ repeat ""%string (n - 2)
    else labels in
  plot1D (ZList (z0 :: rest)) labels save f_name
  = (Item (Scatter z0 (nth 3 labels' ""%string)
           :: lines_drawn labels' rest
           ++ [SetTitle (nth 0 labels' ""%string);
               SetXLabel (nth 1 labels' ""%string);
               SetYLabel (nth 2 labels' ""%string)]
           ++ [Legend; Grid]
           ++ if save then [SaveFig f_name] else []),
     labels')
  /\ plot1D (ZArray z0) labels save f_name
     = (Item ([Plot z0 (nth 3 labels ""%string)]
              ++ [SetTitle (nth 0 labels ""%string);
                  SetXLabel (nth 1 labels ""%string);
                  SetYLabel (nth 2 labels ""%string)]
              ++ [Legend; Grid]
              ++ if save then [SaveFig f_name] else []),
        labels).
Proof.
  intros Hrest Hlabels. cbv zeta.
  change (if length labels <? 3 + S (length rest)
          then labels ++ repeat ""%string (S (length rest) - 2)
          else labels)
    with (extend_labels labels (S (length rest))).
  pose proof (@extend_labels_length labels (S (length rest)) Hlabels) as Hl.
  set (labels' := extend_labels labels (S (length rest))) in *.
  split.
  - unfold plot1D. cbn [length plot_series tl]. fold labels'.
    change (subscript (z0 :: rest) 0) with (Item z0).
    change (subscript labels' 3) with (subscript labels' (Z.of_nat 3)).
    rewrite (@subscript_in_range _ labels' 3 ""%string) by lia.
    change (plot_lines labels' 1 rest)
      with (plot_lines labels' (Z.of_nat 0 + 1) rest).
    rewrite (@plot_lines_in_range _ labels' rest 0) by lia.
    rewrite set_axes_labels_in_range by lia.
    reflexivity.
  - unfold plot1D. cbn [plot_series].
    change (subscript labels 3) with (subscript labels (Z.of_nat 3)).
    rewrite (@subscript_in_range _ labels 3 ""%string) by lia.
    rewrite set_axes_labels_in_range by lia.
    reflexivity.
Qed.

Lemma X23_witness :
  let rest := [20; 30; 40] in
  let labels := ["t"; "x"; "y"; "a"; "b"]%string in
  length rest <= 3 /\ 5 <= length labels
  /\ plot1D (ZList (10 :: rest)) labels true "out.png"%string
     = (Item [Scatter 10 "a"%string;
              Line 20 "b"%string None;
              Line 30 ""%string (Some "--"%string);
              Line 40 ""%string (Some "-."%string);
              SetTitle "t"%string; SetXLabel "x"%string;
              SetYLabel "y"%string; Legend; Grid;
              SaveFig "out.png"%string],
        ["t"; "x"; "y"; "a"; "b"; ""; ""]%string).
Proof.
  split; [cbn; lia|]. split; [cbn; lia|].
  apply (@X23_plot1D_subscripts_in_range nat 10 [20; 30; 40]
           ["t"; "x"; "y"; "a"; "b"]%string true "out.png"%string);
    cbn; lia.
Defined.
